(** * fapi: the file-upload HTTP server of cmd/fapi/main.go

  A shallow embedding of the ingestion pipeline: the request handlers and
  their middleware, the bounded write queue and its admission [select],
  the writer workers, the pooled buffered write path and the readiness
  flag, together with the properties the design document states about
  them. The healthCheck tool and the three earlier revisions of the
  server that the repository keeps are embedded after the server. *)

From Stdlib Require Import ZArith NArith Ascii String List Bool Lia.
From Stdlib Require Import Strings.Byte DecimalString.
From Stdlib Require DecimalN DecimalPos.
From stdpp Require Import base option list strings gmap.

(** ** Go strings

  A Go string is a sequence of bytes; [string] (a list of 8-bit [ascii])
  is the same data. *)

Module GoString.

(** The byte [c] occurs in [s]. *)
Fixpoint mem_char (c : ascii) (s : string) : bool :=
  match s with
  | EmptyString => false
  | String a s' => Ascii.eqb a c || mem_char c s'
  end.

(** [strings.ReplaceAll(s, old, new)] for one-byte [old] and [new], the
    only way main.go calls it: every byte equal to [old] becomes [new]. *)
Fixpoint ReplaceAll (s : string) (old new : ascii) : string :=
  match s with
  | EmptyString => EmptyString
  | String a s' =>
      String (if Ascii.eqb a old then new else a) (ReplaceAll s' old new)
  end.

(** [strings.Split(s, sep)] for a one-byte separator. The result always
    has at least one element: splitting the empty string gives the slice
    holding the empty string. *)
Fixpoint Split (s : string) (sep : ascii) : list string :=
  match s with
  | EmptyString => [EmptyString]
  | String a s' =>
      match Split s' sep with
      | [] => [String a EmptyString]
      | part :: rest =>
          if Ascii.eqb a sep then EmptyString :: part :: rest
          else String a part :: rest
      end
  end.

(** [strings.Join(elems, sep)]. *)
Fixpoint Join (elems : list string) (sep : string) : string :=
  match elems with
  | [] => EmptyString
  | [e] => e
  | e :: rest => e +:+ sep +:+ Join rest sep
  end.

(** [strconv.Itoa] on a non-negative integer, and the verb [%d]. *)
Definition Itoa (n : N) : string := NilZero.string_of_uint (N.to_uint n).

Fixpoint zeros (k : nat) : string :=
  match k with
  | O => EmptyString
  | S k' => String "0" (zeros k')
  end.

(** [appendInt(b, x, width)] of package time for [x >= 0]: decimal,
    zero-padded on the left to at least [width] digits. *)
Definition appendInt (x : N) (width : nat) : string :=
  let d := Itoa x in zeros (width - String.length d) +:+ d.

Definition is_digit (a : ascii) : bool :=
  (48 <=? nat_of_ascii a)%nat && (nat_of_ascii a <=? 57)%nat.

Fixpoint all_chars (P : ascii -> bool) (s : string) : bool :=
  match s with
  | EmptyString => true
  | String a s' => P a && all_chars P s'
  end.

(** [strings.HasPrefix]. *)
Definition HasPrefix (s p : string) : bool := String.prefix p s.

End GoString.

Import GoString.

(** ** Package time: the layout used for file names *)

(** The fields of a [time.Time] in UTC that the layout prints. *)
Record Time := {
  year : N;
  month : N;
  day : N;
  hour : N;
  minute : N;
  second : N;
  nanosecond : N;
}.

(** [t.Format("2006-01-02-15_04_05.000000000")]: the year on four digits,
    month, day, hour, minute and second on two, the fraction on nine; the
    underscores are literal (only [_2] is a layout verb). *)
Definition Format (t : Time) : string :=
  appendInt (year t) 4 +:+ "-" +:+ appendInt (month t) 2 +:+ "-" +:+
  appendInt (day t) 2 +:+ "-" +:+ appendInt (hour t) 2 +:+ "_" +:+
  appendInt (minute t) 2 +:+ "_" +:+ appendInt (second t) 2 +:+ "." +:+
  appendInt (nanosecond t) 9.

(** ** Package path/filepath (Unix) *)

Module filepath.

(** One step of the lexical clean-up over the elements of a path: the
    stack holds the elements kept so far, innermost first. *)
Definition clean_step (rooted : bool) (stack : list string) (elem : string)
  : list string :=
  if String.eqb elem "" then stack
  else if String.eqb elem "." then stack
  else if String.eqb elem ".." then
    match stack with
    | top :: below =>
        if String.eqb top ".." then elem :: stack else below
    | [] => if rooted then [] else [elem]
    end
  else elem :: stack.

(** [filepath.Clean]: collapse repeated separators, drop [.] elements,
    resolve inner [..] elements, drop [..] at the root; the empty result is
    [.]. *)
Definition Clean (path : string) : string :=
  let rooted := HasPrefix path "/" in
  let stack := fold_left (clean_step rooted) (Split path "/") [] in
  let out := (if rooted then "/" else "") +:+ GoString.Join (rev stack) "/" in
  if String.eqb out "" then "." else out.

(** [filepath.Join]: the non-empty elements joined by the separator, then
    cleaned; the empty string when there is none. *)
Definition Join (elems : list string) : string :=
  match List.filter (fun e => negb (String.eqb e "")) elems with
  | [] => ""
  | kept => Clean (GoString.Join kept "/")
  end.

(** [path] names an entry directly inside the directory [dir]. *)
Definition direct_child (dir path : string) : Prop :=
  exists name,
    path = dir +:+ "/" +:+ name /\
    mem_char "/" name = false /\
    name <> "" /\ name <> "." /\ name <> "..".

End filepath.

(** ** The operating system: files *)

(** [files] maps a path to the content of the file there; [denied] holds
    the paths at which [os.Create] fails (missing parent, permissions,
    invalid name); [quota] is the number of bytes the device still
    accepts before writes fail ([None]: no limit); [open_files] counts
    the descriptors the process holds. *)
Record OS := {
  files : gmap string (list byte);
  denied : gset string;
  quota : option nat;
  open_files : nat;
}.

(** An [*os.File]. *)
Record File := { file_name : string }.

(** [os.Create(path)]: create or truncate. *)
Definition os_Create (path : string) (o : OS) : option File * OS :=
  if decide (path ∈ denied o) then (None, o)
  else (Some {| file_name := path |},
        {| files := <[path := []]> (files o); denied := denied o;
           quota := quota o; open_files := S (open_files o) |}).

(** [f.Write(p)]: the bytes the device accepts are appended; the error is
    set exactly when fewer than [len(p)] bytes were written. *)
Definition file_Write (f : File) (p : list byte) (o : OS) : nat * bool * OS :=
  let n := match quota o with
           | None => length p
           | Some q => Nat.min q (length p)
           end in
  let old := default [] (files o !! file_name f) in
  (n, n <? length p,
   {| files := <[file_name f := old ++ take n p]> (files o);
      denied := denied o;
      quota := (fun q => q - n) <$> quota o;
      open_files := open_files o |}).

(** [f.Close()]. *)
Definition file_Close (f : File) (o : OS) : OS :=
  {| files := files o; denied := denied o; quota := quota o;
     open_files := pred (open_files o) |}.

(** ** Package bufio: the writer of the buffer pool *)

Module bufio.

(** [wr] is the destination, [buf] the bytes buffered and not yet written
    ([b.buf[0:b.n]]), [err] the sticky error. *)
Record Writer := {
  wr : option File;
  buf : list byte;
  err : bool;
}.

Definition size : nat := 4096.

(** [bufio.NewWriterSize(nil, 4096)]. *)
Definition NewWriterSize : Writer := {| wr := None; buf := []; err := false |}.

(** [b.Reset(w)]: drop buffered data, clear the error, retarget. *)
Definition Reset (b : Writer) (w : File) : Writer :=
  {| wr := Some w; buf := []; err := false |}.

Definition Available (b : Writer) : nat := size - length (buf b).
Definition Buffered (b : Writer) : nat := length (buf b).

(** The write on the destination; a writer with no destination fails. *)
Definition dest_Write (b : Writer) (p : list byte) (o : OS) : nat * bool * OS :=
  match wr b with
  | Some f => file_Write f p o
  | None => (0, true, o)
  end.

(** [b.Flush()]: returns whether it failed. A short write is an error;
    on error the unwritten bytes stay buffered. *)
Definition Flush (b : Writer) (o : OS) : bool * Writer * OS :=
  if err b then (true, b, o)
  else if Buffered b =? 0 then (false, b, o)
  else
    let '(n, e, o') := dest_Write b (buf b) o in
    let e := e || (n <? Buffered b) in
    if e then (true, {| wr := wr b; buf := drop n (buf b); err := true |}, o')
    else (false, {| wr := wr b; buf := []; err := false |}, o').

(** The condition of the loop of [b.Write(p)]:
    [len(p) > b.Available() && b.err == nil]. *)
Definition must_flush (b : Writer) (p : list byte) : bool :=
  (Available b <? length p) && negb (err b).

(** The loop of [b.Write(p)]: while [p] does not fit and no error occurred,
    write straight through when the buffer is empty, else fill the buffer
    and flush it. It returns the writer, what is left of [p] and the OS. *)
Fixpoint write_loop (fuel : nat) (b : Writer) (p : list byte) (o : OS)
  : Writer * list byte * OS :=
  match fuel with
  | O => (b, p, o)
  | S fuel' =>
      if must_flush b p then
        if Buffered b =? 0 then
          let '(n, e, o') := dest_Write b p o in
          write_loop fuel' {| wr := wr b; buf := buf b; err := e |}
                     (drop n p) o'
        else
          let n := Nat.min (Available b) (length p) in
          let b1 := {| wr := wr b; buf := buf b ++ take n p; err := err b |} in
          let '(_, b2, o') := Flush b1 o in
          write_loop fuel' b2 (drop n p) o'
      else (b, p, o)
  end.

(** [b.Write(p)]: returns whether it failed. The loop never takes more
    than three turns (fill and flush, write through, leave), so the fuel
    given here is enough. *)
Definition Write (b : Writer) (p : list byte) (o : OS) : bool * Writer * OS :=
  let '(b1, rest, o1) := write_loop (2 * length p + 2) b p o in
  if err b1 then (true, b1, o1)
  else (false, {| wr := wr b1; buf := buf b1 ++ rest; err := false |}, o1).

End bufio.

(** ** Responses *)

(** What a handler has written on its [http.ResponseWriter]: the header
    map, the status once [WriteHeader] was called, the body so far. *)
Record ResponseWriter := {
  rw_header : list (string * string);
  rw_status : option N;
  rw_body : string;
}.

Definition newResponseWriter : ResponseWriter :=
  {| rw_header := []; rw_status := None; rw_body := "" |}.

(** [w.Header().Set(k, v)]; it no longer reaches the client once the
    status line is out. *)
Definition Header_Set (k v : string) (w : ResponseWriter) : ResponseWriter :=
  match rw_status w with
  | Some _ => w
  | None =>
      {| rw_header :=
           (k, v) :: List.filter (fun kv => negb (String.eqb (fst kv) k))
                                 (rw_header w);
         rw_status := None; rw_body := rw_body w |}
  end.

(** [w.WriteHeader(code)]: the first call wins. *)
Definition WriteHeader (code : N) (w : ResponseWriter) : ResponseWriter :=
  match rw_status w with
  | Some _ => w
  | None => {| rw_header := rw_header w; rw_status := Some code;
               rw_body := rw_body w |}
  end.

(** [w.Write(b)]: an implicit [WriteHeader(200)] first. *)
Definition rw_Write (b : string) (w : ResponseWriter) : ResponseWriter :=
  let w := WriteHeader 200 w in
  {| rw_header := rw_header w; rw_status := rw_status w;
     rw_body := rw_body w +:+ b |}.

Definition StatusOK : N := 200.
Definition StatusAccepted : N := 202.
Definition StatusNoContent : N := 204.
Definition StatusBadRequest : N := 400.
Definition StatusMethodNotAllowed : N := 405.
Definition StatusRequestTimeout : N := 408.
Definition StatusInternalServerError : N := 500.
Definition StatusServiceUnavailable : N := 503.
Definition StatusNotFound : N := 404.

Definition MethodGet : string := "GET".
Definition MethodPost : string := "POST".
Definition MethodOptions : string := "OPTIONS".

(** ** Requests and readers *)

(** An [io.Reader] seen as the stream it will deliver: [rd_bytes], then
    end of file when [rd_err] is [None], else the error. *)
Record Reader := {
  rd_bytes : list byte;
  rd_err : option string;
}.

(** What the handlers read of an [*http.Request]. [Header] is the header
    map as a list of (canonical key, first value); [ctxDone] tells whether
    [r.Context().Done()] is ready when the handler reaches its [select]. *)
Record Request := {
  Method : string;
  URLPath : string;
  Header : list (string * string);
  RemoteAddr : string;
  Body : Reader;
  ctxDone : bool;
}.

(** [r.Header.Get(key)]: the first value of [key], or the empty string. *)
Fixpoint Header_Get (h : list (string * string)) (key : string) : string :=
  match h with
  | [] => EmptyString
  | (k, v) :: h' => if String.eqb k key then v else Header_Get h' key
  end.

(** [http.MaxBytesReader(w, r, n)]: the stream of [r] while it stays
    within [n] bytes, an error after [n] bytes otherwise. *)
Definition MaxBytesReader (r : Reader) (n : N) : Reader :=
  if (N.of_nat (length (rd_bytes r)) <=? n)%N then r
  else {| rd_bytes := take (N.to_nat n) (rd_bytes r);
          rd_err := Some "http: request body too large"%string |}.

(** [io.ReadAll(r)]. *)
Definition io_ReadAll (r : Reader) : string + list byte :=
  match rd_err r with
  | Some e => inl e
  | None => inr (rd_bytes r)
  end.

(** The functions of the Go standard library whose results the server
    only passes on. [gzip_header] tells whether [gzip.NewReader] accepts
    the header of a stream, [gzip_inflate] is the decompressed content of
    a whole stream ([None] when it is corrupt). *)
Class GoLib := {
  json_Valid : list byte -> bool;
  gzip_header : list byte -> bool;
  gzip_inflate : list byte -> option (list byte);
  strings_TrimSpace : string -> string;
  net_SplitHostPort : string -> option (string * string);
}.

(** ** The server *)

Definition uploadDir : string := "./uploads".
Definition maxBodySize : N := N.shiftl 10 20.
Definition workerCount : nat := 4.
Definition writeQueueCap : nat := 100.

Record writeRequest := {
  data : list byte;
  path : string;
}.

(** What the process does to the outside, in order. *)
Inductive Event :=
| EvLog (line : string)
| EvMkdirAll (dir : string) (ok : bool)
| EvSpawnWorker
| EvSetReady (ready : bool)
| EvListen (ok : bool)
| EvFatal
| EvCreate (name : string) (ok : bool)
| EvPoolGet
| EvPoolPut
| EvClose (name : string)
| EvRespond (status : option N).

(** The package-level variables, the file system and the history.
    [writeQueue] holds the content of the channel's buffer, oldest first;
    [bufferPool] the idle writers of the [sync.Pool] and [lent] the number
    of writers taken and not yet put back. *)
Record World := {
  isReady : bool;
  writeQueue : list writeRequest;
  bufferPool : list bufio.Writer;
  lent : nat;
  os : OS;
  events : list Event;
}.

Definition emit (e : Event) (σ : World) : World :=
  {| isReady := isReady σ; writeQueue := writeQueue σ;
     bufferPool := bufferPool σ; lent := lent σ; os := os σ;
     events := events σ ++ [e] |}.

Definition set_os (o : OS) (σ : World) : World :=
  {| isReady := isReady σ; writeQueue := writeQueue σ;
     bufferPool := bufferPool σ; lent := lent σ; os := o;
     events := events σ |}.

Definition set_writeQueue (q : list writeRequest) (σ : World) : World :=
  {| isReady := isReady σ; writeQueue := q;
     bufferPool := bufferPool σ; lent := lent σ; os := os σ;
     events := events σ |}.

(** [log.Printf], [log.Println]. *)
Definition log_Print (line : string) (σ : World) : World := emit (EvLog line) σ.

(** [setReady]; the lock makes the assignment one atomic step. *)
Definition setReady (ready : bool) (σ : World) : World :=
  emit (EvSetReady ready)
    {| isReady := ready; writeQueue := writeQueue σ;
       bufferPool := bufferPool σ; lent := lent σ; os := os σ;
       events := events σ |}.

(** [checkReady]. *)
Definition checkReady (σ : World) : bool := isReady σ.

(** [bufferPool.Get()]: an idle writer, or a new one from [New]. *)
Definition bufferPool_Get (σ : World) : bufio.Writer * World :=
  let '(b, idle) := match bufferPool σ with
                    | b :: idle => (b, idle)
                    | [] => (bufio.NewWriterSize, [])
                    end in
  (b, emit EvPoolGet
        {| isReady := isReady σ; writeQueue := writeQueue σ;
           bufferPool := idle; lent := S (lent σ); os := os σ;
           events := events σ |}).

(** [bufferPool.Put(b)]. *)
Definition bufferPool_Put (b : bufio.Writer) (σ : World) : World :=
  emit EvPoolPut
    {| isReady := isReady σ; writeQueue := writeQueue σ;
       bufferPool := b :: bufferPool σ; lent := pred (lent σ); os := os σ;
       events := events σ |}.

(** [writeToFile]. The two deferred calls run on every return after their
    [defer] statement, last registered first: [bufferPool.Put(buf)], then
    [f.Close()]. The log lines are given without the error text that ends
    them. *)
Definition writeToFile (data : list byte) (path : string) (σ : World) : World :=
  let '(f, o) := os_Create path (os σ) in
  match f with
  | None =>
      log_Print ("ERROR: Failed to create file " +:+ path)
        (emit (EvCreate path false) (set_os o σ))
  | Some f =>
      let σ := emit (EvCreate path true) (set_os o σ) in
      let deferred_Close σ := emit (EvClose path) (set_os (file_Close f (os σ)) σ) in
      let '(buf, σ) := bufferPool_Get σ in
      let buf := bufio.Reset buf f in
      let deferred_Put buf σ := bufferPool_Put buf σ in
      let '(failed, buf, o) := bufio.Write buf data (os σ) in
      let σ := set_os o σ in
      if failed then
        let σ := log_Print ("ERROR: Failed to write to file " +:+ path) σ in
        deferred_Close (deferred_Put buf σ)
      else
        let '(failed, buf, o) := bufio.Flush buf (os σ) in
        let σ := set_os o σ in
        let σ := if failed
                 then log_Print ("ERROR: Failed to flush buffer for file " +:+ path) σ
                 else σ in
        deferred_Close (deferred_Put buf σ)
  end.

(** *** Handlers *)

(** The nondeterminism of one request: the clock read by [time.Now()],
    the draw of [rand.Intn(10000)], and the runtime's choice between the
    two cases of the [select] when both are ready. *)
Record Sched := {
  now : Time;
  rnd : N;
  coin : bool;
}.

(** How a handler call ends: it returns, it stays blocked in its [select],
    or it panics. *)
Inductive Outcome :=
| Returned (w : ResponseWriter) (σ : World)
| Parked
| Panicked (w : ResponseWriter) (σ : World).

Definition Handler : Type := Sched -> ResponseWriter -> Request -> World -> Outcome.

Definition nl : string := String "010" EmptyString.
Definition dq : string := String "034" EmptyString.
Definition emdash : string :=
  String "226" (String "128" (String "148" EmptyString)).

(** The JSON text [json.NewEncoder(w).Encode] writes for
    [map[string]string{"error": message}]; the messages of this program are
    literals with nothing to escape. *)
Definition encode_error (message : string) : string :=
  "{" +:+ dq +:+ "error" +:+ dq +:+ ":" +:+ dq +:+ message +:+ dq +:+ "}" +:+ nl.

(** [respondWithError]. *)
Definition respondWithError (w : ResponseWriter) (statusCode : N)
    (message : string) (err : option string) (σ : World)
  : ResponseWriter * World :=
  let logMsg := match err with
                | Some e => message +:+ " - " +:+ e
                | None => message
                end in
  let σ := log_Print ("ERROR: " +:+ logMsg) σ in
  let w := Header_Set "Content-Type" "application/json" w in
  let w := WriteHeader statusCode w in
  let w := rw_Write (encode_error message) w in
  (w, σ).

(** [sanitizeIP]: remove characters that are unsafe for filenames. *)
Definition sanitizeIP (ip : string) : string :=
  let ip := ReplaceAll ip ":" "_" in
  let ip := ReplaceAll ip "/" "_" in
  let ip := ReplaceAll ip "\" "_" in
  ip.

(** The outcome of the [select] of [handlePost]. *)
Inductive Admission := Enqueued | Cancelled.

(** [select { case writeQueue <- req: ...; case <-r.Context().Done(): ... }]
    on a channel whose buffer holds [q]. The send can proceed when the
    buffer is not full, the receive when the context is done; when both
    can, the runtime picks one at random ([coin]); when neither can, the
    goroutine stays blocked ([None]). *)
Definition select_send (q : list writeRequest) (req : writeRequest)
    (done coin : bool) : option (Admission * list writeRequest) :=
  match length q <? writeQueueCap, done with
  | true, false => Some (Enqueued, q ++ [req])
  | false, true => Some (Cancelled, q)
  | true, true => if coin then Some (Enqueued, q ++ [req]) else Some (Cancelled, q)
  | false, false => None
  end.

Section Handlers.

Context `{GoLib}.

(** [gzip.NewReader(r)]: the header is checked at once; the reader then
    delivers the decompressed stream. It reads its source up to end of
    file, so an error of the source, like a corrupt stream, is an error
    of the reader. *)
Definition gzip_NewReader (r : Reader) : string + Reader :=
  if gzip_header (rd_bytes r) then
    inr match rd_err r, gzip_inflate (rd_bytes r) with
        | None, Some out => {| rd_bytes := out; rd_err := None |}
        | Some e, _ => {| rd_bytes := []; rd_err := Some e |}
        | None, None => {| rd_bytes := []; rd_err := Some "unexpected EOF"%string |}
        end
  else inl "gzip: invalid header"%string.

(** [getClientIP]. [parts[0]] is in range: [Split] never returns an empty
    slice. *)
Definition getClientIP (r : Request) : string :=
  let forwarded := Header_Get (Header r) "X-Forwarded-For" in
  if negb (String.eqb forwarded "") then
    let parts := Split forwarded "," in
    strings_TrimSpace (hd EmptyString parts)
  else
    match net_SplitHostPort (RemoteAddr r) with
    | None => EmptyString
    | Some (ip, _) => ip
    end.

(** [handlePost]. *)
Definition handlePost : Handler := fun s w r σ =>
  if negb (String.eqb (Method r) MethodPost) then
    let '(w, σ) := respondWithError w StatusMethodNotAllowed "Only POST allowed" None σ in
    Returned w σ
  else
    let body := MaxBytesReader (Body r) maxBodySize in
    match (if String.eqb (Header_Get (Header r) "Content-Encoding") "gzip"
           then gzip_NewReader body else inr body) with
    | inl err =>
        let '(w, σ) := respondWithError w StatusBadRequest "Invalid gzip data" (Some err) σ in
        Returned w σ
    | inr reader =>
        match io_ReadAll reader with
        | inl err =>
            let '(w, σ) := respondWithError w StatusBadRequest
                             "Failed to read request body" (Some err) σ in
            Returned w σ
        | inr body =>
            let ip := sanitizeIP (getClientIP r) in
            let ip := if String.eqb ip "" then "unknown"%string else ip in
            let timestamp := Format (now s) in
            let suffix := "-" +:+ Itoa (rnd s) in
            let isJSON := json_Valid body in
            let ext := if negb isJSON then ".txt"%string else ".json"%string in
            let filename := ip +:+ "-" +:+ timestamp +:+ suffix +:+ ext in
            let fullPath := filepath.Join [uploadDir; filename] in
            let req := {| data := body; path := fullPath |} in
            match select_send (writeQueue σ) req (ctxDone r) (coin s) with
            | None => Parked
            | Some (Cancelled, _) =>
                let '(w, σ) := respondWithError w StatusRequestTimeout
                                 "Request cancelled" (Some "context canceled"%string) σ in
                Returned w σ
            | Some (Enqueued, q) =>
                let σ := set_writeQueue q σ in
                let w := WriteHeader StatusAccepted w in
                if isJSON then Returned (rw_Write ("JSON stored" +:+ nl) w) σ
                else Returned (rw_Write ("Invalid JSON " +:+ emdash +:+
                                         " stored as .txt" +:+ nl) w) σ
            end
        end
    end.

(** [handleSubmit]. *)
Definition handleSubmit : Handler := fun s w r σ =>
  if String.eqb (Method r) MethodPost then handlePost s w r σ
  else if String.eqb (Method r) MethodGet then
    let w := Header_Set "Content-Type" "application/json" w in
    let w := WriteHeader StatusOK w in
    let w := rw_Write ("{" +:+ dq +:+ "status" +:+ dq +:+ ":" +:+ dq +:+
                       "API is alive" +:+ dq +:+ "}") w in
    Returned w σ
  else
    let '(w, σ) := respondWithError w StatusMethodNotAllowed
                     "Only GET and POST allowed" None σ in
    Returned w σ.

(** [handleHealth]. *)
Definition handleHealth : Handler := fun s w r σ =>
  let w := WriteHeader StatusOK w in
  Returned (rw_Write ("OK" +:+ nl) w) σ.

(** [handleReady]. *)
Definition handleReady : Handler := fun s w r σ =>
  if checkReady σ then
    let w := WriteHeader StatusOK w in
    Returned (rw_Write ("READY" +:+ nl) w) σ
  else
    let w := WriteHeader StatusServiceUnavailable w in
    Returned (rw_Write ("NOT READY" +:+ nl) w) σ.

(** [withCORS]. *)
Definition withCORS (next : Handler) : Handler := fun s w r σ =>
  let w := Header_Set "Access-Control-Allow-Origin" "*" w in
  let w := Header_Set "Access-Control-Allow-Methods" "GET, POST, OPTIONS" w in
  let w := Header_Set "Access-Control-Allow-Headers" "Content-Type, Authorization" w in
  if String.eqb (Method r) MethodOptions then
    Returned (WriteHeader StatusNoContent w) σ
  else next s w r σ.

(** [http.Error(w, msg, code)]. *)
Definition http_Error (w : ResponseWriter) (msg : string) (code : N) : ResponseWriter :=
  let w := Header_Set "Content-Type" "text/plain; charset=utf-8" w in
  let w := Header_Set "X-Content-Type-Options" "nosniff" w in
  let w := WriteHeader code w in
  rw_Write (msg +:+ nl) w.

(** [withRecover]: the deferred function turns a panic of [next] into a
    500 response. *)
Definition withRecover (next : Handler) : Handler := fun s w r σ =>
  match next s w r σ with
  | Panicked w σ =>
      let σ := log_Print "PANIC" σ in
      Returned (http_Error w "Internal Server Error" StatusInternalServerError) σ
  | out => out
  end.

(** [withLogging]; the duration at the end of the line is left out. *)
Definition withLogging (next : Handler) : Handler := fun s w r σ =>
  match next s w r σ with
  | Returned w σ => Returned w (log_Print (Method r +:+ " " +:+ URLPath r) σ)
  | out => out
  end.

(** The patterns registered on the [ServeMux] in [main]. *)
Inductive Route := RouteCollection | RouteHealth | RouteReady | RouteNone.

(** The pattern a path in clean form is matched to: the longest pattern
    wins, a pattern ending in a slash matches the subtree. *)
Definition mux_match (p : string) : Route :=
  if String.eqb p "/v1/collection" then RouteCollection
  else if HasPrefix p "/v1/collection/" then RouteCollection
  else if String.eqb p "/v1/health" then RouteHealth
  else if String.eqb p "/v1/ready" then RouteReady
  else RouteNone.

(** [cleanPath] of net/http: the canonical form of a request path, which
    keeps a trailing slash. *)
Definition cleanPath (p : string) : string :=
  if String.eqb p "" then "/"%string
  else
    let p := if HasPrefix p "/" then p else ("/" +:+ p)%string in
    let np := filepath.Clean p in
    if String.eqb (String.substring (String.length p - 1) 1 p) "/"
       && negb (String.eqb np "/")
    then (np +:+ "/")%string else np.

(** [http.Redirect(w, r, url, code)]; the short HTML body is left out. *)
Definition http_Redirect (w : ResponseWriter) (url : string) (code : N) : ResponseWriter :=
  WriteHeader code (Header_Set "Location" url w).

(** [mux.ServeHTTP]: a request whose path is not in canonical form is
    redirected to it (but for CONNECT); otherwise the handler of the
    matching pattern runs, [http.NotFound] when there is none. *)
Definition mux : Handler := fun s w r σ =>
  if negb (String.eqb (Method r) "CONNECT")
     && negb (String.eqb (cleanPath (URLPath r)) (URLPath r)) then
    Returned (http_Redirect w (cleanPath (URLPath r)) 301) σ
  else
    match mux_match (URLPath r) with
    | RouteCollection => handleSubmit s w r σ
    | RouteHealth => handleHealth s w r σ
    | RouteReady => handleReady s w r σ
    | RouteNone => Returned (http_Error w "404 page not found" StatusNotFound) σ
    end.

(** The mux hands the request [r] to the handler registered for [rt]. *)
Definition routed (r : Request) (rt : Route) : Prop :=
  (Method r = "CONNECT"%string \/ cleanPath (URLPath r) = URLPath r) /\
  mux_match (URLPath r) = rt.

(** [handler := withRecover(withLogging(withCORS(mux)))], the handler of
    the server. *)
Definition handler : Handler := withRecover (withLogging (withCORS mux)).

(** The server runs [handler] on a fresh response writer; a handler that
    returns without writing gets the implicit status 200. *)
Definition serve (s : Sched) (r : Request) (σ : World) : option (ResponseWriter * World) :=
  match handler s newResponseWriter r σ with
  | Returned w σ =>
      let w := WriteHeader StatusOK w in
      Some (w, emit (EvRespond (rw_status w)) σ)
  | _ => None
  end.

End Handlers.

(** ** The process: [main], the workers and the requests *)

(** Where the main goroutine stands. *)
Inductive MainPC :=
| PcMkdir                (* before os.MkdirAll *)
| PcSpawn (i : nat)      (* at the head of the loop, counter i *)
| PcSetReady             (* server built and announced, before setReady(true) *)
| PcListen               (* before server.ListenAndServe() *)
| PcServing              (* inside ListenAndServe, listener bound *)
| PcExited.              (* after log.Fatalf *)

(** [workers] counts the writer goroutines started; [busy] holds the jobs
    a worker has received and not yet written. *)
Record Sys := {
  pc : MainPC;
  world : World;
  workers : nat;
  busy : list writeRequest;
}.

Inductive Label :=
| LMkdir (ok : bool)
| LSpawn
| LLog
| LSetReady
| LListen (ok : bool)
| LRequest (s : Sched) (r : Request)
| LReceive
| LWrite (i : nat).

Definition with_world (Σ : Sys) (p : MainPC) (σ : World) : Sys :=
  {| pc := p; world := σ; workers := workers Σ; busy := busy Σ |}.

Definition exited (Σ : Sys) : bool :=
  match pc Σ with PcExited => true | _ => false end.

(** The state of the process when [main] starts: the package-level
    variables hold their initial values. *)
Definition boot (o : OS) : Sys :=
  {| pc := PcMkdir;
     world := {| isReady := false; writeQueue := []; bufferPool := [];
                 lent := 0; os := o; events := [] |};
     workers := 0; busy := [] |}.

Section Process.

Context `{GoLib}.

(** One atomic step of the process: a statement of [main] (the seeding of
    the random generator, which comes first, has no effect here), a
    handler call running to its return, a worker of [fileWriterWorker]
    receiving the oldest job of the queue, a worker writing the job it
    holds. *)
Definition step_fn (l : Label) (Σ : Sys) : option Sys :=
  if exited Σ then None else
  match l, pc Σ with
  (* if err := os.MkdirAll(uploadDir, 0755); err != nil { log.Fatalf(...) } *)
  | LMkdir true, PcMkdir =>
      Some (with_world Σ (PcSpawn 0) (emit (EvMkdirAll uploadDir true) (world Σ)))
  | LMkdir false, PcMkdir =>
      Some (with_world Σ PcExited
              (emit EvFatal (log_Print "Failed to create upload directory"
                 (emit (EvMkdirAll uploadDir false) (world Σ)))))
  (* for i := 0; i < workerCount; i++ { go fileWriterWorker() } *)
  | LSpawn, PcSpawn i =>
      if i <? workerCount then
        Some {| pc := PcSpawn (S i); world := emit EvSpawnWorker (world Σ);
                workers := S (workers Σ); busy := busy Σ |}
      else None
  (* mux, handler and server are built; log.Println("Listening on :8989") *)
  | LLog, PcSpawn i =>
      if i <? workerCount then None
      else Some (with_world Σ PcSetReady (log_Print "Listening on :8989" (world Σ)))
  (* setReady(true) *)
  | LSetReady, PcSetReady =>
      Some (with_world Σ PcListen (setReady true (world Σ)))
  (* if err := server.ListenAndServe(); err != nil { log.Fatalf(...) } *)
  | LListen true, PcListen =>
      Some (with_world Σ PcServing (emit (EvListen true) (world Σ)))
  | LListen false, PcListen =>
      Some (with_world Σ PcExited
              (emit EvFatal (log_Print "Server error"
                 (emit (EvListen false) (world Σ)))))
  (* the server runs the handler on a request *)
  | LRequest s r, PcServing =>
      match serve s r (world Σ) with
      | Some (_, σ) => Some (with_world Σ PcServing σ)
      | None => None
      end
  (* fileWriterWorker: for req := range writeQueue *)
  | LReceive, _ =>
      match writeQueue (world Σ) with
      | req :: q =>
          if length (busy Σ) <? workers Σ then
            Some {| pc := pc Σ; world := set_writeQueue q (world Σ);
                    workers := workers Σ; busy := busy Σ ++ [req] |}
          else None
      | [] => None
      end
  (* fileWriterWorker: writeToFile(req.data, req.path) *)
  | LWrite i, _ =>
      match busy Σ !! i with
      | Some req =>
          Some {| pc := pc Σ; world := writeToFile (data req) (path req) (world Σ);
                  workers := workers Σ; busy := delete i (busy Σ) |}
      | None => None
      end
  | _, _ => None
  end.

Definition step (Σ : Sys) (l : Label) (Σ' : Sys) : Prop := step_fn l Σ = Some Σ'.

(** The states the process can be in when it starts on the disk [o]. *)
Inductive reachable (o : OS) : Sys -> Prop :=
| reach_boot : reachable o (boot o)
| reach_step Σ l Σ' : reachable o Σ -> step Σ l Σ' -> reachable o Σ'.

(** Running a list of labels. *)
Fixpoint run (ls : list Label) (Σ : Sys) : option Sys :=
  match ls with
  | [] => Some Σ
  | l :: ls' =>
      match step_fn l Σ with
      | Some Σ' => run ls' Σ'
      | None => None
      end
  end.

End Process.

(** ** An instance of the library, to run the server on examples *)

Module Demo.

Local Open Scope char_scope.

Definition is_ws (c : ascii) : bool :=
  match c with " " | "009" | "010" | "013" => true | _ => false end.

Fixpoint skip_ws (l : list ascii) : list ascii :=
  match l with
  | c :: l' => if is_ws c then skip_ws l' else l
  | [] => []
  end.

Definition is_hex (c : ascii) : bool :=
  let n := nat_of_ascii c in
  is_digit c || ((65 <=? n) && (n <=? 70))%nat || ((97 <=? n) && (n <=? 102))%nat.

(** The rest of the input after a string literal whose opening quote has
    been read. *)
Fixpoint json_string (l : list ascii) : option (list ascii) :=
  match l with
  | [] => None
  | "034" :: l' => Some l'
  | "\" :: "u" :: a :: b :: c :: d :: l' =>
      if is_hex a && is_hex b && is_hex c && is_hex d then json_string l' else None
  | "\" :: e :: l' =>
      match e with
      | "034" | "\" | "/" | "b" | "f" | "n" | "r" | "t" => json_string l'
      | _ => None
      end
  | c :: l' => if (nat_of_ascii c <? 32)%nat then None else json_string l'
  end.

Fixpoint skip_digits (l : list ascii) : list ascii :=
  match l with
  | c :: l' => if is_digit c then skip_digits l' else l
  | [] => []
  end.

(** At least one digit, then the rest. *)
Definition digits1 (l : list ascii) : option (list ascii) :=
  match l with
  | c :: l' => if is_digit c then Some (skip_digits l') else None
  | [] => None
  end.

Definition json_number (l : list ascii) : option (list ascii) :=
  let l := match l with "-" :: l' => l' | _ => l end in
  let int := match l with
             | "0" :: l' => Some l'
             | _ => digits1 l
             end in
  let frac := match int with
              | Some ("." :: l') => digits1 l'
              | r => r
              end in
  match frac with
  | Some ("e" :: l') | Some ("E" :: l') =>
      match l' with
      | "+" :: l'' | "-" :: l'' => digits1 l''
      | _ => digits1 l'
      end
  | r => r
  end.

(** A value, the members of an object after its opening brace, the
    elements of an array after its opening bracket; each returns the rest
    of the input. Every call reads a character before it recurses, so the
    length of the input is fuel enough. *)
Fixpoint json_value (fuel : nat) (l : list ascii) : option (list ascii) :=
  match fuel with
  | O => None
  | S fuel =>
      match skip_ws l with
      | "{" :: l1 =>
          match skip_ws l1 with
          | "}" :: l2 => Some l2
          | l2 => json_members fuel l2
          end
      | "[" :: l1 =>
          match skip_ws l1 with
          | "]" :: l2 => Some l2
          | l2 => json_elements fuel l2
          end
      | "034" :: l1 => json_string l1
      | "t" :: "r" :: "u" :: "e" :: l1 => Some l1
      | "f" :: "a" :: "l" :: "s" :: "e" :: l1 => Some l1
      | "n" :: "u" :: "l" :: "l" :: l1 => Some l1
      | l1 => match l1 with
              | c :: _ => if is_digit c || Ascii.eqb c "-" then json_number l1 else None
              | [] => None
              end
      end
  end
with json_members (fuel : nat) (l : list ascii) : option (list ascii) :=
  match fuel with
  | O => None
  | S fuel =>
      match skip_ws l with
      | "034" :: l1 =>
          match json_string l1 ≫= (fun l2 =>
                  match skip_ws l2 with
                  | ":" :: l3 => json_value fuel l3
                  | _ => None
                  end) with
          | Some l4 =>
              match skip_ws l4 with
              | "}" :: l5 => Some l5
              | "," :: l5 => json_members fuel l5
              | _ => None
              end
          | None => None
          end
      | _ => None
      end
  end
with json_elements (fuel : nat) (l : list ascii) : option (list ascii) :=
  match fuel with
  | O => None
  | S fuel =>
      match json_value fuel l with
      | Some l1 =>
          match skip_ws l1 with
          | "]" :: l2 => Some l2
          | "," :: l2 => json_elements fuel l2
          | _ => None
          end
      | None => None
      end
  end.

(** [json.Valid]: one value, white space around it, nothing else. *)
Definition Valid (b : list byte) : bool :=
  let l := map ascii_of_byte b in
  match json_value (S (length l)) l with
  | Some rest => match skip_ws rest with [] => true | _ => false end
  | None => false
  end.

Definition is_space (c : ascii) : bool :=
  match c with " " | "009" | "010" | "011" | "012" | "013" => true | _ => false end.

Fixpoint trim_left (s : string) : string :=
  match s with
  | String c s' => if is_space c then trim_left s' else s
  | EmptyString => EmptyString
  end.

(** [strings.TrimSpace] on ASCII text. *)
Definition TrimSpace (s : string) : string :=
  String.rev (trim_left (String.rev (trim_left s))).

(** The text before and after the last colon of [s]. *)
Fixpoint cut_last_colon (s : string) : option (string * string) :=
  match s with
  | EmptyString => None
  | String c s' =>
      match cut_last_colon s' with
      | Some (h, p) => Some (String c h, p)
      | None => if Ascii.eqb c ":" then Some (EmptyString, s') else None
      end
  end.

(** [net.SplitHostPort] on [host:port] and [[host]:port]. *)
Definition SplitHostPort (s : string) : option (string * string) :=
  match cut_last_colon s with
  | None => None
  | Some (h, p) =>
      if HasPrefix h "[" then
        if Ascii.eqb (default "000" (String.get (String.length h - 1) h)) "]"
        then Some (String.substring 1 (String.length h - 2) h, p)
        else None
      else if mem_char ":" h then None
      else Some (h, p)
  end.

Local Close Scope char_scope.

Definition bytes (s : string) : list byte := list_byte_of_string s.

(** A stand-in for the gzip format, which like it can expand its input:
    the two magic bytes, then runs made of a 32-bit little-endian count
    and the byte to repeat. *)
Definition magic (l : list byte) : bool :=
  match l with
  | x1f :: x8b :: _ => true
  | _ => false
  end.

Definition le32 (b0 b1 b2 b3 : byte) : N :=
  (Byte.to_N b0 + 256 * (Byte.to_N b1 + 256 * (Byte.to_N b2 + 256 * Byte.to_N b3)))%N.

Fixpoint runs (l : list byte) : option (list byte) :=
  match l with
  | [] => Some []
  | b0 :: b1 :: b2 :: b3 :: v :: l' =>
      (fun out => replicate (N.to_nat (le32 b0 b1 b2 b3)) v ++ out) <$> runs l'
  | _ => None
  end.

Definition inflate (l : list byte) : option (list byte) :=
  match l with
  | x1f :: x8b :: l' => runs l'
  | _ => None
  end.

(** A clock reading, the nondeterminism of a request, an empty disk, the
    world once the process has started, and a POST to the collection. *)
Definition t0 : Time :=
  {| year := 2025; month := 1; day := 2; hour := 3; minute := 4; second := 5;
     nanosecond := 6 |}.

Definition sched (c : bool) : Sched := {| now := t0; rnd := 42; coin := c |}.

Definition disk : OS :=
  {| files := ∅; denied := ∅; quota := None; open_files := 0 |}.

Definition σ0 : World := world (boot disk).

Definition post (hdr : list (string * string)) (body : list byte) (done : bool)
  : Request :=
  {| Method := "POST"; URLPath := "/v1/collection"; Header := hdr;
     RemoteAddr := "10.0.0.1:5000";
     Body := {| rd_bytes := body; rd_err := None |}; ctxDone := done |}.

(** The text [{"a":1}]. *)
Definition a1 : list byte := bytes ("{" +:+ dq +:+ "a" +:+ dq +:+ ":1}").

(** The steps of [main] up to the serving state. *)
Definition startup : list Label :=
  [LMkdir true; LSpawn; LSpawn; LSpawn; LSpawn; LLog; LSetReady; LListen true].

(** A stream of seven bytes that inflates to 10 MiB and one byte of
    zeros. *)
Definition bomb : list byte := [x1f; x8b; x01; x00; xa0; x00; x00].

#[export] Instance lib : GoLib := {|
  json_Valid := Valid;
  gzip_header := magic;
  gzip_inflate := inflate;
  strings_TrimSpace := TrimSpace;
  net_SplitHostPort := SplitHostPort;
|}.

End Demo.

(** ** Vocabulary of the statements *)

(** What [sanitizeIP] does to one byte. *)
Definition sanitize_byte (a : ascii) : ascii :=
  if Ascii.eqb a ":" || Ascii.eqb a "/" || Ascii.eqb a "\" then "_"%char else a.

(** The bytes a timestamp can hold. *)
Definition stamp_byte (a : ascii) : bool :=
  is_digit a || Ascii.eqb a "-" || Ascii.eqb a "_" || Ascii.eqb a ".".

(** The number of bytes of [p] the device accepts. *)
Definition accepts (o : OS) (p : list byte) : nat :=
  match quota o with
  | None => length p
  | Some q => Nat.min q (length p)
  end.

(** The file system after a file was created at [name] with the bytes of
    [p] the device accepts, and closed. *)
Definition stored (name : string) (p : list byte) (o : OS) : OS :=
  {| files := <[name := take (accepts o p) p]> (files o);
     denied := denied o;
     quota := (fun q => q - accepts o p) <$> quota o;
     open_files := open_files o |}.

(** What [writeToFile] does, in order, on a job for [name] with content
    [p]. *)
Definition write_trace (name : string) (p : list byte) (o : OS) : list Event :=
  if decide (name ∈ denied o) then
    [EvCreate name false; EvLog ("ERROR: Failed to create file " +:+ name)]
  else
    [EvCreate name true; EvPoolGet] ++
    (if accepts o p <? length p then
       [EvLog (if bufio.size <? length p
               then "ERROR: Failed to write to file " +:+ name
               else "ERROR: Failed to flush buffer for file " +:+ name)]
     else []) ++
    [EvPoolPut; EvClose name].

(** A handler returning with the writer and the world of [p]. *)
Definition returned (p : ResponseWriter * World) : Outcome := Returned p.1 p.2.

(** The world [σ] with the jobs [jobs] added to the queue and the events
    [evs] to the history. *)
Definition grown (σ : World) (jobs : list writeRequest) (evs : list Event) : World :=
  {| isReady := isReady σ; writeQueue := writeQueue σ ++ jobs;
     bufferPool := bufferPool σ; lent := lent σ; os := os σ;
     events := events σ ++ evs |}.

(** Log lines and responses. *)
Definition chatter (e : Event) : Prop :=
  match e with
  | EvLog _ | EvRespond _ => True
  | _ => False
  end.

(** The arguments of the calls of [setReady] in a history. *)
Fixpoint setReady_calls (evs : list Event) : list bool :=
  match evs with
  | [] => []
  | EvSetReady b :: evs' => b :: setReady_calls evs'
  | _ :: evs' => setReady_calls evs'
  end.

(** The upload directory exists and the worker pool is complete. *)
Definition started (Σ : Sys) : Prop :=
  In (EvMkdirAll uploadDir true) (events (world Σ)) /\ workers Σ = workerCount.

(** What holds of the readiness flag at each point of [main]. *)
Definition ready_inv (Σ : Sys) : Prop :=
  setReady_calls (events (world Σ)) = (if isReady (world Σ) then [true] else []) /\
  (isReady (world Σ) = true -> started Σ) /\
  match pc Σ with
  | PcMkdir => isReady (world Σ) = false /\ workers Σ = 0
  | PcSpawn i =>
      isReady (world Σ) = false /\ workers Σ = i /\ i <= workerCount /\
      In (EvMkdirAll uploadDir true) (events (world Σ))
  | PcSetReady => isReady (world Σ) = false /\ started Σ
  | PcListen | PcServing => isReady (world Σ) = true
  | PcExited => True
  end.

(** Nothing has been sent on [w] yet. *)
Definition unsent (w : ResponseWriter) : Prop := rw_status w = None.

(** A status of the client-error class. *)
Definition client_error (st : option N) : Prop :=
  exists c, st = Some c /\ (400 <= c < 500)%N.

Section Vocabulary.

Context `{GoLib}.

(** Lines 177 to 197 of [handlePost] on their own: the body of the
    request as the handler obtains it, or the message and the error it
    answers with. *)
Definition readBody (r : Request) : string * string + list byte :=
  let body := MaxBytesReader (Body r) maxBodySize in
  match (if String.eqb (Header_Get (Header r) "Content-Encoding") "gzip"
         then gzip_NewReader body else inr body) with
  | inl e => inl ("Invalid gzip data"%string, e)
  | inr reader =>
      match io_ReadAll reader with
      | inl e => inl ("Failed to read request body"%string, e)
      | inr b => inr b
      end
  end.

(** The payload a request carries: the bytes of its body, decompressed
    when the request is marked as gzip. *)
Definition payload (r : Request) : option (list byte) :=
  if String.eqb (Header_Get (Header r) "Content-Encoding") "gzip"
  then gzip_inflate (rd_bytes (Body r))
  else Some (rd_bytes (Body r)).

(** The address a request is filed under: the first entry of the
    forwarded-for header, trimmed, when the header has a value, else the
    host of the peer address (empty when there is none); sanitized; the
    placeholder when nothing is left. *)
Definition clientAddress (r : Request) : string :=
  let forwarded := Header_Get (Header r) "X-Forwarded-For" in
  let raw :=
    if decide (forwarded = EmptyString) then
      match net_SplitHostPort (RemoteAddr r) with
      | Some (host, _) => host
      | None => EmptyString
      end
    else strings_TrimSpace (hd EmptyString (Split forwarded ",")) in
  if decide (sanitizeIP raw = EmptyString) then "unknown"%string
  else sanitizeIP raw.

(** The name of the file a request with payload [P] is stored under. *)
Definition fileName (s : Sched) (r : Request) (P : list byte) : string :=
  clientAddress r +:+ "-" +:+ Format (now s) +:+ "-" +:+ Itoa (rnd s) +:+
  (if json_Valid P then ".json" else ".txt").

(** The job [handlePost] builds for a request with payload [P]. *)
Definition jobOf (s : Sched) (r : Request) (P : list byte) : writeRequest :=
  {| data := P; path := ("uploads/" +:+ fileName s r P)%string |}.

(** The response of [handlePost] on admission. *)
Definition accepted (w : ResponseWriter) (isJSON : bool) : ResponseWriter :=
  let w := WriteHeader StatusAccepted w in
  if isJSON then rw_Write ("JSON stored" +:+ nl) w
  else rw_Write ("Invalid JSON " +:+ emdash +:+ " stored as .txt" +:+ nl) w.

(** The ways a call of [handlePost] can end. *)
Inductive post_result (s : Sched) (w : ResponseWriter) (r : Request) (σ : World)
  : Outcome -> Prop :=
| post_method :
    Method r <> MethodPost ->
    post_result s w r σ
      (returned (respondWithError w StatusMethodNotAllowed "Only POST allowed" None σ))
| post_unread m e :
    Method r = MethodPost ->
    readBody r = inl (m, e) ->
    post_result s w r σ
      (returned (respondWithError w StatusBadRequest m (Some e) σ))
| post_parked P :
    Method r = MethodPost ->
    readBody r = inr P ->
    writeQueueCap <= length (writeQueue σ) ->
    ctxDone r = false ->
    post_result s w r σ Parked
| post_cancelled P :
    Method r = MethodPost ->
    readBody r = inr P ->
    ctxDone r = true ->
    post_result s w r σ
      (returned (respondWithError w StatusRequestTimeout "Request cancelled"
                   (Some "context canceled"%string) σ))
| post_admitted P :
    Method r = MethodPost ->
    readBody r = inr P ->
    length (writeQueue σ) < writeQueueCap ->
    post_result s w r σ
      (Returned (accepted w (json_Valid P))
                (set_writeQueue (writeQueue σ ++ [jobOf s r P]) σ)).

(** What a handler may do: it never panics, and when it returns the world
    has only grown by log lines and, when the answer is 202, by the one job
    of the request, for which there was room in the queue. *)
Definition tame (h : Handler) : Prop :=
  forall s w r σ, unsent w ->
    match h s w r σ with
    | Returned w' σ' =>
        exists jobs evs,
          σ' = grown σ jobs evs /\ Forall chatter evs /\
          (jobs = [] \/
           (rw_status w' = Some StatusAccepted /\
            length (writeQueue σ) < writeQueueCap /\
            exists P, readBody r = inr P /\ jobs = [jobOf s r P])) /\
          (client_error (rw_status w') -> jobs = [])
    | Parked => True
    | Panicked _ _ => False
    end.

End Vocabulary.

(** ** The answers of the server *)

(** The writer the mux receives from [withCORS]: a fresh one with the
    three CORS headers set. *)
Definition corsWriter : ResponseWriter :=
  Header_Set "Access-Control-Allow-Headers" "Content-Type, Authorization"
    (Header_Set "Access-Control-Allow-Methods" "GET, POST, OPTIONS"
       (Header_Set "Access-Control-Allow-Origin" "*" newResponseWriter)).

(** The answer of [handleSubmit] to GET. *)
Definition alive (w : ResponseWriter) : ResponseWriter :=
  rw_Write ("{" +:+ dq +:+ "status" +:+ dq +:+ ":" +:+ dq +:+
            "API is alive" +:+ dq +:+ "}")
    (WriteHeader StatusOK (Header_Set "Content-Type" "application/json" w)).

(** The answer of [handleHealth]. *)
Definition healthy (w : ResponseWriter) : ResponseWriter :=
  rw_Write ("OK" +:+ nl) (WriteHeader StatusOK w).

(** The answer of [handleReady] for a value of the flag. *)
Definition readiness (ready : bool) (w : ResponseWriter) : ResponseWriter :=
  if ready then rw_Write ("READY" +:+ nl) (WriteHeader StatusOK w)
  else rw_Write ("NOT READY" +:+ nl) (WriteHeader StatusServiceUnavailable w).

(** The line [respondWithError] logs. *)
Definition error_line (message : string) (err : option string) : string :=
  "ERROR: " +:+ match err with
                | Some e => message +:+ " - " +:+ e
                | None => message
                end.

(** The writer [respondWithError] leaves. *)
Definition refusal (w : ResponseWriter) (statusCode : N) (message : string)
  : ResponseWriter :=
  rw_Write (encode_error message)
    (WriteHeader statusCode (Header_Set "Content-Type" "application/json" w)).

Section Answers.

Context `{GoLib}.

(** Every way the handler chain of the server can return on a request:
    the writer it leaves, the jobs it has queued and the events it has
    added before the access log line. *)
Inductive served (s : Sched) (r : Request) (σ : World)
  : ResponseWriter -> list writeRequest -> list Event -> Prop :=
| served_options :
    Method r = MethodOptions ->
    served s r σ (WriteHeader StatusNoContent corsWriter) [] []
| served_redirect :
    Method r <> MethodOptions ->
    Method r <> "CONNECT"%string ->
    cleanPath (URLPath r) <> URLPath r ->
    served s r σ (http_Redirect corsWriter (cleanPath (URLPath r)) 301) [] []
| served_notfound :
    Method r <> MethodOptions ->
    routed r RouteNone ->
    served s r σ (http_Error corsWriter "404 page not found" StatusNotFound) [] []
| served_health :
    Method r <> MethodOptions ->
    routed r RouteHealth ->
    served s r σ (healthy corsWriter) [] []
| served_ready :
    Method r <> MethodOptions ->
    routed r RouteReady ->
    served s r σ (readiness (isReady σ) corsWriter) [] []
| served_alive :
    routed r RouteCollection ->
    Method r = MethodGet ->
    served s r σ (alive corsWriter) [] []
| served_method :
    routed r RouteCollection ->
    Method r <> MethodOptions -> Method r <> MethodGet -> Method r <> MethodPost ->
    served s r σ
      (refusal corsWriter StatusMethodNotAllowed "Only GET and POST allowed") []
      [EvLog (error_line "Only GET and POST allowed" None)]
| served_unread m e :
    routed r RouteCollection ->
    Method r = MethodPost ->
    readBody r = inl (m, e) ->
    served s r σ (refusal corsWriter StatusBadRequest m) []
      [EvLog (error_line m (Some e))]
| served_cancelled P :
    routed r RouteCollection ->
    Method r = MethodPost ->
    readBody r = inr P ->
    ctxDone r = true ->
    served s r σ (refusal corsWriter StatusRequestTimeout "Request cancelled") []
      [EvLog (error_line "Request cancelled" (Some "context canceled"%string))]
| served_queued P :
    routed r RouteCollection ->
    Method r = MethodPost ->
    readBody r = inr P ->
    length (writeQueue σ) < writeQueueCap ->
    served s r σ (accepted corsWriter (json_Valid P)) [jobOf s r P] [].

(** The access log line of [withLogging]. *)
Definition access_line (r : Request) : string := Method r +:+ " " +:+ URLPath r.

End Answers.

(** A request with an empty body, for the examples. *)
Definition bare (method url : string) : Request :=
  {| Method := method; URLPath := url; Header := [];
     RemoteAddr := "10.0.0.1:5000";
     Body := {| rd_bytes := []; rd_err := None |}; ctxDone := false |}.

(** ** Following the jobs through a run *)

(** The number of responses with status 202 in a history. *)
Fixpoint accepted_count (evs : list Event) : nat :=
  match evs with
  | [] => 0
  | EvRespond (Some c) :: evs' =>
      (if (c =? StatusAccepted)%N then 1 else 0) + accepted_count evs'
  | _ :: evs' => accepted_count evs'
  end.

(** The jobs a step has put in the queue: what a request step has added
    at its end. *)
Definition sent_by (l : Label) (Σ Σ' : Sys) : list writeRequest :=
  match l with
  | LRequest _ _ => drop (length (writeQueue (world Σ))) (writeQueue (world Σ'))
  | _ => []
  end.

(** The job a step has taken out of the queue: the oldest one, for a
    worker receiving. *)
Definition received_by (l : Label) (Σ : Sys) : list writeRequest :=
  match l with
  | LReceive => take 1 (writeQueue (world Σ))
  | _ => []
  end.

Section Ledger.

Context `{GoLib}.

(** Running a list of labels while keeping, in order, the jobs sent to
    the queue and the jobs received from it. *)
Fixpoint ledger (ls : list Label) (Σ : Sys)
  : option (Sys * list writeRequest * list writeRequest) :=
  match ls with
  | [] => Some (Σ, [], [])
  | l :: ls' =>
      match step_fn l Σ with
      | None => None
      | Some Σ1 =>
          match ledger ls' Σ1 with
          | None => None
          | Some (Σ', sent, recv) =>
              Some (Σ', sent_by l Σ Σ1 ++ sent, received_by l Σ ++ recv)
          end
      end
  end.

End Ledger.

(** What holds of the worker pool at each point of [main]. *)
Definition pool_inv (Σ : Sys) : Prop :=
  length (busy Σ) <= workers Σ /\
  match pc Σ with
  | PcMkdir => workers Σ = 0
  | PcSpawn i => workers Σ = i /\ i <= workerCount
  | PcExited => workers Σ <= workerCount
  | _ => workers Σ = workerCount
  end.

(** ** The healthCheck tool *)

Module HealthCheck.

(** The package-level variables the flags are parsed into; the timeout
    only bounds the wait of the HTTP client. *)
Record Flags := {
  host : string;
  port : Z;
  useSSL : bool;
  checkType : string;
}.

(** The values of the flags when none is given. *)
Definition defaults : Flags :=
  {| host := "localhost"; port := 8080; useSSL := false; checkType := "health" |}.

(** The verb [%d] on an [int]. *)
Definition Itoa (n : Z) : string := NilZero.string_of_int (Z.to_int n).

(** [genURL]: builds the URL for a health or readiness check. *)
Definition genURL (f : Flags) (checkType : string) : string :=
  let scheme := if useSSL f then "https"%string else "http"%string in
  let path := if String.eqb checkType "readiness" then "/v1/readiness"%string
              else "/v1/health"%string in
  scheme +:+ "://" +:+ host f +:+ ":" +:+ Itoa (port f) +:+ path.

(** [check]: performs a GET request against the given URL and returns
    true if 200 OK. [get] is the HTTP client: the status of the response,
    or [None] when the request fails. The second component is what is
    printed on standard error, the first line without the error text
    that ends it. *)
Definition check (get : string -> option N) (url : string) : bool * list string :=
  match get url with
  | None => (false, ["Error connecting to " +:+ url]%string)
  | Some status =>
      if negb (status =? StatusOK)%N
      then (false, ["Check failed for " +:+ url +:+ ": status " +:+
                    Itoa (Z.of_N status)]%string)
      else (true, [])
  end.

(** [main] after [flag.Parse()]: the exit status and what was printed. *)
Definition main (f : Flags) (get : string -> option N) : Z * list string :=
  let url := genURL f (checkType f) in
  let '(ok, printed) := check get url in
  if negb ok then (1%Z, printed)
  else (0%Z, printed ++ [checkType f +:+ " check succeeded for " +:+ url]%string).

End HealthCheck.

(** ** Earlier revisions of the server *)

(** [json.Unmarshal(body, &js)] for [js] of type
    [map[string]interface{}]: whether the error is nil. *)
Class GoJSON := { json_Unmarshal_map : list byte -> bool }.

(** [t.Format("2006-01-02-15_04_05")]. *)
Definition Format_seconds (t : Time) : string :=
  appendInt (year t) 4 +:+ "-" +:+ appendInt (month t) 2 +:+ "-" +:+
  appendInt (day t) 2 +:+ "-" +:+ appendInt (hour t) 2 +:+ "_" +:+
  appendInt (minute t) 2 +:+ "_" +:+ appendInt (second t) 2.

(** What a handler of these revisions leaves: the response, the world,
    and the arguments of the goroutine its [go] statement started, if it
    reached it. The lines of [fmt.Printf] and [fmt.Println] are recorded
    as [EvLog] events, without the error text that ends them. *)
Definition Submitted : Type := ResponseWriter * World * option writeRequest.

(** The revision that refuses a request whose address it cannot tell. *)
Module Part002.

(** The function literal of the [go] statement of [handleSubmit]. The
    result of [buf.Flush()] is dropped. *)
Definition store (data : list byte) (path : string) (σ : World) : World :=
  let '(f, o) := os_Create path (os σ) in
  match f with
  | None =>
      log_Print "Failed to create file" (emit (EvCreate path false) (set_os o σ))
  | Some f =>
      let σ := emit (EvCreate path true) (set_os o σ) in
      let deferred_Close σ := emit (EvClose path) (set_os (file_Close f (os σ)) σ) in
      let '(buf, σ) := bufferPool_Get σ in
      let buf := bufio.Reset buf f in
      let deferred_Put buf σ := bufferPool_Put buf σ in
      let '(failed, buf, o) := bufio.Write buf data (os σ) in
      let σ := set_os o σ in
      if failed then
        let σ := log_Print "Failed to write file" σ in
        deferred_Close (deferred_Put buf σ)
      else
        let '(_, buf, o) := bufio.Flush buf (os σ) in
        let σ := set_os o σ in
        deferred_Close (deferred_Put buf σ)
  end.

Section Revision.

Context `{GoLib} `{GoJSON}.

(** [handleSubmit]. *)
Definition handleSubmit (now : Time) (w : ResponseWriter) (r : Request)
    (σ : World) : Submitted :=
  if negb (String.eqb (Method r) MethodPost) then
    (http_Error w "Only POST allowed" StatusMethodNotAllowed, σ, None)
  else
    match io_ReadAll (Body r) with
    | inl _ => (http_Error w "Failed to read body" StatusBadRequest, σ, None)
    | inr body =>
        if negb (json_Unmarshal_map body) then
          (http_Error w "Invalid JSON" StatusBadRequest, σ, None)
        else
          let ip := getClientIP r in
          if String.eqb ip "" then
            (http_Error w "Could not determine client IP"
               StatusInternalServerError, σ, None)
          else
            let timestamp := Format_seconds now in
            let filename := ip +:+ "-" +:+ timestamp +:+ ".json" in
            let filepath := filepath.Join [uploadDir; filename] in
            let w := WriteHeader StatusAccepted w in
            let w := rw_Write ("JSON stored" +:+ nl) w in
            (w, σ, Some {| data := body; path := filepath |})
    end.

End Revision.

End Part002.

(** The revision that files such a request under [127.0.0.1]. *)
Module Part001.

(** The function literal of the [go] statement of [handleSubmit]. The
    result of [buf.Flush()] is dropped. *)
Definition store (data : list byte) (path : string) (σ : World) : World :=
  let '(f, o) := os_Create path (os σ) in
  match f with
  | None =>
      log_Print "Failed to create file" (emit (EvCreate path false) (set_os o σ))
  | Some f =>
      let σ := emit (EvCreate path true) (set_os o σ) in
      let deferred_Close σ := emit (EvClose path) (set_os (file_Close f (os σ)) σ) in
      let '(buf, σ) := bufferPool_Get σ in
      let buf := bufio.Reset buf f in
      let deferred_Put buf σ := bufferPool_Put buf σ in
      let '(failed, buf, o) := bufio.Write buf data (os σ) in
      let σ := set_os o σ in
      if failed then
        let σ := log_Print "Failed to write file" σ in
        deferred_Close (deferred_Put buf σ)
      else
        let '(_, buf, o) := bufio.Flush buf (os σ) in
        let σ := set_os o σ in
        deferred_Close (deferred_Put buf σ)
  end.

(** [respondWithError]. *)
Definition respondWithError (w : ResponseWriter) (statusCode : N)
    (message : string) (err : option string) (σ : World)
  : ResponseWriter * World :=
  let logMsg := match err with
                | Some e => message +:+ " - " +:+ e
                | None => message
                end in
  let σ := log_Print ("ERROR: " +:+ logMsg) σ in
  (http_Error w message statusCode, σ).

Section Revision.

Context `{GoLib} `{GoJSON}.

(** [handleSubmit]. The error of [json.Unmarshal] is not modelled: the
    line of the refusal is given without it. *)
Definition handleSubmit (now : Time) (w : ResponseWriter) (r : Request)
    (σ : World) : Submitted :=
  if negb (String.eqb (Method r) MethodPost) then
    let '(w, σ) := respondWithError w StatusMethodNotAllowed "Only POST allowed" None σ in
    (w, σ, None)
  else
    match io_ReadAll (Body r) with
    | inl e =>
        let '(w, σ) := respondWithError w StatusBadRequest
                         "Failed to read request body" (Some e) σ in
        (w, σ, None)
    | inr body =>
        if negb (json_Unmarshal_map body) then
          let '(w, σ) := respondWithError w StatusBadRequest "Invalid JSON"
                           (Some EmptyString) σ in
          (w, σ, None)
        else
          let ip := getClientIP r in
          let ip := if String.eqb ip "" then "127.0.0.1"%string else ip in
          let timestamp := Format_seconds now in
          let filename := ip +:+ "-" +:+ timestamp +:+ ".json" in
          let filepath := filepath.Join [uploadDir; filename] in
          let w := WriteHeader StatusAccepted w in
          let w := rw_Write ("JSON stored" +:+ nl) w in
          (w, σ, Some {| data := body; path := filepath |})
    end.

End Revision.

End Part001.

(** The revision that stores what is not JSON as a [.txt] file. *)
Module Part000.

(** The function literal of the [go] statement of [handleSubmit]. *)
Definition store (data : list byte) (path : string) (σ : World) : World :=
  let '(f, o) := os_Create path (os σ) in
  match f with
  | None =>
      log_Print ("ERROR: Failed to create file " +:+ path)
        (emit (EvCreate path false) (set_os o σ))
  | Some f =>
      let σ := emit (EvCreate path true) (set_os o σ) in
      let deferred_Close σ := emit (EvClose path) (set_os (file_Close f (os σ)) σ) in
      let '(buf, σ) := bufferPool_Get σ in
      let buf := bufio.Reset buf f in
      let deferred_Put buf σ := bufferPool_Put buf σ in
      let '(failed, buf, o) := bufio.Write buf data (os σ) in
      let σ := set_os o σ in
      if failed then
        let σ := log_Print ("ERROR: Failed to write to file " +:+ path) σ in
        deferred_Close (deferred_Put buf σ)
      else
        let '(failed, buf, o) := bufio.Flush buf (os σ) in
        let σ := set_os o σ in
        let σ := if failed
                 then log_Print ("ERROR: Failed to flush buffer for file " +:+ path) σ
                 else σ in
        deferred_Close (deferred_Put buf σ)
  end.

(** [respondWithError]. *)
Definition respondWithError (w : ResponseWriter) (statusCode : N)
    (message : string) (err : option string) (σ : World)
  : ResponseWriter * World :=
  let logMsg := match err with
                | Some e => message +:+ " - " +:+ e
                | None => message
                end in
  let σ := log_Print ("ERROR: " +:+ logMsg) σ in
  let w := Header_Set "Content-Type" "application/json" w in
  let w := WriteHeader statusCode w in
  let w := rw_Write (encode_error message) w in
  (w, σ).

Section Revision.

Context `{GoLib} `{GoJSON}.

(** [handleSubmit]. Writing the response does not fail here, so the last
    [respondWithError] is not reached. *)
Definition handleSubmit (now : Time) (w : ResponseWriter) (r : Request)
    (σ : World) : Submitted :=
  if negb (String.eqb (Method r) MethodPost) then
    let '(w, σ) := respondWithError w StatusMethodNotAllowed "Only POST allowed" None σ in
    (w, σ, None)
  else
    match io_ReadAll (Body r) with
    | inl e =>
        let '(w, σ) := respondWithError w StatusBadRequest
                         "Failed to read request body" (Some e) σ in
        (w, σ, None)
    | inr body =>
        let ip := getClientIP r in
        let ip := if String.eqb ip "" then "127.0.0.1"%string else ip in
        let timestamp := Format now in
        let isJSON := json_Unmarshal_map body in
        let ext := if negb isJSON then ".txt"%string else ".json"%string in
        let filename := ip +:+ "-" +:+ timestamp +:+ ext in
        let filepath := filepath.Join [uploadDir; filename] in
        let w := WriteHeader StatusAccepted w in
        let w := if isJSON
                 then rw_Write ("JSON stored" +:+ nl) w
                 else rw_Write ("Invalid JSON " +:+ emdash +:+ " stored as .txt" +:+ nl) w in
        (w, σ, Some {| data := body; path := filepath |})
    end.

End Revision.

End Part000.

(** An instance for the examples: a JSON text that is an object, or
    [null]. *)
Definition object_or_null (b : list byte) : bool :=
  Demo.Valid b &&
  match Demo.TrimSpace (string_of_list_byte b) with
  | String "{" _ => true
  | s => String.eqb s "null"
  end.

#[export] Instance demo_json : GoJSON := {| json_Unmarshal_map := object_or_null |}.

(** * Properties *)

(** ** Strings, file names and paths *)

Section StringFacts.

Lemma mem_char_app c a b :
  mem_char c (a +:+ b) = mem_char c a || mem_char c b.
Proof.
  induction a as [|x a IH]; simpl; [reflexivity|].
  rewrite IH. apply orb_assoc.
Qed.

Lemma all_chars_app P a b :
  all_chars P (a +:+ b) = all_chars P a && all_chars P b.
Proof.
  induction a as [|x a IH]; simpl; [reflexivity|].
  rewrite IH. apply andb_assoc.
Qed.

Lemma all_chars_mem P c s :
  all_chars P s = true -> P c = false -> mem_char c s = false.
Proof.
  induction s as [|x s IH]; simpl; [reflexivity|].
  intros [Hx Hs]%andb_prop Hc.
  destruct (Ascii.eqb_spec x c) as [->|_]; [congruence|].
  simpl. apply IH; assumption.
Qed.

(** After [ReplaceAll s old new] no byte [old] is left. *)
Lemma ReplaceAll_removes s old new :
  old <> new -> mem_char old (ReplaceAll s old new) = false.
Proof.
  intros Hne. induction s as [|x s IH]; simpl; [reflexivity|].
  rewrite IH, orb_false_r.
  destruct (Ascii.eqb_spec x old) as [->|Hx].
  - apply Ascii.eqb_neq. congruence.
  - apply Ascii.eqb_neq. assumption.
Qed.

(** [ReplaceAll] introduces no byte other than [new]. *)
Lemma ReplaceAll_keeps_absent s old new c :
  c <> new -> mem_char c s = false -> mem_char c (ReplaceAll s old new) = false.
Proof.
  intros Hne. induction s as [|x s IH]; simpl; [reflexivity|].
  intros [Hx Hs]%orb_false_elim. rewrite (IH Hs), orb_false_r.
  destruct (Ascii.eqb x old); [|assumption].
  apply Ascii.eqb_neq. congruence.
Qed.

Lemma ReplaceAll_length s old new :
  String.length (ReplaceAll s old new) = String.length s.
Proof. induction s as [|x s IH]; simpl; congruence. Qed.

(** Byte by byte: [ReplaceAll] changes the bytes equal to [old], and only
    them. *)
Lemma ReplaceAll_get s old new i :
  String.get i (ReplaceAll s old new) =
  (fun a => if Ascii.eqb a old then new else a) <$> String.get i s.
Proof.
  revert i. induction s as [|x s IH]; intros i; simpl; [reflexivity|].
  destruct i; simpl; [reflexivity|apply IH].
Qed.

Lemma sanitizeIP_get ip i :
  String.get i (sanitizeIP ip) = sanitize_byte <$> String.get i ip.
Proof.
  unfold sanitizeIP. rewrite !ReplaceAll_get.
  destruct (String.get i ip) as [a|]; simpl; [|reflexivity].
  f_equal. unfold sanitize_byte.
  destruct (Ascii.eqb_spec a ":") as [->|H1]; [reflexivity|].
  destruct (Ascii.eqb_spec a "/") as [->|H2]; [reflexivity|].
  destruct (Ascii.eqb_spec a "\") as [->|H3]; reflexivity.
Qed.

Lemma sanitizeIP_length ip : String.length (sanitizeIP ip) = String.length ip.
Proof. unfold sanitizeIP. rewrite !ReplaceAll_length. reflexivity. Qed.

Lemma sanitizeIP_safe ip :
  mem_char ":" (sanitizeIP ip) = false /\
  mem_char "/" (sanitizeIP ip) = false /\
  mem_char "\" (sanitizeIP ip) = false.
Proof.
  unfold sanitizeIP. repeat split.
  - do 2 (apply ReplaceAll_keeps_absent; [discriminate|]).
    apply ReplaceAll_removes. discriminate.
  - apply ReplaceAll_keeps_absent; [discriminate|].
    apply ReplaceAll_removes. discriminate.
  - apply ReplaceAll_removes. discriminate.
Qed.

Lemma string_of_uint_digits d :
  all_chars is_digit (NilEmpty.string_of_uint d) = true.
Proof. induction d; simpl; try assumption; reflexivity. Qed.

Lemma Itoa_digits n : all_chars is_digit (Itoa n) = true.
Proof.
  unfold Itoa, NilZero.string_of_uint.
  destruct (N.to_uint n) eqn:E; try reflexivity;
    rewrite <- E; apply string_of_uint_digits.
Qed.

Lemma zeros_digits k : all_chars is_digit (zeros k) = true.
Proof. induction k; simpl; auto. Qed.

Lemma appendInt_digits x w : all_chars is_digit (appendInt x w) = true.
Proof.
  unfold appendInt. rewrite all_chars_app, zeros_digits, Itoa_digits. reflexivity.
Qed.

Lemma digits_stamp s : all_chars is_digit s = true -> all_chars stamp_byte s = true.
Proof.
  induction s as [|x s IH]; simpl; [reflexivity|].
  intros [Hx Hs]%andb_prop. rewrite (IH Hs). unfold stamp_byte. rewrite Hx. reflexivity.
Qed.

Lemma Format_stamp t : all_chars stamp_byte (Format t) = true.
Proof.
  unfold Format. rewrite !all_chars_app.
  rewrite !(digits_stamp _ (appendInt_digits _ _)). reflexivity.
Qed.

End StringFacts.

Section PathFacts.

Lemma Split_nonempty s sep : Split s sep <> [].
Proof.
  induction s as [|a s IH]; simpl; [discriminate|].
  destruct (Split s sep); [contradiction|].
  destruct (Ascii.eqb a sep); discriminate.
Qed.

Lemma Split_absent s sep : mem_char sep s = false -> Split s sep = [s].
Proof.
  induction s as [|a s IH]; simpl; [reflexivity|].
  intros [Ha Hs]%orb_false_elim. rewrite (IH Hs), Ha. reflexivity.
Qed.

Lemma Split_cons_sep s sep : Split (String sep s) sep = EmptyString :: Split s sep.
Proof.
  simpl. destruct (Split s sep) eqn:E; [exfalso; exact (Split_nonempty _ _ E)|].
  rewrite Ascii.eqb_refl. reflexivity.
Qed.

(** The first element of [Split] is the text before the first separator. *)
Lemma Split_cons a s sep :
  Split (String a s) sep =
  match Split s sep with
  | [] => [String a EmptyString]
  | part :: rest =>
      if Ascii.eqb a sep then EmptyString :: part :: rest
      else String a part :: rest
  end.
Proof. reflexivity. Qed.

Lemma Split_prefix p s sep :
  mem_char sep p = false ->
  Split (p +:+ String sep s) sep = p :: Split s sep.
Proof.
  induction p as [|a p IH].
  - intros _. apply Split_cons_sep.
  - simpl mem_char. intros [Ha Hp]%orb_false_elim.
    change (String a p +:+ String sep s) with (String a (p +:+ String sep s)).
    rewrite Split_cons, (IH Hp), Ha. reflexivity.
Qed.

(** [parts[0]] of [strings.Split(s, sep)]: a prefix of [s] free of [sep],
    followed in [s] by nothing or by a separator. *)
Lemma Split_first s sep :
  exists rest,
    mem_char sep (hd EmptyString (Split s sep)) = false /\
    (s = hd EmptyString (Split s sep) \/
     s = hd EmptyString (Split s sep) +:+ String sep rest).
Proof.
  induction s as [|a s [rest [Hm Hs]]].
  - exists EmptyString. simpl. auto.
  - simpl. destruct (Split s sep) as [|part tl] eqn:E;
      [exfalso; exact (Split_nonempty _ _ E)|].
    simpl in Hm, Hs.
    destruct (Ascii.eqb_spec a sep) as [->|Hne].
    + exists s. simpl. auto.
    + exists rest. simpl. split.
      * rewrite Hm, orb_false_r. apply Ascii.eqb_neq. assumption.
      * destruct Hs as [Hs|Hs]; [left|right]; rewrite Hs at 1; reflexivity.
Qed.

Lemma eqb_false_of_mem c s t :
  mem_char c s = true -> mem_char c t = false -> String.eqb s t = false.
Proof.
  intros Hs Ht. apply String.eqb_neq. intros ->. congruence.
Qed.

(** Joining the upload directory with a plain name gives the entry of
    that name in the directory. *)
Lemma Join_uploadDir name :
  mem_char "/" name = false ->
  mem_char "-" name = true ->
  filepath.Join [uploadDir; name] = ("uploads/" +:+ name)%string.
Proof.
  intros Hslash Hdash.
  assert (Hne : String.eqb name "" = false)
    by (eapply eqb_false_of_mem; [eassumption|reflexivity]).
  assert (Hdot : String.eqb name "." = false)
    by (eapply eqb_false_of_mem; [eassumption|reflexivity]).
  assert (Hdd : String.eqb name ".." = false)
    by (eapply eqb_false_of_mem; [eassumption|reflexivity]).
  unfold filepath.Join, uploadDir. simpl List.filter. rewrite Hne. simpl negb.
  cbv iota beta.
  unfold filepath.Clean.
  change (GoString.Join ["./uploads"%string; name] "/")
    with ("." +:+ String "/" ("uploads" +:+ String "/" name))%string.
  rewrite !Split_prefix by reflexivity.
  rewrite (Split_absent _ _ Hslash).
  change (HasPrefix ("." +:+ String "/" ("uploads" +:+ String "/" name)) "/")
    with false.
  assert (Hfold : fold_left (filepath.clean_step false)
                    ["."%string; "uploads"%string; name] []
                  = [name; "uploads"%string]).
  { simpl fold_left.
    change (filepath.clean_step false (filepath.clean_step false [] ".") "uploads")
      with ["uploads"%string].
    unfold filepath.clean_step. rewrite Hne, Hdot, Hdd. reflexivity. }
  rewrite Hfold. reflexivity.
Qed.

End PathFacts.

(** ** Responses *)

Section ResponseFacts.

Lemma Header_Set_status k v w : rw_status (Header_Set k v w) = rw_status w.
Proof. unfold Header_Set. destruct (rw_status w) eqn:E; simpl; congruence. Qed.

Lemma WriteHeader_unsent c w : unsent w -> rw_status (WriteHeader c w) = Some c.
Proof. unfold unsent, WriteHeader. intros ->. reflexivity. Qed.

Lemma WriteHeader_sent c w st :
  rw_status w = Some st -> WriteHeader c w = w.
Proof. unfold WriteHeader. intros ->. reflexivity. Qed.

Lemma rw_Write_status b w c :
  rw_status w = Some c -> rw_status (rw_Write b w) = Some c.
Proof. intros Hw. unfold rw_Write. rewrite (WriteHeader_sent _ _ _ Hw). exact Hw. Qed.

Lemma respondWithError_status w c m e σ :
  unsent w -> rw_status (respondWithError w c m e σ).1 = Some c.
Proof.
  intros Hw. unfold respondWithError. cbv zeta. unfold fst.
  apply rw_Write_status. apply WriteHeader_unsent.
  unfold unsent. rewrite Header_Set_status. exact Hw.
Qed.

(** [respondWithError] only adds a line to the log. *)
Lemma respondWithError_world w c m e σ :
  exists line, (respondWithError w c m e σ).2 = log_Print line σ.
Proof. unfold respondWithError. simpl. eexists. reflexivity. Qed.

Lemma accepted_status w b : unsent w -> rw_status (accepted w b) = Some StatusAccepted.
Proof.
  intros Hw. unfold accepted.
  destruct b; apply rw_Write_status; apply WriteHeader_unsent; exact Hw.
Qed.

End ResponseFacts.

(** ** [handlePost] case by case *)

Section HandlePost.

Context `{GoLib}.

Lemma clientAddress_code r :
  (let ip := sanitizeIP (getClientIP r) in
   if String.eqb ip "" then "unknown"%string else ip) = clientAddress r.
Proof.
  unfold clientAddress, getClientIP. cbv zeta.
  destruct (decide (Header_Get (Header r) "X-Forwarded-For" = EmptyString)) as [E|E].
  - rewrite E. simpl negb. cbv iota.
    destruct (net_SplitHostPort (RemoteAddr r)) as [[host port]|];
      match goal with
      | |- context [decide (?a = ?b)] =>
          destruct (decide (a = b)) as [E'|E'];
          [rewrite E'; reflexivity
          |apply String.eqb_neq in E'; rewrite E'; reflexivity]
      end.
  - apply String.eqb_neq in E. rewrite E. simpl negb. cbv iota.
    match goal with
    | |- context [decide (?a = ?b)] =>
        destruct (decide (a = b)) as [E'|E'];
        [rewrite E'; reflexivity
        |apply String.eqb_neq in E'; rewrite E'; reflexivity]
    end.
Qed.

Lemma clientAddress_safe r :
  mem_char ":" (clientAddress r) = false /\
  mem_char "/" (clientAddress r) = false /\
  mem_char "\" (clientAddress r) = false.
Proof.
  unfold clientAddress. cbv zeta.
  match goal with
  | |- context [decide (?a = ?b)] => destruct (decide (a = b))
  end.
  - repeat split; reflexivity.
  - apply sanitizeIP_safe.
Qed.

Lemma stamp_no_sep s c :
  all_chars stamp_byte s = true -> stamp_byte c = false -> mem_char c s = false.
Proof. apply all_chars_mem. Qed.

(** A file name holds no path separator, and it holds a dash. *)
Lemma fileName_plain s r P :
  mem_char "/" (fileName s r P) = false /\
  mem_char "\" (fileName s r P) = false /\
  mem_char ":" (fileName s r P) = false /\
  mem_char "-" (fileName s r P) = true.
Proof.
  destruct (clientAddress_safe r) as (Hc & Hs & Hb).
  unfold fileName. rewrite !mem_char_app, Hc, Hs, Hb.
  rewrite !(stamp_no_sep _ _ (Format_stamp (now s))) by reflexivity.
  rewrite !(all_chars_mem _ _ _ (Itoa_digits (rnd s))) by reflexivity.
  destruct (json_Valid P); repeat split; try reflexivity;
    simpl; rewrite ?orb_true_r; reflexivity.
Qed.

Lemma fullPath_code s r P :
  filepath.Join [uploadDir; fileName s r P] = ("uploads/" +:+ fileName s r P)%string.
Proof.
  destruct (fileName_plain s r P) as (Hs & _ & _ & Hd).
  apply Join_uploadDir; assumption.
Qed.

(** [handlePost], with its reading of the body and its result named. *)
Lemma handlePost_unfold s w r σ :
  handlePost s w r σ =
  if negb (String.eqb (Method r) MethodPost) then
    returned (respondWithError w StatusMethodNotAllowed "Only POST allowed" None σ)
  else
    match readBody r with
    | inl (m, e) => returned (respondWithError w StatusBadRequest m (Some e) σ)
    | inr P =>
        match select_send (writeQueue σ) (jobOf s r P) (ctxDone r) (coin s) with
        | None => Parked
        | Some (Cancelled, _) =>
            returned (respondWithError w StatusRequestTimeout "Request cancelled"
                        (Some "context canceled"%string) σ)
        | Some (Enqueued, q) =>
            Returned (accepted w (json_Valid P)) (set_writeQueue q σ)
        end
    end.
Proof.
  unfold handlePost, readBody.
  destruct (negb (String.eqb (Method r) MethodPost)); [reflexivity|].
  destruct (if String.eqb (Header_Get (Header r) "Content-Encoding") "gzip"
            then gzip_NewReader (MaxBytesReader (Body r) maxBodySize)
            else inr (MaxBytesReader (Body r) maxBodySize)) as [e|reader];
    [reflexivity|].
  destruct (io_ReadAll reader) as [e|P]; [reflexivity|].
  cbv zeta. rewrite clientAddress_code.
  assert (Hjob :
    {| data := P;
       path := filepath.Join
                 [uploadDir;
                  (clientAddress r +:+ "-" +:+ Format (now s) +:+
                   ("-" +:+ Itoa (rnd s)) +:+
                   (if negb (json_Valid P) then ".txt" else ".json"))%string] |}
    = jobOf s r P).
  { unfold jobOf. f_equal. rewrite <- fullPath_code. unfold fileName.
    destruct (json_Valid P); reflexivity. }
  rewrite Hjob.
  destruct (select_send (writeQueue σ) (jobOf s r P) (ctxDone r) (coin s))
    as [[[|] q]|]; [|reflexivity|reflexivity].
  unfold accepted. destruct (json_Valid P); reflexivity.
Qed.


End HandlePost.

Section ReadBody.

Context `{GoLib}.

Lemma MaxBytesReader_within r n :
  (N.of_nat (length (rd_bytes r)) <= n)%N -> MaxBytesReader r n = r.
Proof.
  intros Hle. unfold MaxBytesReader.
  apply N.leb_le in Hle. rewrite Hle. reflexivity.
Qed.

Lemma MaxBytesReader_over r n :
  (n < N.of_nat (length (rd_bytes r)))%N -> rd_err (MaxBytesReader r n) <> None.
Proof.
  intros Hlt. unfold MaxBytesReader.
  apply N.leb_gt in Hlt. rewrite Hlt. discriminate.
Qed.

Lemma gzip_NewReader_err r rd :
  rd_err r <> None -> gzip_NewReader r = inr rd -> rd_err rd <> None.
Proof.
  unfold gzip_NewReader. intros He.
  destruct (gzip_header (rd_bytes r)); [|discriminate].
  destruct (rd_err r) as [e|]; [|contradiction].
  intros [= <-]. discriminate.
Qed.

(** A body over the limit is never read to its end. *)
Lemma readBody_over r :
  (maxBodySize < N.of_nat (length (rd_bytes (Body r))))%N ->
  exists m e, readBody r = inl (m, e).
Proof.
  intros Hover. pose proof (MaxBytesReader_over _ _ Hover) as Herr.
  unfold readBody.
  destruct (String.eqb (Header_Get (Header r) "Content-Encoding") "gzip").
  - destruct (gzip_NewReader (MaxBytesReader (Body r) maxBodySize)) as [e|rd] eqn:E;
      [eauto|].
    pose proof (gzip_NewReader_err _ _ Herr E) as Hrd.
    unfold io_ReadAll. destruct (rd_err rd); [eauto|contradiction].
  - unfold io_ReadAll.
    destruct (rd_err (MaxBytesReader (Body r) maxBodySize)); [eauto|contradiction].
Qed.

(** A body that is read is within the limit, was sent whole, and is the
    payload of the request. *)
Lemma readBody_ok r P :
  readBody r = inr P ->
  (N.of_nat (length (rd_bytes (Body r))) <= maxBodySize)%N /\
  rd_err (Body r) = None /\
  payload r = Some P.
Proof.
  intros Hread.
  destruct (N.le_gt_cases (N.of_nat (length (rd_bytes (Body r)))) maxBodySize)
    as [Hle|Hgt].
  2: { destruct (readBody_over r Hgt) as (m & e & E). congruence. }
  split; [assumption|].
  revert Hread. unfold readBody, payload.
  rewrite (MaxBytesReader_within _ _ Hle).
  destruct (String.eqb (Header_Get (Header r) "Content-Encoding") "gzip").
  - unfold gzip_NewReader, io_ReadAll.
    destruct (gzip_header (rd_bytes (Body r))); [|discriminate].
    destruct (rd_err (Body r)) as [e|]; [discriminate|].
    destruct (gzip_inflate (rd_bytes (Body r))); [|discriminate].
    simpl. intros [= ->]. auto.
  - unfold io_ReadAll. destruct (rd_err (Body r)); [discriminate|].
    intros [= ->]. auto.
Qed.


End ReadBody.

(** ** The admission [select] *)

Section Select.

Lemma select_send_cases q req done coin :
  select_send q req done coin = None /\ writeQueueCap <= length q /\ done = false
  \/ select_send q req done coin = Some (Enqueued, q ++ [req]) /\ length q < writeQueueCap
  \/ select_send q req done coin = Some (Cancelled, q) /\ done = true.
Proof.
  unfold select_send.
  destruct (Nat.ltb_spec (length q) writeQueueCap); destruct done;
    try destruct coin; auto.
Qed.


End Select.

(** ** The write path *)

Section WritePath.

Lemma file_Write_eq f p o :
  file_Write f p o =
  (accepts o p, accepts o p <? length p,
   {| files := <[file_name f := default [] (files o !! file_name f) ++ take (accepts o p) p]> (files o);
      denied := denied o;
      quota := (fun q => q - accepts o p) <$> quota o;
      open_files := open_files o |}).
Proof. reflexivity. Qed.

Lemma accepts_le o p : accepts o p <= length p.
Proof. unfold accepts. destruct (quota o); lia. Qed.

Lemma accepts_all o p : (accepts o p <? length p) = false -> accepts o p = length p.
Proof. intros Hlt%Nat.ltb_ge. pose proof (accepts_le o p). lia. Qed.

(** [Write] on a writer that was just reset: a payload that fits is only
    buffered, a larger one goes to the file in one write. *)
Lemma Available_empty w e :
  bufio.Available {| bufio.wr := w; bufio.buf := []; bufio.err := e |} = bufio.size.
Proof. unfold bufio.Available. simpl length. apply Nat.sub_0_r. Qed.

Lemma Write_after_Reset b f p o :
  bufio.Write (bufio.Reset b f) p o =
  if bufio.size <? length p then
    let '(n, e, o') := file_Write f p o in
    (e, {| bufio.wr := Some f; bufio.buf := []; bufio.err := e |}, o')
  else (false, {| bufio.wr := Some f; bufio.buf := p; bufio.err := false |}, o).
Proof.
  unfold bufio.Write.
  replace (2 * length p + 2) with (S (S (2 * length p))) by lia.
  unfold bufio.Reset.
  cbn [bufio.write_loop bufio.Buffered bufio.buf bufio.err
       bufio.wr length negb Nat.eqb].
  unfold bufio.must_flush. cbn [bufio.err negb].
  rewrite !Available_empty, andb_true_r.
  destruct (bufio.size <? length p) eqn:Hbig; [|reflexivity].
  unfold bufio.dest_Write. cbn [bufio.wr].
  rewrite file_Write_eq. cbv zeta iota beta.
  destruct (accepts o p <? length p) eqn:Hshort.
  - rewrite andb_false_r. reflexivity.
  - rewrite (accepts_all _ _ Hshort), drop_all. reflexivity.
Qed.

(** [Flush] of a writer holding [p]. *)
Lemma Flush_buffered f p o :
  bufio.Flush {| bufio.wr := Some f; bufio.buf := p; bufio.err := false |} o =
  if length p =? 0 then
    (false, {| bufio.wr := Some f; bufio.buf := p; bufio.err := false |}, o)
  else
    let '(n, e, o') := file_Write f p o in
    if e then (true, {| bufio.wr := Some f; bufio.buf := drop n p; bufio.err := true |}, o')
    else (false, {| bufio.wr := Some f; bufio.buf := []; bufio.err := false |}, o').
Proof.
  unfold bufio.Flush, bufio.Buffered, bufio.dest_Write.
  cbn [bufio.wr bufio.buf bufio.err].
  destruct (length p =? 0); [reflexivity|].
  rewrite file_Write_eq. cbv zeta iota beta. rewrite orb_diag. reflexivity.
Qed.

Lemma dest_Write_all b p o n e o' :
  bufio.dest_Write b p o = (n, e, o') -> e = false -> n = length p.
Proof.
  unfold bufio.dest_Write. destruct (bufio.wr b) as [f|].
  - rewrite file_Write_eq. intros [= <- <- _] Hall. apply accepts_all. assumption.
  - intros [= _ <- _]. discriminate.
Qed.

Lemma write_loop_exit fuel b p o :
  bufio.must_flush b p = false -> bufio.write_loop fuel b p o = (b, p, o).
Proof. intros Hno. destruct fuel; simpl; rewrite ?Hno; reflexivity. Qed.

Lemma write_loop_S fuel b p o :
  bufio.write_loop (S fuel) b p o =
  if bufio.must_flush b p then
    if bufio.Buffered b =? 0 then
      let '(n, e, o') := bufio.dest_Write b p o in
      bufio.write_loop fuel
        {| bufio.wr := bufio.wr b; bufio.buf := bufio.buf b; bufio.err := e |}
        (drop n p) o'
    else
      let n := Nat.min (bufio.Available b) (length p) in
      let b1 := {| bufio.wr := bufio.wr b; bufio.buf := bufio.buf b ++ take n p;
                   bufio.err := bufio.err b |} in
      let '(_, b2, o') := bufio.Flush b1 o in
      bufio.write_loop fuel b2 (drop n p) o'
  else (b, p, o).
Proof. reflexivity. Qed.

Lemma must_flush_nil b : bufio.must_flush b [] = false.
Proof. unfold bufio.must_flush. simpl. reflexivity. Qed.

(** With an empty buffer the loop writes through and leaves. *)
Lemma write_loop_through fuel b p o :
  bufio.Buffered b = 0 ->
  let '(b', rest, _) := bufio.write_loop (S (S fuel)) b p o in
  bufio.must_flush b' rest = false.
Proof.
  intros Hempty. cbn [bufio.write_loop].
  destruct (bufio.must_flush b p) eqn:Hgo; [|assumption].
  rewrite Hempty. cbn [Nat.eqb].
  destruct (bufio.dest_Write b p o) as [[n e] o'] eqn:Hw.
  assert (Hdone : bufio.must_flush
                    {| bufio.wr := bufio.wr b; bufio.buf := bufio.buf b; bufio.err := e |}
                    (drop n p) = false).
  { destruct e.
    - unfold bufio.must_flush. cbn [bufio.err negb]. apply andb_false_r.
    - rewrite (dest_Write_all _ _ _ _ _ _ Hw eq_refl), drop_all.
      apply must_flush_nil. }
  rewrite Hdone. assumption.
Qed.

(** The loop of [Write] leaves by its condition, not for lack of fuel. *)
Lemma write_loop_settles fuel b p o :
  3 <= fuel ->
  let '(b', rest, _) := bufio.write_loop fuel b p o in
  bufio.must_flush b' rest = false.
Proof.
  intros Hfuel. destruct fuel as [|[|[|fuel]]]; try lia.
  destruct (Nat.eqb_spec (bufio.Buffered b) 0) as [Hempty|Hfull].
  { apply (write_loop_through (S fuel)). assumption. }
  rewrite write_loop_S.
  destruct (bufio.must_flush b p) eqn:Hgo; [|assumption].
  destruct (bufio.Buffered b =? 0) eqn:Hb; [apply Nat.eqb_eq in Hb; contradiction|].
  cbv zeta.
  set (n := Nat.min (bufio.Available b) (length p)).
  set (b1 := {| bufio.wr := bufio.wr b; bufio.buf := bufio.buf b ++ take n p;
                bufio.err := bufio.err b |}).
  assert (Herr : bufio.err b = false).
  { unfold bufio.must_flush in Hgo. apply andb_prop in Hgo as [_ Hgo].
    destruct (bufio.err b); [discriminate|reflexivity]. }
  assert (Hb1 : (bufio.Buffered b1 =? 0) = false).
  { apply Nat.eqb_neq. unfold bufio.Buffered in *. subst b1. cbn [bufio.buf].
    rewrite length_app. lia. }
  unfold bufio.Flush. fold b1. replace (bufio.err b1) with false by (symmetry; exact Herr).
  rewrite Hb1.
  destruct (bufio.dest_Write b1 (bufio.buf b1) o) as [[m e] o'] eqn:Hw.
  destruct (e || (m <? bufio.Buffered b1)) eqn:He; cbv beta iota.
  - rewrite write_loop_exit; unfold bufio.must_flush; cbn [bufio.err negb];
      apply andb_false_r.
  - apply (write_loop_through fuel). reflexivity.
Qed.

Lemma Write_loop_complete b p o :
  let '(b', rest, _) := bufio.write_loop (2 * length p + 2) b p o in
  bufio.must_flush b' rest = false.
Proof.
  destruct p as [|x p].
  - rewrite write_loop_exit by apply must_flush_nil. apply must_flush_nil.
  - apply write_loop_settles. simpl. lia.
Qed.

Lemma stored_created name p o :
  name ∉ denied o ->
  {| files := <[name := default [] (<[name := []]> (files o) !! name) ++ take (accepts o p) p]>
                (<[name := []]> (files o));
     denied := denied o;
     quota := (fun q => q - accepts o p) <$> quota o;
     open_files := open_files o |} = stored name p o.
Proof.
  intros _. unfold stored. f_equal.
  rewrite lookup_insert_eq. simpl. apply insert_insert_eq.
Qed.

Lemma stored_nil name o :
  {| files := <[name := []]> (files o); denied := denied o; quota := quota o;
     open_files := open_files o |} = stored name [] o.
Proof.
  unfold stored, accepts. simpl length.
  destruct (quota o) as [q|]; simpl; rewrite ?Nat.min_0_r, ?Nat.sub_0_r; reflexivity.
Qed.

(** [writeToFile] when the file cannot be created: two events, nothing
    else. *)
Lemma writeToFile_denied p name σ :
  name ∈ denied (os σ) ->
  writeToFile p name σ =
  {| isReady := isReady σ; writeQueue := writeQueue σ;
     bufferPool := bufferPool σ; lent := lent σ; os := os σ;
     events := events σ ++ write_trace name p (os σ) |}.
Proof.
  intros Hd. unfold writeToFile, os_Create, write_trace.
  destruct (decide (name ∈ denied (os σ))); [|contradiction].
  unfold log_Print, emit, set_os. simpl. rewrite <- app_assoc. reflexivity.
Qed.

(** [writeToFile] when the file can be created: the file holds the bytes
    the device accepted, the writer is back in the pool, the file is
    closed. *)
Lemma writeToFile_created p name σ :
  name ∉ denied (os σ) ->
  exists b,
    writeToFile p name σ =
    {| isReady := isReady σ; writeQueue := writeQueue σ;
       bufferPool := b :: tail (bufferPool σ); lent := lent σ;
       os := stored name p (os σ);
       events := events σ ++ write_trace name p (os σ) |}.
Proof.
  intros Hd. destruct σ as [rdy q pool ln o evs]. cbn [os] in Hd.
  unfold writeToFile, os_Create, write_trace.
  cbn [os events isReady writeQueue bufferPool lent].
  destruct (decide (name ∈ denied o)); [contradiction|].
  unfold bufferPool_Get, bufferPool_Put, log_Print, emit, set_os, file_Close.
  cbn [os events isReady writeQueue bufferPool lent].
  set (o1 := {| files := <[name := []]> (files o); denied := denied o;
                quota := quota o; open_files := S (open_files o) |}).
  assert (Hacc : accepts o1 p = accepts o p) by reflexivity.
  destruct pool as [|b0 idle]; cbv zeta iota beta;
    rewrite Write_after_Reset;
    (destruct (bufio.size <? length p) eqn:Hbig;
     [ rewrite file_Write_eq; cbv zeta iota beta; cbn [os]; rewrite Hacc;
       destruct (accepts o p <? length p) eqn:Hshort;
       [ | rewrite Flush_buffered; cbn [length Nat.eqb] ]
     | rewrite Flush_buffered;
       destruct (length p =? 0) eqn:Hnil;
       [ | rewrite file_Write_eq; cbv zeta iota beta; cbn [os]; rewrite Hacc;
           destruct (accepts o p <? length p) eqn:Hshort ] ]);
    cbn [os events isReady writeQueue bufferPool lent tail];
    eexists;
    (f_equal;
     [ subst o1; cbn [files denied quota open_files file_name pred];
       first [ apply stored_created; assumption
             | apply Nat.eqb_eq, nil_length_inv in Hnil; subst p;
               apply stored_nil ]
     | rewrite <- ?app_assoc; try reflexivity ]).
  all: apply Nat.eqb_eq, nil_length_inv in Hnil; subst p; reflexivity.
Qed.

End WritePath.

(** ** What the handlers do to the world *)

Section HandlerFacts.

Context `{GoLib}.

Lemma handlePost_result s w r σ : post_result s w r σ (handlePost s w r σ).
Proof.
  rewrite handlePost_unfold.
  destruct (String.eqb_spec (Method r) MethodPost) as [Hm|Hm]; simpl negb; cbv iota.
  2: { apply post_method. assumption. }
  destruct (readBody r) as [[m e]|P] eqn:Hread.
  { apply post_unread; assumption. }
  destruct (select_send_cases (writeQueue σ) (jobOf s r P) (ctxDone r) (coin s))
    as [(-> & Hfull & Hdone)|[(-> & Hfree)|(-> & Hdone)]].
  - eapply post_parked; eassumption.
  - eapply post_admitted; eassumption.
  - eapply post_cancelled; eassumption.
Qed.

Lemma grown_nil σ : grown σ [] [] = σ.
Proof. destruct σ. unfold grown. simpl. rewrite !app_nil_r. reflexivity. Qed.

Lemma grown_grown σ j1 e1 j2 e2 :
  grown (grown σ j1 e1) j2 e2 = grown σ (j1 ++ j2) (e1 ++ e2).
Proof. unfold grown. simpl. rewrite !app_assoc. reflexivity. Qed.

Lemma log_Print_grown line σ : log_Print line σ = grown σ [] [EvLog line].
Proof. unfold log_Print, emit, grown. rewrite app_nil_r. reflexivity. Qed.

Lemma respondWithError_grown w c m e σ :
  exists line, (respondWithError w c m e σ).2 = grown σ [] [EvLog line].
Proof.
  destruct (respondWithError_world w c m e σ) as [line ->].
  exists line. apply log_Print_grown.
Qed.

Lemma set_writeQueue_grown σ jobs :
  set_writeQueue (writeQueue σ ++ jobs) σ = grown σ jobs [].
Proof. unfold set_writeQueue, grown. rewrite app_nil_r. reflexivity. Qed.

(** A call of [handlePost] that returns leaves the world as it was, up to
    log lines, unless it answers 202; then it has added its one job. *)
Lemma handlePost_world s w r σ w' σ' :
  unsent w ->
  handlePost s w r σ = Returned w' σ' ->
  exists evs, Forall chatter evs /\
    ((σ' = grown σ [] evs /\ client_error (rw_status w')) \/
     (exists P, readBody r = inr P /\ Method r = MethodPost /\
                length (writeQueue σ) < writeQueueCap /\
                σ' = grown σ [jobOf s r P] evs /\ evs = [] /\
                w' = accepted w (json_Valid P) /\
                rw_status w' = Some StatusAccepted)).
Proof.
  intros Hw Hret. pose proof (handlePost_result s w r σ) as Hres.
  rewrite Hret in Hres.
  assert (Herr : forall c m e, (400 <= c < 500)%N ->
            returned (respondWithError w c m e σ) = Returned w' σ' ->
            exists evs, Forall chatter evs /\
              σ' = grown σ [] evs /\ client_error (rw_status w')).
  { intros c m e Hc Heq.
    destruct (respondWithError_grown w c m e σ) as [line Hline].
    pose proof (respondWithError_status w c m e σ Hw) as Hst.
    destruct (respondWithError w c m e σ) as [w1 σ1].
    unfold returned in Heq. simpl in Heq, Hst, Hline.
    injection Heq as -> ->.
    exists [EvLog line]. split; [repeat constructor|]. split; [assumption|].
    exists c. split; assumption. }
  set (out := Returned w' σ') in Hres.
  assert (Hout : out = Returned w' σ') by reflexivity. clearbody out.
  destruct Hres as [Hm|m e Hm Hread|P Hm Hread Hfull Hdone|P Hm Hread Hdone
                   |P Hm Hread Hfree].
  - destruct (Herr StatusMethodNotAllowed _ _ ltac:(unfold StatusMethodNotAllowed; lia) Hout)
      as (evs & ? & ? & ?); eauto.
  - destruct (Herr StatusBadRequest _ _ ltac:(unfold StatusBadRequest; lia) Hout)
      as (evs & ? & ? & ?); eauto.
  - discriminate.
  - destruct (Herr StatusRequestTimeout _ _ ltac:(unfold StatusRequestTimeout; lia) Hout)
      as (evs & ? & ? & ?); eauto.
  - injection Hout as <- <-.
    exists []. split; [constructor|]. right. exists P.
    rewrite set_writeQueue_grown. repeat split; try assumption; try reflexivity.
    apply accepted_status. assumption.
Qed.

Lemma not_client_error_accepted : ~ client_error (Some StatusAccepted).
Proof. intros (c & [= <-] & Hc). unfold StatusAccepted in Hc. lia. Qed.

Lemma handlePost_tame : tame handlePost.
Proof.
  intros s w r σ Hw.
  destruct (handlePost s w r σ) as [w' σ'| |w' σ'] eqn:Hret; [|exact I|].
  - destruct (handlePost_world _ _ _ _ _ _ Hw Hret)
      as (evs & Hevs & [(-> & Herr)|(P & Hread & Hm & Hfree & -> & -> & -> & Hst)]).
    + exists [], evs. auto.
    + exists [jobOf s r P], []. repeat split; eauto 8.
      intros Hc. rewrite Hst in Hc. destruct (not_client_error_accepted Hc).
  - pose proof (handlePost_result s w r σ) as Hres. rewrite Hret in Hres.
    inversion Hres.
Qed.

Ltac quiet_return :=
  eexists [], []; rewrite grown_nil; repeat split; auto.

Lemma handleSubmit_tame : tame handleSubmit.
Proof.
  intros s w r σ Hw. unfold handleSubmit.
  destruct (String.eqb (Method r) MethodPost); [apply handlePost_tame; assumption|].
  destruct (String.eqb (Method r) MethodGet); [quiet_return|].
  destruct (respondWithError_grown w StatusMethodNotAllowed
              "Only GET and POST allowed" None σ) as [line Hline].
  destruct (respondWithError w StatusMethodNotAllowed
              "Only GET and POST allowed" None σ) as [w1 σ1].
  simpl in Hline. subst σ1.
  exists [], [EvLog line]. repeat split; auto. repeat constructor.
Qed.

Lemma handleHealth_tame : tame handleHealth.
Proof. intros s w r σ Hw. unfold handleHealth. quiet_return. Qed.

Lemma handleReady_tame : tame handleReady.
Proof.
  intros s w r σ Hw. unfold handleReady.
  destruct (checkReady σ); quiet_return.
Qed.

Lemma mux_tame : tame mux.
Proof.
  intros s w r σ Hw. unfold mux.
  destruct (negb (String.eqb (Method r) "CONNECT")
            && negb (String.eqb (cleanPath (URLPath r)) (URLPath r)));
    [quiet_return|].
  destruct (mux_match (URLPath r)).
  - apply handleSubmit_tame; assumption.
  - apply handleHealth_tame; assumption.
  - apply handleReady_tame; assumption.
  - quiet_return.
Qed.

Lemma withCORS_tame next : tame next -> tame (withCORS next).
Proof.
  intros Hnext s w r σ Hw. unfold withCORS.
  destruct (String.eqb (Method r) MethodOptions); [quiet_return|].
  apply Hnext. unfold unsent. rewrite !Header_Set_status. exact Hw.
Qed.

Lemma withLogging_tame next : tame next -> tame (withLogging next).
Proof.
  intros Hnext s w r σ Hw. unfold withLogging.
  specialize (Hnext s w r σ Hw).
  destruct (next s w r σ) as [w' σ'| |w' σ']; [|exact I|exact Hnext].
  destruct Hnext as (jobs & evs & -> & Hevs & Hjobs & Herr).
  exists jobs, (evs ++ [EvLog (Method r +:+ " " +:+ URLPath r)]).
  rewrite log_Print_grown, grown_grown, app_nil_r.
  repeat split; auto.
  apply Forall_app. split; [assumption|repeat constructor].
Qed.

Lemma withRecover_tame next : tame next -> tame (withRecover next).
Proof.
  intros Hnext s w r σ Hw. unfold withRecover.
  specialize (Hnext s w r σ Hw).
  destruct (next s w r σ) as [w' σ'| |w' σ']; [exact Hnext|exact I|destruct Hnext].
Qed.

Lemma handler_tame : tame handler.
Proof.
  unfold handler.
  apply withRecover_tame, withLogging_tame, withCORS_tame, mux_tame.
Qed.

End HandlerFacts.

(** ** The stored file *)

Section Stored.

Context `{GoLib}.


End Stored.


(** ** Admission *)

Section Admission.

Context `{GoLib}.


End Admission.



(** ** The limit on the body *)

Section BodyLimit.

Context `{GoLib}.


End BodyLimit.



(** ** Rejections *)

Section Rejections.

Context `{GoLib}.

Lemma serve_world s r σ w' σ' :
  serve s r σ = Some (w', σ') ->
  exists jobs evs,
    σ' = grown σ jobs evs /\ Forall chatter evs /\
    (jobs = [] \/
     (rw_status w' = Some StatusAccepted /\
      length (writeQueue σ) < writeQueueCap /\
      exists P, readBody r = inr P /\ jobs = [jobOf s r P])) /\
    (client_error (rw_status w') -> jobs = []).
Proof.
  unfold serve. intros Hserve.
  pose proof (handler_tame s newResponseWriter r σ eq_refl) as Htame.
  destruct (handler s newResponseWriter r σ) as [w1 σ1| |w1 σ1]; try discriminate.
  destruct Htame as (jobs & evs & -> & Hevs & Hjobs & Herr).
  injection Hserve as <- <-.
  exists jobs, (evs ++ [EvRespond (rw_status (WriteHeader StatusOK w1))]).
  split; [|split; [|split]].
  - unfold emit, grown. simpl. rewrite app_assoc. reflexivity.
  - apply Forall_app. split; [assumption|repeat constructor].
  - destruct Hjobs as [->|(Hst & Hrest)]; [left; reflexivity|right].
    split; [|assumption]. rewrite (WriteHeader_sent _ _ _ Hst). assumption.
  - intros Hc. apply Herr.
    destruct (rw_status w1) as [c|] eqn:Hst.
    + rewrite (WriteHeader_sent _ _ _ Hst), Hst in Hc. assumption.
    + rewrite (WriteHeader_unsent _ _ Hst) in Hc.
      destruct Hc as (c & [= <-] & Hc). unfold StatusOK in Hc. lia.
Qed.

(** C7. Whatever the request and the route, when the server answers with
    a status of the client-error class the queue, the files, the buffer
    pool and the readiness flag are exactly as before: the call has only
    added log lines and the record of its response to the history. No job
    of this request exists, so the step of the process it makes leaves no
    job for a worker to take and no file. *)
Theorem client_error_leaves_no_job s r σ w' σ' :
  serve s r σ = Some (w', σ') ->
  client_error (rw_status w') ->
  writeQueue σ' = writeQueue σ /\
  os σ' = os σ /\
  bufferPool σ' = bufferPool σ /\ lent σ' = lent σ /\ isReady σ' = isReady σ /\
  exists evs, events σ' = events σ ++ evs /\ Forall chatter evs.
Proof.
  intros Hserve Hc.
  destruct (serve_world _ _ _ _ _ Hserve) as (jobs & evs & -> & Hevs & _ & Herr).
  rewrite (Herr Hc). unfold grown. simpl. rewrite app_nil_r.
  repeat split; eauto.
Qed.

End Rejections.

Lemma client_error_leaves_no_job_witness :
  let L := Demo.lib in
  let r := Demo.post [("Content-Encoding", "gzip")%string] [x00] false in
  let s := Demo.sched true in
  exists w' σ',
    serve s r Demo.σ0 = Some (w', σ') /\
    rw_status w' = Some StatusBadRequest /\
    writeQueue σ' = writeQueue Demo.σ0 /\
    os σ' = os Demo.σ0.
Proof.
  intros L r s.
  destruct (serve s r Demo.σ0) as [[w' σ']|] eqn:E;
    [|vm_compute in E; discriminate].
  assert (Hst : rw_status w' = Some StatusBadRequest).
  { vm_compute in E. injection E as <- _. reflexivity. }
  exists w', σ'. split; [reflexivity|]. split; [assumption|].
  destruct (client_error_leaves_no_job s r Demo.σ0 w' σ' E) as (Hq & Ho & _).
  - exists StatusBadRequest. split; [assumption|]. unfold StatusBadRequest. lia.
  - split; assumption.
Defined.

(** ** Methods on the submission route *)

Section Methods.

Context `{GoLib}.

(** The writer the mux receives: the one of the server with the three CORS
    headers set. *)
Lemma cors_writer_unsent w :
  unsent w ->
  unsent (Header_Set "Access-Control-Allow-Headers" "Content-Type, Authorization"
            (Header_Set "Access-Control-Allow-Methods" "GET, POST, OPTIONS"
               (Header_Set "Access-Control-Allow-Origin" "*" w))).
Proof. unfold unsent. rewrite !Header_Set_status. auto. Qed.

Lemma mux_routed s w r σ rt :
  routed r rt ->
  mux s w r σ =
  match rt with
  | RouteCollection => handleSubmit s w r σ
  | RouteHealth => handleHealth s w r σ
  | RouteReady => handleReady s w r σ
  | RouteNone => Returned (http_Error w "404 page not found" StatusNotFound) σ
  end.
Proof.
  intros [Hclean <-]. unfold mux.
  destruct Hclean as [-> | ->]; [reflexivity|].
  rewrite String.eqb_refl, andb_false_r. reflexivity.
Qed.

(** C5, as the code has it. On the submission route, GET is answered 200
    with the static alive payload; OPTIONS is answered 204 by the CORS
    layer and never reaches the route; every other method but POST is
    answered 405; none of them touches the queue. The handler of the route
    itself answers 405 to every method other than POST and GET. *)
Theorem submission_route_methods s r σ :
  routed r RouteCollection ->
  (Method r = MethodGet ->
   exists w' σ', serve s r σ = Some (w', σ') /\
     rw_status w' = Some StatusOK /\
     rw_body w' = ("{" +:+ dq +:+ "status" +:+ dq +:+ ":" +:+ dq +:+
                   "API is alive" +:+ dq +:+ "}")%string /\
     writeQueue σ' = writeQueue σ) /\
  (Method r = MethodOptions ->
   exists w' σ', serve s r σ = Some (w', σ') /\
     rw_status w' = Some StatusNoContent /\ writeQueue σ' = writeQueue σ) /\
  (Method r <> MethodPost -> Method r <> MethodGet -> Method r <> MethodOptions ->
   exists w' σ', serve s r σ = Some (w', σ') /\
     rw_status w' = Some StatusMethodNotAllowed /\ writeQueue σ' = writeQueue σ) /\
  (forall w, unsent w -> Method r <> MethodPost -> Method r <> MethodGet ->
   exists w' σ', handleSubmit s w r σ = Returned w' σ' /\
     rw_status w' = Some StatusMethodNotAllowed /\ writeQueue σ' = writeQueue σ).
Proof.
  intros Hroute.
  assert (Hsubmit : forall w, unsent w -> Method r <> MethodPost -> Method r <> MethodGet ->
            exists w' σ', handleSubmit s w r σ = Returned w' σ' /\
              rw_status w' = Some StatusMethodNotAllowed /\ writeQueue σ' = writeQueue σ).
  { intros w Hw Hp%String.eqb_neq Hg%String.eqb_neq. unfold handleSubmit.
    rewrite Hp, Hg.
    pose proof (respondWithError_status w StatusMethodNotAllowed
                  "Only GET and POST allowed" None σ Hw) as Hst.
    destruct (respondWithError_grown w StatusMethodNotAllowed
                "Only GET and POST allowed" None σ) as [line Hline].
    destruct (respondWithError w StatusMethodNotAllowed
                "Only GET and POST allowed" None σ) as [w1 σ1].
    simpl in Hst, Hline. subst σ1. exists w1. eexists. split; [reflexivity|].
    split; [assumption|]. unfold grown. simpl. apply app_nil_r. }
  unfold serve, handler, withRecover, withLogging, withCORS.
  repeat split.
  - intros Hm. rewrite Hm. simpl String.eqb. cbv iota.
    rewrite (mux_routed _ _ _ _ _ Hroute). unfold handleSubmit. rewrite Hm.
    simpl String.eqb. cbv iota. do 2 eexists. split; [reflexivity|].
    repeat split; reflexivity.
  - intros Hm. rewrite Hm. simpl String.eqb. cbv iota.
    do 2 eexists. split; [reflexivity|]. split; reflexivity.
  - intros Hp Hg Ho. apply String.eqb_neq in Ho. rewrite Ho.
    rewrite (mux_routed _ _ _ _ _ Hroute).
    destruct (Hsubmit _ (cors_writer_unsent newResponseWriter eq_refl) Hp Hg)
      as (w1 & σ1 & -> & Hst & Hq).
    do 2 eexists. split; [reflexivity|].
    split; [rewrite (WriteHeader_sent _ _ _ Hst); assumption|].
    simpl. assumption.
  - exact Hsubmit.
Qed.

End Methods.

Lemma submission_route_methods_witness :
  let L := Demo.lib in
  let r := {| Method := "DELETE"; URLPath := "/v1/collection"; Header := [];
              RemoteAddr := "10.0.0.1:5000";
              Body := {| rd_bytes := []; rd_err := None |}; ctxDone := false |} in
  let s := Demo.sched true in
  exists w' σ', serve s r Demo.σ0 = Some (w', σ') /\
    rw_status w' = Some StatusMethodNotAllowed /\
    writeQueue σ' = writeQueue Demo.σ0.
Proof.
  intros L r s.
  destruct (submission_route_methods s r Demo.σ0) as (_ & _ & Hother & _).
  - split; [right; reflexivity|reflexivity].
  - apply Hother; discriminate.
Defined.

(** C5, the case it leaves out: OPTIONS on the submission route is neither
    POST nor GET, and the answer is 204, not 405. *)
Lemma options_on_submission_route :
  let L := Demo.lib in
  let r := {| Method := "OPTIONS"; URLPath := "/v1/collection"; Header := [];
              RemoteAddr := "10.0.0.1:5000";
              Body := {| rd_bytes := []; rd_err := None |}; ctxDone := false |} in
  let s := Demo.sched true in
  routed r RouteCollection /\
  Method r <> MethodPost /\ Method r <> MethodGet /\
  (rw_status <$> (fst <$> serve s r Demo.σ0)) = Some (Some StatusNoContent).
Proof.
  intros L r s. split; [split; [right; reflexivity|reflexivity]|].
  split; [discriminate|]. split; [discriminate|]. vm_compute. reflexivity.
Qed.

(** ** The steps of the process *)

Section Steps.

Context `{GoLib}.

(** What each step requires and does. *)
Lemma step_inv Σ l Σ' :
  step Σ l Σ' ->
  match l with
  | LMkdir ok =>
      pc Σ = PcMkdir /\ workers Σ' = workers Σ /\ busy Σ' = busy Σ /\
      pc Σ' = (if ok then PcSpawn 0 else PcExited) /\
      world Σ' = grown (world Σ) []
                   (if ok then [EvMkdirAll uploadDir true]
                    else [EvMkdirAll uploadDir false;
                          EvLog "Failed to create upload directory"; EvFatal])
  | LSpawn =>
      exists i, pc Σ = PcSpawn i /\ i < workerCount /\ pc Σ' = PcSpawn (S i) /\
        workers Σ' = S (workers Σ) /\ busy Σ' = busy Σ /\
        world Σ' = grown (world Σ) [] [EvSpawnWorker]
  | LLog =>
      exists i, pc Σ = PcSpawn i /\ workerCount <= i /\ pc Σ' = PcSetReady /\
        workers Σ' = workers Σ /\ busy Σ' = busy Σ /\
        world Σ' = grown (world Σ) [] [EvLog "Listening on :8989"]
  | LSetReady =>
      pc Σ = PcSetReady /\ pc Σ' = PcListen /\
      workers Σ' = workers Σ /\ busy Σ' = busy Σ /\
      world Σ' = setReady true (world Σ)
  | LListen ok =>
      pc Σ = PcListen /\ workers Σ' = workers Σ /\ busy Σ' = busy Σ /\
      pc Σ' = (if ok then PcServing else PcExited) /\
      world Σ' = grown (world Σ) []
                   (if ok then [EvListen true]
                    else [EvListen false; EvLog "Server error"; EvFatal])
  | LRequest s r =>
      pc Σ = PcServing /\ pc Σ' = PcServing /\
      workers Σ' = workers Σ /\ busy Σ' = busy Σ /\
      exists w', serve s r (world Σ) = Some (w', world Σ')
  | LReceive =>
      exists req q, writeQueue (world Σ) = req :: q /\
        world Σ' = set_writeQueue q (world Σ) /\
        busy Σ' = busy Σ ++ [req] /\ length (busy Σ) < workers Σ /\
        pc Σ' = pc Σ /\ workers Σ' = workers Σ
  | LWrite i =>
      exists req, busy Σ !! i = Some req /\
        world Σ' = writeToFile (data req) (path req) (world Σ) /\
        busy Σ' = delete i (busy Σ) /\
        pc Σ' = pc Σ /\ workers Σ' = workers Σ
  end.
Proof.
  unfold step, step_fn, exited. intros Hstep.
  destruct l as [[|]| | | |[|]|s r| |i];
    destruct (pc Σ) as [|j| | | |] eqn:Hpc; try discriminate;
    try (injection Hstep as <-; cbn [pc world workers busy with_world];
         unfold log_Print, emit, grown;
         cbn [isReady writeQueue bufferPool lent os events];
         rewrite ?app_nil_r, <- ?app_assoc; auto 10; fail).
  all: try (destruct (Nat.ltb_spec j workerCount); try discriminate;
            injection Hstep as <-; exists j;
            cbn [pc world workers busy with_world];
            unfold log_Print, emit, grown;
            cbn [isReady writeQueue bufferPool lent os events];
            rewrite ?app_nil_r; auto 10; fail).
  all: try (destruct (serve s r (world Σ)) as [[w' σ']|]; try discriminate;
            injection Hstep as <-; cbn [pc world workers busy with_world];
            eauto 10; fail).
  all: try (destruct (writeQueue (world Σ)) as [|req q]; try discriminate;
            destruct (Nat.ltb_spec (length (busy Σ)) (workers Σ)); try discriminate;
            injection Hstep as <-; exists req, q;
            cbn [pc world workers busy]; auto 10; fail).
  all: destruct (busy Σ !! i) as [req|] eqn:Hreq; try discriminate;
       injection Hstep as <-; exists req; cbn [pc world workers busy]; auto 10.
Qed.

End Steps.

(** ** The queue *)

Section Queue.

Context `{GoLib}.

Lemma writeToFile_frame p name σ :
  isReady (writeToFile p name σ) = isReady σ /\
  writeQueue (writeToFile p name σ) = writeQueue σ /\
  lent (writeToFile p name σ) = lent σ /\
  events (writeToFile p name σ) = events σ ++ write_trace name p (os σ) /\
  os (writeToFile p name σ) =
    (if decide (name ∈ denied (os σ)) then os σ else stored name p (os σ)).
Proof.
  destruct (decide (name ∈ denied (os σ))) as [Hd|Hd].
  - rewrite (writeToFile_denied _ _ _ Hd). auto.
  - destruct (writeToFile_created p _ _ Hd) as [b ->]. auto.
Qed.

(** A step changes the queue in one of two ways: a request appends its
    job, and there was room; a worker takes the oldest job. *)
Lemma step_queue Σ l Σ' :
  step Σ l Σ' ->
  writeQueue (world Σ') = writeQueue (world Σ)
  \/ (exists s r job, l = LRequest s r /\
        writeQueue (world Σ') = writeQueue (world Σ) ++ [job] /\
        length (writeQueue (world Σ)) < writeQueueCap)
  \/ (l = LReceive /\ exists req, writeQueue (world Σ) = req :: writeQueue (world Σ')).
Proof.
  intros Hstep. apply step_inv in Hstep.
  destruct l as [ok| | | |ok|s r| |i].
  - destruct Hstep as (_ & _ & _ & _ & ->). left. apply app_nil_r.
  - destruct Hstep as (i & _ & _ & _ & _ & _ & ->). left. apply app_nil_r.
  - destruct Hstep as (i & _ & _ & _ & _ & _ & ->). left. apply app_nil_r.
  - destruct Hstep as (_ & _ & _ & _ & ->). left. reflexivity.
  - destruct Hstep as (_ & _ & _ & _ & ->). left. apply app_nil_r.
  - destruct Hstep as (_ & _ & _ & _ & w' & Hserve).
    destruct (serve_world _ _ _ _ _ Hserve)
      as (jobs & evs & -> & _ & [->|(_ & Hfree & P & _ & ->)] & _).
    + left. apply app_nil_r.
    + right; left. eauto 10.
  - destruct Hstep as (req & q & Hq & -> & _). right; right.
    split; [reflexivity|]. exists req. assumption.
  - destruct Hstep as (req & _ & -> & _). left. apply writeToFile_frame.
Qed.

(** C3. In every state the process can reach, the queue holds at most
    [writeQueueCap] jobs, 100 in this build. A step that makes the queue
    longer is a request appending one job when the queue held less than
    the capacity; a step that makes it shorter is a worker taking one job;
    no other step changes its length. *)
Theorem queue_never_exceeds_capacity o Σ :
  reachable o Σ ->
  length (writeQueue (world Σ)) <= writeQueueCap /\
  writeQueueCap = 100 /\
  forall l Σ', step Σ l Σ' ->
    length (writeQueue (world Σ')) <= writeQueueCap /\
    (length (writeQueue (world Σ)) < length (writeQueue (world Σ')) ->
       (exists s r, l = LRequest s r) /\
       length (writeQueue (world Σ)) < writeQueueCap /\
       length (writeQueue (world Σ')) = S (length (writeQueue (world Σ)))) /\
    (length (writeQueue (world Σ')) < length (writeQueue (world Σ)) ->
       l = LReceive /\
       length (writeQueue (world Σ)) = S (length (writeQueue (world Σ')))).
Proof.
  intros Hreach.
  assert (Hinv : length (writeQueue (world Σ)) <= writeQueueCap).
  { induction Hreach as [|Σ l Σ' _ IH Hstep]; [simpl; lia|].
    destruct (step_queue _ _ _ Hstep)
      as [->|[(s & r & job & _ & -> & Hfree)|(_ & req & Hq)]].
    - assumption.
    - rewrite length_app. simpl. lia.
    - rewrite Hq in IH. simpl in IH. lia. }
  split; [assumption|]. split; [reflexivity|].
  intros l Σ' Hstep.
  destruct (step_queue _ _ _ Hstep)
    as [Hq|[(s & r & job & -> & Hq & Hfree)|(-> & req & Hq)]].
  - rewrite Hq. repeat split; try assumption; lia.
  - rewrite Hq, length_app. simpl. repeat split; eauto; lia.
  - rewrite Hq in *. simpl in *. repeat split; try lia.
Qed.

End Queue.

Section Runs.

Context `{GoLib}.

Lemma run_reachable o ls : forall Σ Σ',
  reachable o Σ -> run ls Σ = Some Σ' -> reachable o Σ'.
Proof.
  induction ls as [|l ls IH]; intros Σ Σ' Hreach Hrun; simpl in Hrun.
  - injection Hrun as <-. assumption.
  - destruct (step_fn l Σ) as [Σ1|] eqn:Hstep; [|discriminate].
    apply (IH Σ1); [|assumption]. eapply reach_step; eassumption.
Qed.

End Runs.

Lemma queue_never_exceeds_capacity_witness :
  let L := Demo.lib in
  let r := Demo.post [] Demo.a1 false in
  let s := Demo.sched true in
  exists Σ,
    run (Demo.startup ++ [LRequest s r]) (boot Demo.disk) = Some Σ /\
    length (writeQueue (world Σ)) = 1 /\
    length (writeQueue (world Σ)) <= writeQueueCap.
Proof.
  intros L r s.
  destruct (run (Demo.startup ++ [LRequest s r]) (boot Demo.disk))
    as [Σ|] eqn:E; [|vm_compute in E; discriminate].
  exists Σ. split; [reflexivity|]. split.
  - vm_compute in E. injection E as <-. reflexivity.
  - apply (queue_never_exceeds_capacity Demo.disk Σ).
    eapply run_reachable; [apply reach_boot|exact E].
Defined.

(** ** Readiness *)

Section Readiness.

Context `{GoLib}.

Lemma setReady_calls_app a b :
  setReady_calls (a ++ b) = setReady_calls a ++ setReady_calls b.
Proof.
  induction a as [|e a IH]; simpl; [reflexivity|].
  destruct e; simpl; rewrite ?IH; reflexivity.
Qed.

Lemma chatter_setReady_calls evs : Forall chatter evs -> setReady_calls evs = [].
Proof.
  induction 1 as [|e evs He _ IH]; [reflexivity|].
  destruct e; simpl in *; try contradiction; assumption.
Qed.

Lemma write_trace_setReady_calls name p o : setReady_calls (write_trace name p o) = [].
Proof.
  unfold write_trace. destruct (decide (name ∈ denied o)); [reflexivity|].
  destruct (accepts o p <? length p); reflexivity.
Qed.

(** Every step but [setReady(true)] leaves the flag alone and adds no call
    of [setReady] to the history. *)
Lemma step_history Σ l Σ' :
  step Σ l Σ' ->
  exists evs, events (world Σ') = events (world Σ) ++ evs /\
    ((l = LSetReady /\ evs = [EvSetReady true] /\ isReady (world Σ') = true) \/
     (l <> LSetReady /\ setReady_calls evs = [] /\
      isReady (world Σ') = isReady (world Σ))).
Proof.
  intros Hstep. apply step_inv in Hstep.
  destruct l as [ok| | | |ok|s r| |i].
  - destruct Hstep as (_ & _ & _ & _ & ->). eexists. split; [reflexivity|].
    right. destruct ok; repeat split; discriminate.
  - destruct Hstep as (i & _ & _ & _ & _ & _ & ->). eexists. split; [reflexivity|].
    right. repeat split; discriminate.
  - destruct Hstep as (i & _ & _ & _ & _ & _ & ->). eexists. split; [reflexivity|].
    right. repeat split; discriminate.
  - destruct Hstep as (_ & _ & _ & _ & ->). eexists. split; [reflexivity|].
    left. auto.
  - destruct Hstep as (_ & _ & _ & _ & ->). eexists. split; [reflexivity|].
    right. destruct ok; repeat split; discriminate.
  - destruct Hstep as (_ & _ & _ & _ & w' & Hserve).
    destruct (serve_world _ _ _ _ _ Hserve) as (jobs & evs & -> & Hevs & _).
    exists evs. split; [reflexivity|]. right.
    repeat split; [discriminate|apply chatter_setReady_calls; assumption].
  - destruct Hstep as (req & q & _ & -> & _). exists [].
    split; [symmetry; apply app_nil_r|]. right. repeat split; discriminate.
  - destruct Hstep as (req & _ & -> & _).
    destruct (writeToFile_frame (data req) (path req) (world Σ))
      as (Hr & _ & _ & Hev & _).
    eexists. split; [exact Hev|]. right.
    repeat split; [discriminate|apply write_trace_setReady_calls|assumption].
Qed.

Lemma ready_inv_reachable o Σ : reachable o Σ -> ready_inv Σ.
Proof.
  induction 1 as [|Σ l Σ' _ IH Hstep].
  { unfold ready_inv, boot. simpl. repeat split; discriminate. }
  destruct IH as (Hcalls & Hstarted & Hpc).
  destruct (step_history _ _ _ Hstep) as (evs & Hev & Hkind).
  pose proof (step_inv _ _ _ Hstep) as Hinv.
  assert (Hmk : In (EvMkdirAll uploadDir true) (events (world Σ)) ->
                In (EvMkdirAll uploadDir true) (events (world Σ')))
    by (rewrite Hev; intros; apply in_or_app; auto).
  unfold ready_inv, started in *. rewrite Hev, setReady_calls_app, Hcalls.
  destruct Hkind as [(-> & -> & Hr)|(Hl & Hnone & Hr)].
  - destruct Hinv as (Hp & Hp' & Hw & _). rewrite Hp in Hpc.
    destruct Hpc as (Hfalse & Hmkd & Hwk).
    rewrite Hr, Hfalse, Hp', Hw, <- Hev. simpl. auto.
  - rewrite Hnone, Hr, app_nil_r, <- Hev. split; [reflexivity|].
    destruct l as [ok| | | |ok|s r| |i]; try congruence.
    + destruct Hinv as (Hp & Hw & _ & Hp' & Hworld). rewrite Hp in Hpc.
      destruct Hpc as (Hfalse & Hwk). rewrite Hp', Hw.
      split; [intros; congruence|].
      destruct ok; [|exact I]. repeat split; try assumption; try lia.
      rewrite Hworld. simpl. apply in_or_app. right. left. reflexivity.
    + destruct Hinv as (i & Hp & Hlt & Hp' & Hw & _). rewrite Hp in Hpc.
      destruct Hpc as (Hfalse & Hwk & Hle & Hmkd). rewrite Hp', Hw.
      split; [intros; congruence|]. repeat split; auto; lia.
    + destruct Hinv as (i & Hp & Hge & Hp' & Hw & _). rewrite Hp in Hpc.
      destruct Hpc as (Hfalse & Hwk & Hle & Hmkd). rewrite Hp', Hw.
      split; [intros; congruence|]. repeat split; auto; lia.
    + destruct Hinv as (Hp & Hw & _ & Hp' & _). rewrite Hp in Hpc.
      rewrite Hp', Hw. split; [intuition auto|]. destruct ok; [assumption|exact I].
    + destruct Hinv as (Hp & Hp' & Hw & _). rewrite Hp in Hpc.
      rewrite Hp', Hw. split; [intuition auto|]. assumption.
    + destruct Hinv as (req & q & _ & _ & _ & _ & Hp' & Hw).
      rewrite Hp', Hw. split; [intuition auto|].
      destruct (pc Σ); intuition auto.
    + destruct Hinv as (req & _ & _ & _ & Hp' & Hw).
      rewrite Hp', Hw. split; [intuition auto|].
      destruct (pc Σ); intuition auto.
Qed.

(** C4, as the code has it. The flag is false when the process starts.
    In every state the process can reach, [setReady] has been called at
    most once, with [true], and the flag is true exactly when it has; when
    the flag is true the upload directory has been created and all the
    workers started; requests are served only with the flag true; no step
    makes a true flag false; and a readiness probe answers 200 when the
    flag is true and 503 when it is false. *)
Theorem readiness_flag o Σ :
  reachable o Σ ->
  isReady (world (boot o)) = false /\
  setReady_calls (events (world Σ)) = (if isReady (world Σ) then [true] else []) /\
  (isReady (world Σ) = true ->
   In (EvMkdirAll uploadDir true) (events (world Σ)) /\ workers Σ = workerCount) /\
  (pc Σ = PcServing -> isReady (world Σ) = true) /\
  (forall l Σ', step Σ l Σ' -> isReady (world Σ) = true -> isReady (world Σ') = true) /\
  (forall s w r, unsent w ->
   exists w', handleReady s w r (world Σ) = Returned w' (world Σ) /\
     rw_status w' = Some (if isReady (world Σ) then StatusOK
                          else StatusServiceUnavailable)).
Proof.
  intros Hreach. destruct (ready_inv_reachable _ _ Hreach) as (Hcalls & Hstarted & Hpc).
  split; [reflexivity|]. split; [assumption|]. split; [assumption|].
  split; [intros Hs; rewrite Hs in Hpc; assumption|]. split.
  - intros l Σ' Hstep Hr.
    destruct (step_history _ _ _ Hstep) as (evs & _ & [(_ & _ & ?)|(_ & _ & ?)]);
      congruence.
  - intros s w r Hw. unfold handleReady, checkReady.
    destruct (isReady (world Σ)); eexists; (split; [reflexivity|]);
      apply rw_Write_status, WriteHeader_unsent; assumption.
Qed.

End Readiness.

Lemma readiness_flag_witness :
  let L := Demo.lib in
  exists Σ,
    run Demo.startup (boot Demo.disk) = Some Σ /\
    isReady (world Σ) = true /\ workers Σ = workerCount /\
    setReady_calls (events (world Σ)) = [true].
Proof.
  intros L.
  destruct (run Demo.startup (boot Demo.disk)) as [Σ|] eqn:E;
    [|vm_compute in E; discriminate].
  assert (Hr : isReady (world Σ) = true)
    by (vm_compute in E; injection E as <-; reflexivity).
  destruct (readiness_flag Demo.disk Σ) as (_ & Hcalls & Hstarted & _).
  { eapply run_reachable; [apply reach_boot|exact E]. }
  exists Σ. rewrite Hr in Hcalls. destruct (Hstarted Hr) as [_ Hw]. auto.
Defined.

(** C4, the part it gets wrong: [main] calls [setReady(true)] before
    [server.ListenAndServe()]. After the seven steps up to that call the
    flag is true and the listener is not bound yet; when the bind then
    fails the process exits with the flag true and no listener ever
    bound. *)
Lemma ready_before_listener_bound :
  let L := Demo.lib in
  let before := [LMkdir true; LSpawn; LSpawn; LSpawn; LSpawn; LLog; LSetReady] in
  let view Σ := (isReady (world Σ), pc Σ,
                 existsb (fun e => match e with EvListen true => true | _ => false end)
                         (events (world Σ))) in
  view <$> run before (boot Demo.disk) = Some (true, PcListen, false) /\
  view <$> run (before ++ [LListen false]) (boot Demo.disk)
    = Some (true, PcExited, false).
Proof. intros L before view. split; vm_compute; reflexivity. Qed.

(** ** The worker's write *)

Section Release.

(** C9. Whatever happens, [writeToFile] leaves the number of writers lent
    by the pool and the number of open files as it found them, and does not
    touch the queue (a failed job is not put back), the readiness flag or
    any response. Either the file cannot be created: this is logged, and
    no writer is taken from the pool. Or it is created and a writer is
    taken: then, whether the write and the flush succeed or one of them
    fails and is logged, the history ends with the writer put back in the
    pool and the file closed. *)
Theorem writeToFile_releases p name σ :
  lent (writeToFile p name σ) = lent σ /\
  open_files (os (writeToFile p name σ)) = open_files (os σ) /\
  writeQueue (writeToFile p name σ) = writeQueue σ /\
  isReady (writeToFile p name σ) = isReady σ /\
  exists evs,
    events (writeToFile p name σ) = events σ ++ evs /\
    Forall (fun e => forall st, e <> EvRespond st) evs /\
    ((name ∈ denied (os σ) /\
      evs = [EvCreate name false; EvLog ("ERROR: Failed to create file " +:+ name)] /\
      bufferPool (writeToFile p name σ) = bufferPool σ /\
      os (writeToFile p name σ) = os σ)
     \/
     ((name ∉ denied (os σ)) /\
      (exists b, bufferPool (writeToFile p name σ) = b :: tail (bufferPool σ)) /\
      exists logs,
        evs = [EvCreate name true; EvPoolGet] ++ logs ++ [EvPoolPut; EvClose name] /\
        ((accepts (os σ) p = length p /\ logs = [] /\
          files (os (writeToFile p name σ)) !! name = Some p)
         \/ (accepts (os σ) p < length p /\ bufio.size < length p /\
             logs = [EvLog ("ERROR: Failed to write to file " +:+ name)])
         \/ (accepts (os σ) p < length p /\ length p <= bufio.size /\
             logs = [EvLog ("ERROR: Failed to flush buffer for file " +:+ name)])))).
Proof.
  destruct (decide (name ∈ denied (os σ))) as [Hd|Hd].
  - rewrite (writeToFile_denied _ _ _ Hd).
    cbn [lent os writeQueue isReady events bufferPool].
    repeat (split; [reflexivity|]).
    unfold write_trace. destruct (decide (name ∈ denied (os σ))); [|contradiction].
    eexists. split; [reflexivity|]. split.
    + repeat constructor; discriminate.
    + left. auto.
  - destruct (writeToFile_created p _ _ Hd) as [b ->].
    cbn [lent os writeQueue isReady events bufferPool stored open_files files].
    repeat (split; [reflexivity|]).
    unfold write_trace. destruct (decide (name ∈ denied (os σ))); [contradiction|].
    eexists. split; [reflexivity|]. split.
    + destruct (accepts (os σ) p <? length p); repeat constructor; discriminate.
    + right. split; [assumption|]. split; [eauto|].
      destruct (Nat.ltb_spec (accepts (os σ) p) (length p)) as [Hshort|Hall].
      * eexists. split; [reflexivity|]. right.
        destruct (Nat.ltb_spec bufio.size (length p)); auto.
      * exists []. split; [reflexivity|]. left.
        pose proof (accepts_le (os σ) p).
        assert (Hacc : accepts (os σ) p = length p) by lia.
        rewrite lookup_insert_eq, Hacc, firstn_all. auto.
Qed.

End Release.

Lemma writeToFile_releases_witness :
  let σ := set_os {| files := ∅; denied := ∅; quota := Some 3; open_files := 0 |}
             Demo.σ0 in
  lent (writeToFile Demo.a1 "uploads/x" σ) = lent σ /\
  open_files (os (writeToFile Demo.a1 "uploads/x" σ)) = open_files (os σ) /\
  events (writeToFile Demo.a1 "uploads/x" σ) =
    [EvCreate "uploads/x" true; EvPoolGet;
     EvLog "ERROR: Failed to flush buffer for file uploads/x";
     EvPoolPut; EvClose "uploads/x"].
Proof.
  intros σ.
  destruct (writeToFile_releases Demo.a1 "uploads/x" σ) as (Hl & Ho & _).
  split; [exact Hl|]. split; [exact Ho|]. vm_compute. reflexivity.
Defined.

(** ** Where files go *)

Section UploadDir.

Context `{GoLib}.

Lemma jobOf_direct_child s r P :
  filepath.direct_child (filepath.Clean uploadDir) (path (jobOf s r P)).
Proof.
  destruct (fileName_plain s r P) as (Hs & _ & _ & Hd).
  exists (fileName s r P). split; [reflexivity|]. split; [assumption|].
  repeat split; intros E; rewrite E in Hd; discriminate.
Qed.

Lemma step_os Σ l Σ' :
  step Σ l Σ' ->
  os (world Σ') = os (world Σ) \/
  exists i req, l = LWrite i /\ busy Σ !! i = Some req /\
    os (world Σ') = os (writeToFile (data req) (path req) (world Σ)).
Proof.
  intros Hstep. apply step_inv in Hstep.
  destruct l as [ok| | | |ok|s r| |i].
  - destruct Hstep as (_ & _ & _ & _ & ->). left. reflexivity.
  - destruct Hstep as (i & _ & _ & _ & _ & _ & ->). left. reflexivity.
  - destruct Hstep as (i & _ & _ & _ & _ & _ & ->). left. reflexivity.
  - destruct Hstep as (_ & _ & _ & _ & ->). left. reflexivity.
  - destruct Hstep as (_ & _ & _ & _ & ->). left. reflexivity.
  - destruct Hstep as (_ & _ & _ & _ & w' & Hserve).
    destruct (serve_world _ _ _ _ _ Hserve) as (jobs & evs & -> & _). left. reflexivity.
  - destruct Hstep as (req & q & _ & -> & _). left. reflexivity.
  - destruct Hstep as (req & Hreq & -> & _). right. eauto.
Qed.

(** The jobs a step leaves in the queue or with the workers were there
    before, or are the one job of the request just served. *)
Lemma step_jobs Σ l Σ' job :
  step Σ l Σ' ->
  In job (writeQueue (world Σ') ++ busy Σ') ->
  In job (writeQueue (world Σ) ++ busy Σ) \/
  exists s r P, job = jobOf s r P.
Proof.
  intros Hstep Hin. pose proof (step_inv _ _ _ Hstep) as Hinv.
  destruct l as [ok| | | |ok|s r| |i].
  - destruct Hinv as (_ & _ & Hb & _ & Hw). rewrite Hb, Hw in Hin.
    simpl in Hin. rewrite app_nil_r in Hin. auto.
  - destruct Hinv as (i & _ & _ & _ & _ & Hb & Hw). rewrite Hb, Hw in Hin.
    simpl in Hin. rewrite app_nil_r in Hin. auto.
  - destruct Hinv as (i & _ & _ & _ & _ & Hb & Hw). rewrite Hb, Hw in Hin.
    simpl in Hin. rewrite app_nil_r in Hin. auto.
  - destruct Hinv as (_ & _ & _ & Hb & Hw). rewrite Hb, Hw in Hin. auto.
  - destruct Hinv as (_ & _ & Hb & _ & Hw). rewrite Hb, Hw in Hin.
    simpl in Hin. rewrite app_nil_r in Hin. auto.
  - destruct Hinv as (_ & _ & _ & Hb & w' & Hserve).
    destruct (serve_world _ _ _ _ _ Hserve)
      as (jobs & evs & Hw & _ & [->|(_ & _ & P & _ & ->)] & _);
      rewrite Hb, Hw in Hin; simpl in Hin.
    + rewrite app_nil_r in Hin. auto.
    + rewrite !in_app_iff in Hin. simpl in Hin.
      destruct Hin as [[?|[<-|[]]]|?]; eauto using in_or_app.
  - destruct Hinv as (req & q & Hq & Hw & Hb & _). rewrite Hb, Hw, Hq in *.
    left. simpl in *. rewrite !in_app_iff in *. simpl in Hin. tauto.
  - destruct Hinv as (req & _ & Hw & Hb & _). rewrite Hb, Hw in Hin.
    destruct (writeToFile_frame (data req) (path req) (world Σ)) as (_ & Hq & _).
    rewrite Hq in Hin. left. rewrite in_app_iff in *.
    destruct Hin as [?|Hin]; [auto|right].
    apply list_elem_of_In in Hin. apply list_elem_of_In.
    eapply list_elem_of_delete_inv. eassumption.
Qed.

Lemma reachable_jobs o Σ job :
  reachable o Σ ->
  In job (writeQueue (world Σ) ++ busy Σ) ->
  exists s r P, job = jobOf s r P.
Proof.
  intros Hreach. revert job.
  induction Hreach as [|Σ l Σ' _ IH Hstep]; intros job Hin; [destruct Hin|].
  destruct (step_jobs _ _ _ _ Hstep Hin); auto.
Qed.

Lemma stored_other name p o q :
  q <> name -> files (stored name p o) !! q = files o !! q.
Proof. intros Hne. unfold stored. simpl. apply lookup_insert_ne. congruence. Qed.

(** C10. Whatever the request and its forwarded-for header, the path of
    the job an admitted POST enqueues is the upload directory joined with
    a name that holds no slash, backslash or colon, and this path is the
    entry of that name in the upload directory. Hence in every state the
    process can reach, every job in the queue or with a worker names an
    entry of the upload directory, and every file that differs from what
    was on the disk at the start is an entry of the upload directory. *)
Theorem files_stay_in_upload_dir o Σ :
  reachable o Σ ->
  (forall s w r σ w' σ',
     unsent w -> handlePost s w r σ = Returned w' σ' ->
     rw_status w' = Some StatusAccepted ->
     exists P name,
       writeQueue σ' =
         writeQueue σ ++ [{| data := P; path := filepath.Join [uploadDir; name] |}] /\
       filepath.Join [uploadDir; name] = ("uploads/" +:+ name)%string /\
       mem_char "/" name = false /\ mem_char "\" name = false /\
       mem_char ":" name = false) /\
  (forall job, In job (writeQueue (world Σ) ++ busy Σ) ->
     filepath.direct_child (filepath.Clean uploadDir) (path job)) /\
  (forall q, files (os (world Σ)) !! q = files o !! q \/
             filepath.direct_child (filepath.Clean uploadDir) q).
Proof.
  intros Hreach. split; [|split].
  - intros s w r σ w' σ' Hw Hret Hst.
    destruct (handlePost_world _ _ _ _ _ _ Hw Hret)
      as (evs & _ & [(_ & Herr)|(P & _ & _ & _ & -> & _)]).
    { rewrite Hst in Herr. destruct (not_client_error_accepted Herr). }
    exists P, (fileName s r P).
    destruct (fileName_plain s r P) as (Hs & Hb & Hc & _).
    rewrite fullPath_code. repeat split; assumption.
  - intros job Hin.
    destruct (reachable_jobs _ _ _ Hreach Hin) as (s & r & P & ->).
    apply jobOf_direct_child.
  - induction Hreach as [|Σ l Σ' Hreach IH Hstep]; intros q; [left; reflexivity|].
    destruct (step_os _ _ _ Hstep) as [->|(i & req & -> & Hreq & ->)]; [apply IH|].
    destruct (writeToFile_frame (data req) (path req) (world Σ)) as (_ & _ & _ & _ & ->).
    destruct (decide (path req ∈ denied (os (world Σ)))); [apply IH|].
    destruct (decide (q = path req)) as [->|Hne].
    + right.
      assert (Hin : In req (writeQueue (world Σ) ++ busy Σ)).
      { apply in_or_app. right. apply list_elem_of_In.
        eapply list_elem_of_lookup_2. eassumption. }
      destruct (reachable_jobs _ _ _ Hreach Hin) as (s & r & P & ->).
      apply jobOf_direct_child.
    + rewrite stored_other by assumption. apply IH.
Qed.

End UploadDir.

Lemma files_stay_in_upload_dir_witness :
  let L := Demo.lib in
  let r := Demo.post [("X-Forwarded-For", "../../etc/passwd")%string]
             Demo.a1 false in
  let s := Demo.sched true in
  exists Σ,
    run (Demo.startup ++ [LRequest s r; LReceive; LWrite 0]) (boot Demo.disk)
      = Some Σ /\
    files (os (world Σ))
      !! "../../etc/passwd-2025-01-02-03_04_05.000000006-42.json"%string = None /\
    files (os (world Σ))
      !! "uploads/.._.._etc_passwd-2025-01-02-03_04_05.000000006-42.json"%string
      = Some Demo.a1 /\
    forall q, files (os (world Σ)) !! q = files Demo.disk !! q \/
              filepath.direct_child (filepath.Clean uploadDir) q.
Proof.
  intros L r s.
  destruct (run (Demo.startup ++ [LRequest s r; LReceive; LWrite 0])
              (boot Demo.disk)) as [Σ|] eqn:E; [|vm_compute in E; discriminate].
  exists Σ. split; [reflexivity|].
  assert (Hreach : reachable Demo.disk Σ)
    by (eapply run_reachable; [apply reach_boot|exact E]).
  split; [|split].
  - vm_compute in E. injection E as <-. vm_compute. reflexivity.
  - vm_compute in E. injection E as <-. vm_compute. reflexivity.
  - apply (files_stay_in_upload_dir Demo.disk Σ Hreach).
Defined.

(** ** The client address *)

Section ClientAddress.

Context `{GoLib}.

Lemma readBody_congr r r' :
  Body r' = Body r ->
  Header_Get (Header r') "Content-Encoding" = Header_Get (Header r) "Content-Encoding" ->
  readBody r' = readBody r.
Proof. intros Hb Hh. unfold readBody. rewrite Hb, Hh. reflexivity. Qed.

(** C8. The address comes from the forwarded-for header when it has a
    value: the text before its first comma, trimmed; otherwise it is the
    host of the peer address, empty when that cannot be split. It is
    sanitized byte by byte: colon, slash and backslash become underscores,
    every other byte stays. The file name of an admitted POST starts with
    the sanitized address, or with [unknown] when that is empty. And the
    address decides nothing else: two requests that differ only in where
    they come from get the same answer. *)
Theorem client_address_in_file_name s w r σ :
  unsent w ->
  let forwarded := Header_Get (Header r) "X-Forwarded-For" in
  let first := hd EmptyString (Split forwarded ",") in
  (forwarded <> EmptyString -> getClientIP r = strings_TrimSpace first) /\
  (exists rest, mem_char "," first = false /\
     (forwarded = first \/ forwarded = (first +:+ "," +:+ rest)%string)) /\
  (forwarded = EmptyString ->
   getClientIP r = match net_SplitHostPort (RemoteAddr r) with
                   | Some (host, _) => host
                   | None => EmptyString
                   end) /\
  (forall i, String.get i (sanitizeIP (getClientIP r)) =
             sanitize_byte <$> String.get i (getClientIP r)) /\
  String.length (sanitizeIP (getClientIP r)) = String.length (getClientIP r) /\
  (forall w' σ',
     handlePost s w r σ = Returned w' σ' ->
     rw_status w' = Some StatusAccepted ->
     exists P ext,
       writeQueue σ' =
         writeQueue σ ++
         [{| data := P;
             path := ("uploads/" +:+
                      (if decide (sanitizeIP (getClientIP r) = EmptyString)
                       then "unknown" else sanitizeIP (getClientIP r)) +:+
                      "-" +:+ Format (now s) +:+ "-" +:+ Itoa (rnd s) +:+ ext)%string |}]) /\
  (forall r',
     Method r' = Method r -> Body r' = Body r -> ctxDone r' = ctxDone r ->
     Header_Get (Header r') "Content-Encoding" = Header_Get (Header r) "Content-Encoding" ->
     match handlePost s w r σ, handlePost s w r' σ with
     | Returned w1 _, Returned w2 _ => w1 = w2
     | Parked, Parked => True
     | _, _ => False
     end).
Proof.
  intros Hw forwarded first.
  assert (Haddr : clientAddress r =
            if decide (sanitizeIP (getClientIP r) = EmptyString)
            then "unknown"%string else sanitizeIP (getClientIP r)).
  { rewrite <- clientAddress_code. cbv zeta.
    destruct (decide (sanitizeIP (getClientIP r) = EmptyString)) as [E|E].
    - rewrite E. reflexivity.
    - apply String.eqb_neq in E. rewrite E. reflexivity. }
  split; [|split; [|split; [|split; [|split; [|split]]]]].
  - intros Hne%String.eqb_neq. unfold getClientIP. fold forwarded.
    rewrite Hne. reflexivity.
  - destruct (Split_first forwarded ",") as (rest & Hm & Hs). exists rest. auto.
  - intros Hnone. unfold getClientIP. fold forwarded. rewrite Hnone. reflexivity.
  - intros i. apply sanitizeIP_get.
  - apply sanitizeIP_length.
  - intros w' σ' Hret Hst.
    destruct (handlePost_world _ _ _ _ _ _ Hw Hret)
      as (evs & _ & [(_ & Herr)|(P & _ & _ & _ & -> & _)]).
    { rewrite Hst in Herr. destruct (not_client_error_accepted Herr). }
    exists P, (if json_Valid P then ".json" else ".txt")%string.
    rewrite <- Haddr. reflexivity.
  - intros r' Hm Hb Hd Hh. rewrite !handlePost_unfold, Hm, Hd.
    rewrite (readBody_congr _ _ Hb Hh).
    destruct (negb (String.eqb (Method r) MethodPost)); [reflexivity|].
    destruct (readBody r) as [[m e]|P]; [reflexivity|].
    unfold select_send.
    destruct (length (writeQueue σ) <? writeQueueCap), (ctxDone r);
      try destruct (coin s); reflexivity.
Qed.

End ClientAddress.

Lemma client_address_in_file_name_witness :
  let L := Demo.lib in
  let r := Demo.post [("X-Forwarded-For", " 2001:db8::1 , 10.0.0.9")%string]
             Demo.a1 false in
  let s := Demo.sched true in
  getClientIP r = "2001:db8::1"%string /\
  sanitizeIP (getClientIP r) = "2001_db8__1"%string /\
  exists P ext,
    writeQueue (set_writeQueue [jobOf s r Demo.a1] Demo.σ0) =
      writeQueue Demo.σ0 ++
      [{| data := P;
          path := ("uploads/" +:+
                   (if decide (sanitizeIP (getClientIP r) = EmptyString)
                    then "unknown" else sanitizeIP (getClientIP r)) +:+
                   "-" +:+ Format (now s) +:+ "-" +:+ Itoa (rnd s) +:+ ext)%string |}].
Proof.
  intros L r s.
  destruct (client_address_in_file_name s newResponseWriter r Demo.σ0 eq_refl)
    as (_ & _ & _ & _ & _ & Hname & _).
  split; [vm_compute; reflexivity|]. split; [vm_compute; reflexivity|].
  apply (Hname (accepted newResponseWriter true)).
  - vm_compute. reflexivity.
  - reflexivity.
Defined.

(** ** Scenarios *)

(** A POST of [{"a":1}] is answered 202 with the JSON message; once a
    worker has run, the upload directory holds one file, with the
    extension [.json] and exactly that content. *)
Example scenario_json :
  let L := Demo.lib in
  let r := Demo.post [] Demo.a1 false in
  let s := Demo.sched true in
  (fun out => (rw_status out.1, rw_body out.1)) <$> serve s r Demo.σ0
    = Some (Some StatusAccepted, ("JSON stored" +:+ nl)%string) /\
  (fun Σ => files (os (world Σ))) <$>
    run (Demo.startup ++ [LRequest s r; LReceive; LWrite 0]) (boot Demo.disk)
    = Some {[ "uploads/10.0.0.1-2025-01-02-03_04_05.000000006-42.json"%string
              := Demo.a1 ]}.
Proof. intros L r s. split; vm_compute; reflexivity. Qed.

(** A POST of [not json] is answered 202 and stored as it is, with the
    extension [.txt]. *)
Example scenario_text :
  let L := Demo.lib in
  let r := Demo.post [] (Demo.bytes "not json") false in
  let s := Demo.sched true in
  (fun out => rw_status out.1) <$> serve s r Demo.σ0 = Some (Some StatusAccepted) /\
  (fun Σ => files (os (world Σ))) <$>
    run (Demo.startup ++ [LRequest s r; LReceive; LWrite 0]) (boot Demo.disk)
    = Some {[ "uploads/10.0.0.1-2025-01-02-03_04_05.000000006-42.txt"%string
              := Demo.bytes "not json" ]}.
Proof. intros L r s. split; vm_compute; reflexivity. Qed.

(** A POST marked as gzip whose body is not a gzip stream is answered
    400; nothing is queued and no file appears. *)
Example scenario_corrupt_gzip :
  let L := Demo.lib in
  let r := Demo.post [("Content-Encoding", "gzip")%string] (Demo.bytes "junk") false in
  let s := Demo.sched true in
  (fun out => (rw_status out.1, writeQueue out.2)) <$> serve s r Demo.σ0
    = Some (Some StatusBadRequest, []) /\
  (fun Σ => files (os (world Σ))) <$>
    run (Demo.startup ++ [LRequest s r]) (boot Demo.disk) = Some ∅.
Proof. intros L r s. split; vm_compute; reflexivity. Qed.

(** The readiness probe answers 503 on the world as it is when the
    process starts, and 200 once [main] has come to serve. *)
Example scenario_ready :
  let L := Demo.lib in
  let probe := {| Method := "GET"; URLPath := "/v1/ready"; Header := [];
                  RemoteAddr := "10.0.0.1:5000";
                  Body := {| rd_bytes := []; rd_err := None |}; ctxDone := false |} in
  let s := Demo.sched true in
  (fun out => rw_status out.1) <$> serve s probe Demo.σ0
    = Some (Some StatusServiceUnavailable) /\
  (fun Σ => (fun out => rw_status out.1) <$> serve s probe (world Σ)) <$>
    run Demo.startup (boot Demo.disk) = Some (Some (Some StatusOK)).
Proof. intros L probe s. split; vm_compute; reflexivity. Qed.

(** * Further properties *)

(** ** The answers of the server, case by case *)

Section Served.

Context `{GoLib}.

Lemma respondWithError_eq w c m e σ :
  respondWithError w c m e σ = (refusal w c m, grown σ [] [EvLog (error_line m e)]).
Proof.
  unfold respondWithError, refusal, error_line. rewrite log_Print_grown.
  destruct e; reflexivity.
Qed.

Lemma mux_redirect_or_routed r :
  (Method r <> "CONNECT"%string /\ cleanPath (URLPath r) <> URLPath r /\
   (negb (String.eqb (Method r) "CONNECT")
    && negb (String.eqb (cleanPath (URLPath r)) (URLPath r))) = true)
  \/ routed r (mux_match (URLPath r)).
Proof.
  unfold routed.
  destruct (String.eqb_spec (Method r) "CONNECT") as [Hc|Hc]; [right; auto|].
  destruct (String.eqb_spec (cleanPath (URLPath r)) (URLPath r)) as [Hp|Hp];
    [right; auto|left; auto].
Qed.

(** The chain returns in one of the ways of [served], with the access log
    line last; it stays blocked only in the [select] of a POST to the
    collection, with the queue full and the context not done; it never
    panics. *)
Lemma handler_served s r σ :
  match handler s newResponseWriter r σ with
  | Returned w' σ' =>
      exists jobs evs, served s r σ w' jobs evs /\
        σ' = grown σ jobs (evs ++ [EvLog (access_line r)])
  | Parked =>
      routed r RouteCollection /\ Method r = MethodPost /\
      (exists P, readBody r = inr P) /\
      writeQueueCap <= length (writeQueue σ) /\ ctxDone r = false
  | Panicked _ _ => False
  end.
Proof.
  unfold handler, withRecover, withLogging, withCORS. fold corsWriter.
  assert (Hret : forall w' jobs evs,
            served s r σ w' jobs evs ->
            exists jobs' evs', served s r σ w' jobs' evs' /\
              log_Print (Method r +:+ " " +:+ URLPath r) (grown σ jobs evs) =
              grown σ jobs' (evs' ++ [EvLog (access_line r)])).
  { intros w' jobs evs Hs. exists jobs, evs. split; [assumption|].
    rewrite log_Print_grown, grown_grown, app_nil_r. reflexivity. }
  assert (Hret0 : forall w',
            served s r σ w' [] [] ->
            exists jobs' evs', served s r σ w' jobs' evs' /\
              log_Print (Method r +:+ " " +:+ URLPath r) σ =
              grown σ jobs' (evs' ++ [EvLog (access_line r)])).
  { intros w' Hs. destruct (Hret _ _ _ Hs) as (jobs & evs & Hs' & Heq).
    rewrite grown_nil in Heq. eauto. }
  destruct (String.eqb_spec (Method r) MethodOptions) as [Ho|Ho].
  { apply Hret0. constructor. assumption. }
  destruct (mux_redirect_or_routed r) as [(Hc & Hp & Hcond)|Hroute].
  { unfold mux. rewrite Hcond. apply Hret0. constructor; assumption. }
  rewrite (mux_routed _ _ _ _ _ Hroute).
  destruct (mux_match (URLPath r)) eqn:Hm.
  - unfold handleSubmit.
    destruct (String.eqb_spec (Method r) MethodPost) as [Hpost|Hpost].
    + rewrite handlePost_unfold.
      destruct (String.eqb_spec (Method r) MethodPost) as [_|Hn]; [|contradiction].
      simpl negb. cbv iota.
      destruct (readBody r) as [[m e]|P] eqn:Hread.
      * unfold returned. rewrite respondWithError_eq. cbn [fst snd].
        apply Hret. econstructor; eassumption.
      * destruct (select_send_cases (writeQueue σ) (jobOf s r P) (ctxDone r) (coin s))
          as [(-> & Hfull & Hdone)|[(-> & Hfree)|(-> & Hdone)]].
        -- eauto 10.
        -- rewrite set_writeQueue_grown. apply Hret. econstructor; eassumption.
        -- unfold returned. rewrite respondWithError_eq. cbn [fst snd].
           apply Hret. econstructor; eassumption.
    + destruct (String.eqb_spec (Method r) MethodGet) as [Hget|Hget].
      * apply Hret0. apply served_alive; assumption.
      * rewrite respondWithError_eq. apply Hret. apply served_method; assumption.
  - unfold handleHealth. apply Hret0.
    apply served_health; assumption.
  - unfold handleReady, checkReady.
    replace (if isReady σ
             then Returned (rw_Write ("READY" +:+ nl) (WriteHeader StatusOK corsWriter)) σ
             else Returned (rw_Write ("NOT READY" +:+ nl)
                              (WriteHeader StatusServiceUnavailable corsWriter)) σ)
      with (Returned (readiness (isReady σ) corsWriter) σ)
      by (unfold readiness; destruct (isReady σ); reflexivity).
    apply Hret0. apply served_ready; assumption.
  - apply Hret0. apply served_notfound; assumption.
Qed.

End Served.

Section ServedFacts.

Context `{GoLib}.

Lemma served_status s r σ w jobs evs :
  served s r σ w jobs evs -> exists c, rw_status w = Some c.
Proof.
  destruct 1; try (eexists; reflexivity).
  - destruct (isReady σ); eexists; reflexivity.
  - destruct (json_Valid P); eexists; reflexivity.
Qed.

(** What [serve] returns: one of the answers of [served], the access log
    line and the record of the response. *)
Lemma serve_served s r σ w' σ' :
  serve s r σ = Some (w', σ') ->
  exists jobs evs, served s r σ w' jobs evs /\
    σ' = grown σ jobs (evs ++ [EvLog (access_line r); EvRespond (rw_status w')]).
Proof.
  unfold serve. intros Hserve. pose proof (handler_served s r σ) as Hh.
  destruct (handler s newResponseWriter r σ) as [w1 σ1| |w1 σ1]; try discriminate.
  destruct Hh as (jobs & evs & Hs & ->).
  destruct (served_status _ _ _ _ _ _ Hs) as [c Hc].
  rewrite (WriteHeader_sent _ _ _ Hc) in Hserve. injection Hserve as <- <-.
  exists jobs, evs. split; [assumption|].
  unfold emit, grown. simpl. rewrite <- !app_assoc. reflexivity.
Qed.

(** [serve] gives no answer only while a POST to the collection waits
    for room in the queue. *)
Lemma serve_none s r σ :
  serve s r σ = None ->
  routed r RouteCollection /\ Method r = MethodPost /\
  (exists P, readBody r = inr P) /\
  writeQueueCap <= length (writeQueue σ) /\ ctxDone r = false.
Proof.
  unfold serve. intros Hserve. pose proof (handler_served s r σ) as Hh.
  destruct (handler s newResponseWriter r σ) as [w1 σ1| |w1 σ1];
    [discriminate|assumption|destruct Hh].
Qed.

Lemma routed_unique r a b : routed r a -> routed r b -> a = b.
Proof. intros [_ <-] [_ <-]. reflexivity. Qed.

Lemma routed_not_redirect r a :
  routed r a -> Method r <> "CONNECT"%string -> cleanPath (URLPath r) <> URLPath r -> False.
Proof. intros [[?|?] _] ? ?; contradiction. Qed.

(** The two messages of a body that cannot be read. *)
Lemma readBody_message r m e :
  readBody r = inl (m, e) ->
  m = "Invalid gzip data"%string \/ m = "Failed to read request body"%string.
Proof.
  unfold readBody.
  destruct (if String.eqb (Header_Get (Header r) "Content-Encoding") "gzip"
            then gzip_NewReader (MaxBytesReader (Body r) maxBodySize)
            else inr (MaxBytesReader (Body r) maxBodySize)) as [e0|rd].
  - intros [= <- _]. auto.
  - destruct (io_ReadAll rd); [intros [= <- _]; auto|discriminate].
Qed.

End ServedFacts.

(** ** Headers and bodies of the answers *)

Section AnswerShape.

Context `{GoLib}.

(** Every response of the server, whatever the route, the method and the
    outcome, carries the three CORS headers that [withCORS] sets. *)
Theorem cors_headers_on_every_response s r σ w' σ' :
  serve s r σ = Some (w', σ') ->
  Header_Get (rw_header w') "Access-Control-Allow-Origin" = "*"%string /\
  Header_Get (rw_header w') "Access-Control-Allow-Methods" = "GET, POST, OPTIONS"%string /\
  Header_Get (rw_header w') "Access-Control-Allow-Headers"
    = "Content-Type, Authorization"%string.
Proof.
  intros Hserve. destruct (serve_served _ _ _ _ _ Hserve) as (jobs & evs & Hs & _).
  destruct Hs; try (repeat split; reflexivity).
  - destruct (isReady σ); repeat split; reflexivity.
  - destruct (json_Valid P); repeat split; reflexivity.
Qed.


End AnswerShape.

Lemma cors_headers_on_every_response_witness :
  let L := Demo.lib in
  exists w' σ',
    serve (Demo.sched true) (bare "DELETE" "/nowhere") Demo.σ0 = Some (w', σ') /\
    rw_status w' = Some StatusNotFound /\
    Header_Get (rw_header w') "Access-Control-Allow-Origin" = "*"%string.
Proof.
  intros L.
  destruct (serve (Demo.sched true) (bare "DELETE" "/nowhere") Demo.σ0)
    as [[w' σ']|] eqn:E; [|vm_compute in E; discriminate].
  exists w', σ'. split; [reflexivity|]. split.
  - vm_compute in E. injection E as <- _. reflexivity.
  - apply (cors_headers_on_every_response _ _ _ _ _ E).
Defined.


Section Probes.

Context `{GoLib}.

(** The health route answers 200 with the body [OK] to every request
    that reaches it, whatever its method (but OPTIONS, which the CORS layer
    takes), its body and its headers, and whatever the readiness flag and
    the queue hold; the ready route answers every method the same way,
    with the value of the flag. Neither waits nor changes anything but the
    history. *)
Theorem probes_answer_every_method s r σ :
  Method r <> MethodOptions ->
  (routed r RouteHealth ->
   exists w', serve s r σ = Some (w', grown σ [] [EvLog (access_line r);
                                                  EvRespond (Some StatusOK)]) /\
     rw_status w' = Some StatusOK /\ rw_body w' = ("OK" +:+ nl)%string) /\
  (routed r RouteReady ->
   exists w' c, serve s r σ = Some (w', grown σ [] [EvLog (access_line r);
                                                    EvRespond (Some c)]) /\
     rw_status w' = Some c /\
     c = (if isReady σ then StatusOK else StatusServiceUnavailable) /\
     rw_body w' = ((if isReady σ then "READY" else "NOT READY") +:+ nl)%string).
Proof.
  intros Ho.
  assert (Hsome : forall rt, routed r rt -> rt <> RouteCollection ->
            exists w' σ', serve s r σ = Some (w', σ')).
  { intros rt Hrt Hne. destruct (serve s r σ) as [[w' σ']|] eqn:E; [eauto|].
    destruct (serve_none _ _ _ E) as (Hcol & _).
    destruct Hne. eapply routed_unique; eassumption. }
  split; intros Hrt.
  - destruct (Hsome _ Hrt ltac:(discriminate)) as (w' & σ' & E).
    destruct (serve_served _ _ _ _ _ E) as (jobs & evs & Hs & Hσ).
    destruct Hs;
      try (match goal with
           | Hx : routed r _ |- _ =>
               pose proof (routed_unique _ _ _ Hrt Hx); discriminate
           end);
      try contradiction.
    + destruct (routed_not_redirect _ _ Hrt); assumption.
    + exists (healthy corsWriter). rewrite E, Hσ. repeat split.
  - destruct (Hsome _ Hrt ltac:(discriminate)) as (w' & σ' & E).
    destruct (serve_served _ _ _ _ _ E) as (jobs & evs & Hs & Hσ).
    destruct Hs;
      try (match goal with
           | Hx : routed r _ |- _ =>
               pose proof (routed_unique _ _ _ Hrt Hx); discriminate
           end);
      try contradiction.
    + destruct (routed_not_redirect _ _ Hrt); assumption.
    + exists (readiness (isReady σ) corsWriter),
        (if isReady σ then StatusOK else StatusServiceUnavailable).
      rewrite E, Hσ. destruct (isReady σ); repeat split.
Qed.

End Probes.

Lemma probes_answer_every_method_witness :
  let L := Demo.lib in
  exists w',
    serve (Demo.sched true) (bare "POST" "/v1/health") Demo.σ0
      = Some (w', grown Demo.σ0 [] [EvLog (access_line (bare "POST" "/v1/health"));
                                    EvRespond (Some StatusOK)]) /\
    rw_status w' = Some StatusOK /\ rw_body w' = ("OK" +:+ nl)%string.
Proof.
  intros L.
  destruct (probes_answer_every_method (Demo.sched true) (bare "POST" "/v1/health")
              Demo.σ0) as [Hhealth _]; [discriminate|].
  apply Hhealth. split; [right; reflexivity|reflexivity].
Defined.

(** ** What a POST is answered *)

Section PostAnswers.

Context `{GoLib}.

(** [handleSubmit] calls [handlePost] for POST only, so the method check
    at the head of [handlePost] never fires in the server: no response
    carries its message [Only POST allowed], and every 405 carries the
    message of [handleSubmit]. *)
Theorem post_method_check_never_fires s r σ w' σ' :
  serve s r σ = Some (w', σ') ->
  rw_body w' <> encode_error "Only POST allowed" /\
  (rw_status w' = Some StatusMethodNotAllowed ->
   rw_body w' = encode_error "Only GET and POST allowed" /\
   Method r <> MethodPost /\ Method r <> MethodGet).
Proof.
  intros Hserve.
  destruct (serve_served _ _ _ _ _ Hserve) as (jobs & evs & Hs & _).
  destruct Hs as [Hm| | | | |? Hm|? ? ? ?|m e ? Hm Hread|P ? Hm|P ? Hm];
    (split; [|intros Hst]);
    try (intros E; vm_compute in E; discriminate);
    try (vm_compute in Hst; discriminate);
    try (destruct (isReady σ); first [ intros E; vm_compute in E; discriminate
                                     | vm_compute in Hst; discriminate ]);
    try (destruct (json_Valid P); first [ intros E; vm_compute in E; discriminate
                                        | vm_compute in Hst; discriminate ]).
  - auto.
  - destruct (readBody_message _ _ _ Hread) as [-> | ->];
      intros E; vm_compute in E; discriminate.
Qed.

End PostAnswers.

Lemma post_method_check_never_fires_witness :
  let L := Demo.lib in
  exists w' σ',
    serve (Demo.sched true) (bare "PUT" "/v1/collection") Demo.σ0 = Some (w', σ') /\
    rw_body w' = encode_error "Only GET and POST allowed".
Proof.
  intros L.
  destruct (serve (Demo.sched true) (bare "PUT" "/v1/collection") Demo.σ0)
    as [[w' σ']|] eqn:E; [|vm_compute in E; discriminate].
  exists w', σ'. split; [reflexivity|].
  destruct (post_method_check_never_fires _ _ _ _ _ E) as [_ H405].
  apply H405. vm_compute in E. injection E as <- _. reflexivity.
Defined.

Section PostAnswers2.

Context `{GoLib}.

Lemma payload_plain r :
  Header_Get (Header r) "Content-Encoding" <> "gzip"%string ->
  payload r = Some (rd_bytes (Body r)).
Proof. intros Hne%String.eqb_neq. unfold payload. rewrite Hne. reflexivity. Qed.


(** The body is decompressed only when the Content-Encoding header is
    exactly [gzip]: under any other value, or none, an admitted POST stores
    the bytes of the body as they were sent, a gzip stream included. *)
Theorem other_encodings_are_stored_as_sent s r σ w' σ' :
  serve s r σ = Some (w', σ') ->
  rw_status w' = Some StatusAccepted ->
  Header_Get (Header r) "Content-Encoding" <> "gzip"%string ->
  exists job, writeQueue σ' = writeQueue σ ++ [job] /\
              data job = rd_bytes (Body r).
Proof.
  intros Hserve Hst Hce.
  destruct (serve_served _ _ _ _ _ Hserve) as (jobs & evs & Hs & ->).
  destruct Hs as [Ho|Ho Hc Hp|Ho Hx|Ho Hx|Ho Hx|Hx Hg|Hx Ho Hg Hp
                 |m e Hx Hp Hr|P Hx Hp Hr Hd|P Hx Hp Hr Hf];
    try (vm_compute in Hst; discriminate).
  - destruct (isReady σ); vm_compute in Hst; discriminate.
  - exists (jobOf s r P). split; [reflexivity|].
    destruct (readBody_ok _ _ Hr) as (_ & _ & Hpay).
    rewrite (payload_plain _ Hce) in Hpay. injection Hpay as <-. reflexivity.
Qed.


End PostAnswers2.


Lemma other_encodings_are_stored_as_sent_witness :
  let L := Demo.lib in
  let r := Demo.post [("Content-Encoding", "GZIP")%string] Demo.bomb false in
  exists w' σ' job,
    serve (Demo.sched true) r Demo.σ0 = Some (w', σ') /\
    writeQueue σ' = writeQueue Demo.σ0 ++ [job] /\ data job = Demo.bomb.
Proof.
  intros L r.
  destruct (serve (Demo.sched true) r Demo.σ0) as [[w' σ']|] eqn:E;
    [|vm_compute in E; discriminate].
  destruct (other_encodings_are_stored_as_sent _ _ _ _ _ E) as (job & Hq & Hd).
  - vm_compute in E. injection E as <- _. reflexivity.
  - discriminate.
  - exists w', σ', job. auto.
Defined.


(** ** Addresses *)

Section Addresses.

Context `{GoLib}.

Lemma ReplaceAll_absent s old new :
  mem_char old s = false -> ReplaceAll s old new = s.
Proof.
  induction s as [|a s IH]; simpl; [reflexivity|].
  intros [Ha Hs]%orb_false_elim. rewrite Ha, (IH Hs). reflexivity.
Qed.

(** [sanitizeIP] leaves a string alone exactly when it holds no colon,
    slash or backslash, and sanitizing twice is sanitizing once. *)
Theorem sanitizeIP_idempotent ip :
  sanitizeIP (sanitizeIP ip) = sanitizeIP ip /\
  (sanitizeIP ip = ip <->
   mem_char ":" ip = false /\ mem_char "/" ip = false /\ mem_char "\" ip = false).
Proof.
  assert (Hid : forall x, mem_char ":" x = false -> mem_char "/" x = false ->
                          mem_char "\" x = false -> sanitizeIP x = x).
  { intros x Hc Hs Hb. unfold sanitizeIP.
    rewrite (ReplaceAll_absent x ":" "_" Hc), (ReplaceAll_absent x "/" "_" Hs).
    apply ReplaceAll_absent. assumption. }
  destruct (sanitizeIP_safe ip) as (Hc & Hs & Hb).
  split; [apply Hid; assumption|]. split.
  - intros <-. auto.
  - intros (? & ? & ?). apply Hid; assumption.
Qed.

(** When the forwarded-for header has a value whose first entry is blank,
    as when it starts with a comma, the address is empty and the peer
    address is not consulted: an admitted POST is filed under
    [unknown]. *)
Theorem blank_first_entry_hides_peer s r σ w' σ' :
  Header_Get (Header r) "X-Forwarded-For" <> EmptyString ->
  strings_TrimSpace (hd EmptyString (Split (Header_Get (Header r) "X-Forwarded-For") ","))
    = EmptyString ->
  getClientIP r = EmptyString /\
  (serve s r σ = Some (w', σ') ->
   rw_status w' = Some StatusAccepted ->
   exists P ext,
     writeQueue σ' =
       writeQueue σ ++
       [{| data := P;
           path := ("uploads/unknown-" +:+ Format (now s) +:+ "-" +:+
                    Itoa (rnd s) +:+ ext)%string |}]).
Proof.
  intros Hfw Htrim.
  assert (Hip : getClientIP r = EmptyString).
  { unfold getClientIP. apply String.eqb_neq in Hfw. rewrite Hfw. assumption. }
  split; [assumption|]. intros Hserve Hst.
  destruct (serve_served _ _ _ _ _ Hserve) as (jobs & evs & Hs & ->).
  destruct Hs as [Ho|Ho Hc Hp|Ho Hx|Ho Hx|Ho Hx|Hx Hg|Hx Ho Hg Hp
                 |m e Hx Hp Hr|P Hx Hp Hr Hd|P Hx Hp Hr Hf];
    try (vm_compute in Hst; discriminate).
  - destruct (isReady σ); vm_compute in Hst; discriminate.
  - exists P, (if json_Valid P then ".json" else ".txt")%string.
    cbn [writeQueue grown]. do 2 f_equal. unfold jobOf, fileName. f_equal.
    rewrite <- clientAddress_code, Hip. reflexivity.
Qed.

End Addresses.

Lemma sanitizeIP_idempotent_witness :
  sanitizeIP "10.0.0.1" = "10.0.0.1"%string.
Proof.
  destruct (sanitizeIP_idempotent "10.0.0.1") as [_ [_ Hid]].
  apply Hid. repeat split; reflexivity.
Defined.

Lemma blank_first_entry_hides_peer_witness :
  let L := Demo.lib in
  let r := Demo.post [("X-Forwarded-For", ", 10.0.0.9")%string] Demo.a1 false in
  RemoteAddr r = "10.0.0.1:5000"%string /\ getClientIP r = EmptyString.
Proof.
  intros L r. split; [reflexivity|].
  apply (blank_first_entry_hides_peer (Demo.sched true) r Demo.σ0
           newResponseWriter Demo.σ0).
  - discriminate.
  - reflexivity.
Defined.

(** ** Jobs, workers and resources over a run *)

Section Runs2.

Context `{GoLib}.

Lemma accepted_count_app a b :
  accepted_count (a ++ b) = accepted_count a + accepted_count b.
Proof.
  induction a as [|e a IH]; simpl; [reflexivity|].
  destruct e as [| | | | | | | | | |[c|]]; simpl; rewrite ?IH; lia.
Qed.

Lemma write_trace_accepted_count name p o : accepted_count (write_trace name p o) = 0.
Proof.
  unfold write_trace. destruct (decide (name ∈ denied o)); [reflexivity|].
  destruct (accepts o p <? length p); reflexivity.
Qed.

(** One 202 in the history of a request for each job it has queued. *)
Lemma served_accepted_count s r σ w jobs evs a :
  served s r σ w jobs evs ->
  accepted_count (evs ++ [EvLog a; EvRespond (rw_status w)]) = length jobs.
Proof.
  destruct 1; try reflexivity.
  - destruct (isReady σ); reflexivity.
  - destruct (json_Valid P); reflexivity.
Qed.

Lemma step_ledger l Σ Σ1 :
  step_fn l Σ = Some Σ1 ->
  writeQueue (world Σ) ++ sent_by l Σ Σ1 = received_by l Σ ++ writeQueue (world Σ1) /\
  accepted_count (events (world Σ1)) =
    accepted_count (events (world Σ)) + length (sent_by l Σ Σ1).
Proof.
  intros Hstep. pose proof (step_inv Σ l Σ1 Hstep) as Hinv.
  destruct l as [ok| | | |ok|s r| |i]; cbn [sent_by received_by].
  - destruct Hinv as (_ & _ & _ & _ & ->). cbn [writeQueue events grown].
    rewrite accepted_count_app, !app_nil_r. split; [reflexivity|].
    destruct ok; simpl; lia.
  - destruct Hinv as (i & _ & _ & _ & _ & _ & ->). cbn [writeQueue events grown].
    rewrite accepted_count_app, !app_nil_r. split; [reflexivity|]. simpl. lia.
  - destruct Hinv as (i & _ & _ & _ & _ & _ & ->). cbn [writeQueue events grown].
    rewrite accepted_count_app, !app_nil_r. split; [reflexivity|]. simpl. lia.
  - destruct Hinv as (_ & _ & _ & _ & ->). unfold setReady, emit.
    cbn [writeQueue events]. rewrite accepted_count_app, app_nil_r.
    split; [reflexivity|]. simpl. lia.
  - destruct Hinv as (_ & _ & _ & _ & ->). cbn [writeQueue events grown].
    rewrite accepted_count_app, !app_nil_r. split; [reflexivity|].
    destruct ok; simpl; lia.
  - destruct Hinv as (_ & _ & _ & _ & w' & Hserve).
    destruct (serve_served _ _ _ _ _ Hserve) as (jobs & evs & Hs & ->).
    cbn [writeQueue events grown]. rewrite drop_app_length, accepted_count_app.
    rewrite (served_accepted_count _ _ _ _ _ _ _ Hs). auto.
  - destruct Hinv as (req & q & Hq & -> & _). rewrite Hq.
    cbn [writeQueue events set_writeQueue]. rewrite app_nil_r. simpl. split; [reflexivity|lia].
  - destruct Hinv as (req & _ & -> & _).
    destruct (writeToFile_frame (data req) (path req) (world Σ))
      as (_ & -> & _ & -> & _).
    rewrite accepted_count_app, write_trace_accepted_count, !app_nil_r.
    split; [reflexivity|]. simpl. lia.
Qed.

Lemma ledger_balance ls : forall Σ Σ' sent recv,
  ledger ls Σ = Some (Σ', sent, recv) ->
  run ls Σ = Some Σ' /\
  writeQueue (world Σ) ++ sent = recv ++ writeQueue (world Σ') /\
  accepted_count (events (world Σ')) = accepted_count (events (world Σ)) + length sent.
Proof.
  induction ls as [|l ls IH]; intros Σ Σ' sent recv Hl; simpl in Hl |- *.
  - injection Hl as <- <- <-. rewrite app_nil_r. auto.
  - destruct (step_fn l Σ) as [Σ1|] eqn:Hstep; [|discriminate].
    destruct (ledger ls Σ1) as [[[Σ2 sent1] recv1]|] eqn:Hrest; [|discriminate].
    injection Hl as <- <- <-.
    destruct (IH _ _ _ _ Hrest) as (Hrun & Hq & Hc).
    destruct (step_ledger _ _ _ Hstep) as (Hq1 & Hc1).
    split; [assumption|]. split.
    + rewrite app_assoc, Hq1, <- !app_assoc, Hq. reflexivity.
    + rewrite Hc, Hc1, length_app. lia.
Qed.

(** Over any run from the start of the process, the jobs sent to the
    queue are, in order, the jobs the workers have received followed by
    the jobs still queued: a worker receives jobs in the order of their
    admission, and none is lost, repeated or made up. There are as many of
    them as 202 responses were sent. *)
Theorem jobs_are_received_in_order o ls Σ sent recv :
  ledger ls (boot o) = Some (Σ, sent, recv) ->
  run ls (boot o) = Some Σ /\
  sent = recv ++ writeQueue (world Σ) /\
  length sent = accepted_count (events (world Σ)).
Proof.
  intros Hl. destruct (ledger_balance _ _ _ _ _ Hl) as (Hrun & Hq & Hc).
  split; [assumption|]. split; [exact Hq|]. rewrite Hc. reflexivity.
Qed.

Lemma pool_inv_reachable o Σ : reachable o Σ -> pool_inv Σ.
Proof.
  induction 1 as [|Σ l Σ' _ IH Hstep].
  { unfold pool_inv, boot. simpl. auto. }
  destruct IH as (Hbusy & Hpc). pose proof (step_inv _ _ _ Hstep) as Hinv.
  unfold pool_inv.
  destruct l as [ok| | | |ok|s r| |i].
  - destruct Hinv as (Hp & -> & -> & -> & _). rewrite Hp in Hpc.
    split; [assumption|]. destruct ok; lia.
  - destruct Hinv as (i & Hp & Hlt & -> & -> & -> & _). rewrite Hp in Hpc.
    split; lia.
  - destruct Hinv as (i & Hp & Hge & -> & -> & -> & _). rewrite Hp in Hpc.
    split; lia.
  - destruct Hinv as (Hp & -> & -> & -> & _). rewrite Hp in Hpc. auto.
  - destruct Hinv as (Hp & -> & -> & -> & _). rewrite Hp in Hpc.
    split; [assumption|]. destruct ok; lia.
  - destruct Hinv as (Hp & -> & -> & -> & _). rewrite Hp in Hpc. auto.
  - destruct Hinv as (req & q & _ & _ & -> & Hlt & -> & ->).
    rewrite length_app. simpl. split; [lia|assumption].
  - destruct Hinv as (req & Hreq & _ & -> & -> & ->).
    split; [|assumption].
    assert (length (delete i (busy Σ)) <= length (busy Σ)); [|lia].
    apply sublist_length, sublist_delete.
Qed.

(** In every state the process can reach at most [workerCount] writes
    are under way, 4 in this build: no more workers than that are ever
    started, and a job leaves the queue only for an idle worker. *)
Theorem at_most_workerCount_writes o Σ :
  reachable o Σ ->
  length (busy Σ) <= workers Σ /\ workers Σ <= workerCount /\ workerCount = 4 /\
  forall Σ', step Σ LReceive Σ' -> length (busy Σ) < workers Σ.
Proof.
  intros Hreach. destruct (pool_inv_reachable _ _ Hreach) as (Hbusy & Hpc).
  split; [assumption|]. split; [|split; [reflexivity|]].
  - destruct (pc Σ); lia.
  - intros Σ' Hstep. apply step_inv in Hstep.
    destruct Hstep as (req & q & _ & _ & _ & Hlt & _). assumption.
Qed.

(** Between the steps of the process no writer of the pool is lent and no
    file is open: however many jobs were written, with or without
    failures, nothing leaks. *)
Theorem no_writer_or_file_leaks o Σ :
  reachable o Σ ->
  lent (world Σ) = 0 /\ open_files (os (world Σ)) = open_files o /\
  denied (os (world Σ)) = denied o.
Proof.
  induction 1 as [|Σ l Σ' _ IH Hstep]; [auto|].
  destruct IH as (Hl & Ho & Hd). pose proof (step_inv _ _ _ Hstep) as Hinv.
  destruct l as [ok| | | |ok|s r| |i].
  - destruct Hinv as (_ & _ & _ & _ & ->). auto.
  - destruct Hinv as (i & _ & _ & _ & _ & _ & ->). auto.
  - destruct Hinv as (i & _ & _ & _ & _ & _ & ->). auto.
  - destruct Hinv as (_ & _ & _ & _ & ->). auto.
  - destruct Hinv as (_ & _ & _ & _ & ->). auto.
  - destruct Hinv as (_ & _ & _ & _ & w' & Hserve).
    destruct (serve_served _ _ _ _ _ Hserve) as (jobs & evs & _ & ->). auto.
  - destruct Hinv as (req & q & _ & -> & _). auto.
  - destruct Hinv as (req & _ & -> & _).
    destruct (writeToFile_frame (data req) (path req) (world Σ))
      as (_ & _ & -> & _ & ->).
    destruct (decide (path req ∈ denied (os (world Σ)))); auto.
Qed.

End Runs2.

Lemma jobs_are_received_in_order_witness :
  let L := Demo.lib in
  let s := Demo.sched true in
  let r1 := Demo.post [] Demo.a1 false in
  let r2 := Demo.post [] (Demo.bytes "not json") false in
  exists Σ,
    ledger (Demo.startup ++ [LRequest s r1; LRequest s r2; LReceive]) (boot Demo.disk)
      = Some (Σ, [jobOf s r1 Demo.a1; jobOf s r2 (Demo.bytes "not json")],
              [jobOf s r1 Demo.a1]) /\
    writeQueue (world Σ) = [jobOf s r2 (Demo.bytes "not json")] /\
    accepted_count (events (world Σ)) = 2.
Proof.
  intros L s r1 r2.
  destruct (ledger (Demo.startup ++ [LRequest s r1; LRequest s r2; LReceive])
              (boot Demo.disk)) as [[[Σ sent] recv]|] eqn:E;
    [|vm_compute in E; discriminate].
  destruct (jobs_are_received_in_order _ _ _ _ _ E) as (_ & Hq & Hc).
  assert (Hsent : sent = [jobOf s r1 Demo.a1; jobOf s r2 (Demo.bytes "not json")]
                  /\ recv = [jobOf s r1 Demo.a1]).
  { vm_compute in E. injection E as _ <- <-. split; vm_compute; reflexivity. }
  destruct Hsent as [-> ->]. exists Σ. split; [reflexivity|].
  split; [|rewrite <- Hc; reflexivity].
  simpl in Hq. injection Hq as Hq. symmetry. exact Hq.
Defined.

Lemma at_most_workerCount_writes_witness :
  let L := Demo.lib in
  exists Σ, run Demo.startup (boot Demo.disk) = Some Σ /\
            length (busy Σ) <= workers Σ /\ workers Σ <= workerCount.
Proof.
  intros L.
  destruct (run Demo.startup (boot Demo.disk)) as [Σ|] eqn:E;
    [|vm_compute in E; discriminate].
  destruct (at_most_workerCount_writes Demo.disk Σ) as (Hb & Hw & _).
  { eapply run_reachable; [apply reach_boot|exact E]. }
  exists Σ. auto.
Defined.

Lemma no_writer_or_file_leaks_witness :
  let L := Demo.lib in
  let s := Demo.sched true in
  let r := Demo.post [] Demo.a1 false in
  exists Σ,
    run (Demo.startup ++ [LRequest s r; LReceive; LWrite 0]) (boot Demo.disk) = Some Σ /\
    lent (world Σ) = 0 /\ open_files (os (world Σ)) = 0.
Proof.
  intros L s r.
  destruct (run (Demo.startup ++ [LRequest s r; LReceive; LWrite 0]) (boot Demo.disk))
    as [Σ|] eqn:E; [|vm_compute in E; discriminate].
  destruct (no_writer_or_file_leaks Demo.disk Σ) as (Hl & Ho & _).
  { eapply run_reachable; [apply reach_boot|exact E]. }
  exists Σ. auto.
Defined.

(** ** Files on the disk *)

Section Disk.

Lemma accepts_unlimited o p : quota o = None -> accepts o p = length p.
Proof. unfold accepts. intros ->. reflexivity. Qed.

Lemma writeToFile_os p name σ :
  os (writeToFile p name σ) =
  if decide (name ∈ denied (os σ)) then os σ else stored name p (os σ).
Proof.
  destruct (decide (name ∈ denied (os σ))) as [Hd|Hd].
  - rewrite (writeToFile_denied _ _ _ Hd). reflexivity.
  - destruct (writeToFile_created p _ _ Hd) as [b ->]. reflexivity.
Qed.

(** When the file can be created, [writeToFile] leaves in it a prefix of
    the payload, whatever was there before; the file holds the whole
    payload exactly when the call logged nothing, that is when it added to
    the history the four events of a clean write and no more. A write
    that fails leaves its truncated file behind. *)
Theorem file_is_whole_unless_logged p name σ :
  name ∉ denied (os σ) ->
  files (os (writeToFile p name σ)) !! name = Some (take (accepts (os σ) p) p) /\
  (files (os (writeToFile p name σ)) !! name = Some p <->
   events (writeToFile p name σ) =
     events σ ++ [EvCreate name true; EvPoolGet; EvPoolPut; EvClose name]).
Proof.
  intros Hd. destruct (writeToFile_created p _ _ Hd) as [b ->].
  cbn [os events stored files]. rewrite lookup_insert_eq. split; [reflexivity|].
  unfold write_trace. destruct (decide (name ∈ denied (os σ))); [contradiction|].
  pose proof (accepts_le (os σ) p) as Hle.
  destruct (Nat.ltb_spec (accepts (os σ) p) (length p)) as [Hshort|Hall].
  - split.
    + intros [= E]. apply (f_equal length) in E. rewrite length_take in E. lia.
    + intros E. apply app_inv_head in E. discriminate.
  - split; [reflexivity|]. intros _.
    assert (Hacc : accepts (os σ) p = length p) by lia.
    rewrite Hacc, firstn_all. reflexivity.
Qed.

(** Writing to a name that already has a file replaces the file: after
    two writes to the same name on a device with room, the file holds the
    second payload and nothing of the first. Two jobs whose names collide
    leave one file. *)
Theorem later_write_replaces_earlier p1 p2 name σ :
  name ∉ denied (os σ) ->
  quota (os σ) = None ->
  files (os (writeToFile p2 name (writeToFile p1 name σ))) !! name = Some p2 /\
  files (os (writeToFile p2 name (writeToFile p1 name σ))) =
  files (os (writeToFile p2 name σ)).
Proof.
  intros Hd Hq. rewrite !writeToFile_os.
  destruct (decide (name ∈ denied (os σ))); [contradiction|].
  cbn [denied stored]. destruct (decide (name ∈ denied (os σ))); [contradiction|].
  cbn [files stored]. rewrite insert_insert_eq.
  assert (Hq1 : quota (stored name p1 (os σ)) = None)
    by (unfold stored; cbn [quota]; rewrite Hq; reflexivity).
  rewrite (accepts_unlimited _ _ Hq1), (accepts_unlimited _ _ Hq), firstn_all.
  split; [apply lookup_insert_eq|reflexivity].
Qed.

(** Writes to different names do not disturb each other: on a device
    with room the files after two writes are the same in either order, and
    a write leaves every other file as it was. *)
Theorem writes_to_other_names_commute p1 n1 p2 n2 σ :
  n1 <> n2 ->
  (forall q, q <> n1 ->
     files (os (writeToFile p1 n1 σ)) !! q = files (os σ) !! q) /\
  (quota (os σ) = None ->
   files (os (writeToFile p1 n1 (writeToFile p2 n2 σ))) =
   files (os (writeToFile p2 n2 (writeToFile p1 n1 σ)))).
Proof.
  intros Hne. split.
  - intros q Hq. rewrite writeToFile_os.
    destruct (decide (n1 ∈ denied (os σ))); [reflexivity|].
    apply stored_other. assumption.
  - intros Hq. rewrite !writeToFile_os.
    assert (Hs : forall n p, quota (stored n p (os σ)) = None)
      by (intros; unfold stored; cbn [quota]; rewrite Hq; reflexivity).
    destruct (decide (n1 ∈ denied (os σ))) as [H1|H1];
      destruct (decide (n2 ∈ denied (os σ))) as [H2|H2];
      cbn [denied stored];
      repeat match goal with
             | |- context [decide (?n ∈ denied (os σ))] =>
                 destruct (decide (n ∈ denied (os σ))); try contradiction
             end;
      try reflexivity.
    cbn [files stored].
    rewrite !accepts_unlimited by auto.
    apply insert_insert_ne. congruence.
Qed.

End Disk.

Lemma file_is_whole_unless_logged_witness :
  let σ := set_os {| files := ∅; denied := ∅; quota := Some 3; open_files := 0 |}
             Demo.σ0 in
  files (os (writeToFile Demo.a1 "uploads/x" σ)) !! "uploads/x"%string
    = Some (take 3 Demo.a1).
Proof.
  intros σ.
  destruct (file_is_whole_unless_logged Demo.a1 "uploads/x" σ) as [Hpre _].
  - vm_compute. discriminate.
  - exact Hpre.
Defined.

Lemma later_write_replaces_earlier_witness :
  files (os (writeToFile (Demo.bytes "second") "uploads/x"
               (writeToFile (Demo.bytes "first one") "uploads/x" Demo.σ0)))
    !! "uploads/x"%string = Some (Demo.bytes "second").
Proof.
  destruct (later_write_replaces_earlier (Demo.bytes "first one") (Demo.bytes "second")
              "uploads/x" Demo.σ0) as [Hsecond _].
  - vm_compute. discriminate.
  - reflexivity.
  - exact Hsecond.
Defined.

Lemma writes_to_other_names_commute_witness :
  files (os (writeToFile (Demo.bytes "a") "uploads/x"
               (writeToFile (Demo.bytes "b") "uploads/y" Demo.σ0))) =
  files (os (writeToFile (Demo.bytes "b") "uploads/y"
               (writeToFile (Demo.bytes "a") "uploads/x" Demo.σ0))).
Proof.
  destruct (writes_to_other_names_commute (Demo.bytes "a") "uploads/x"
              (Demo.bytes "b") "uploads/y" Demo.σ0) as [_ Hcomm].
  - discriminate.
  - apply Hcomm. reflexivity.
Defined.

(** ** Fatal errors at startup *)

Section Fatal.

Context `{GoLib}.

Lemma chatter_not_fatal evs : Forall chatter evs -> ~ In EvFatal evs.
Proof.
  induction 1 as [|e evs He _ IH]; intros Hin; [destruct Hin|].
  destruct Hin as [->|Hin]; [exact He|exact (IH Hin)].
Qed.

Lemma write_trace_not_fatal name p o : ~ In EvFatal (write_trace name p o).
Proof.
  unfold write_trace. destruct (decide (name ∈ denied o)).
  - intros [E|[E|[]]]; discriminate.
  - destruct (accepts o p <? length p); simpl; intuition discriminate.
Qed.

(** [log.Fatalf] ends the process. In every state the process can reach,
    a fatal error is in the history exactly when [main] has exited, and
    then nothing more happens: no request is served, no worker receives or
    writes. Requests are served only after the upload directory was
    created and the listener bound. *)
Theorem fatal_error_stops_the_process o Σ :
  reachable o Σ ->
  (In EvFatal (events (world Σ)) <-> pc Σ = PcExited) /\
  (pc Σ = PcExited -> forall l Σ', ~ step Σ l Σ') /\
  (pc Σ = PcServing ->
   In (EvMkdirAll uploadDir true) (events (world Σ)) /\
   In (EvListen true) (events (world Σ)) /\ workers Σ = workerCount).
Proof.
  intros Hreach.
  assert (Hstop : pc Σ = PcExited -> forall l Σ', ~ step Σ l Σ').
  { intros Hp l Σ'. unfold step, step_fn, exited. rewrite Hp. discriminate. }
  assert (Hinv : (In EvFatal (events (world Σ)) <-> pc Σ = PcExited) /\
                 (pc Σ = PcServing -> In (EvListen true) (events (world Σ)))).
  { clear Hstop. induction Hreach as [|Σ l Σ' _ IH Hstep].
    { simpl. split; [split; [intros []|discriminate]|discriminate]. }
    destruct IH as (Hfatal & Hlisten).
    assert (Hlive : pc Σ <> PcExited).
    { intros Hp. revert Hstep. unfold step, step_fn, exited. rewrite Hp. discriminate. }
    assert (Hnone : ~ In EvFatal (events (world Σ))) by (rewrite Hfatal; exact Hlive).
    pose proof (step_inv _ _ _ Hstep) as Hinv.
    destruct l as [ok| | | |ok|s r| |i].
    - destruct Hinv as (_ & _ & _ & -> & ->). cbn [events grown].
      rewrite in_app_iff. destruct ok; simpl; split;
        try discriminate; intuition discriminate.
    - destruct Hinv as (i & _ & _ & -> & _ & _ & ->). cbn [events grown].
      rewrite in_app_iff. simpl. split; try discriminate; intuition discriminate.
    - destruct Hinv as (i & _ & _ & -> & _ & _ & ->). cbn [events grown].
      rewrite in_app_iff. simpl. split; try discriminate; intuition discriminate.
    - destruct Hinv as (_ & -> & _ & _ & ->). unfold setReady, emit. cbn [events].
      rewrite in_app_iff. simpl. split; try discriminate; intuition discriminate.
    - destruct Hinv as (_ & _ & _ & -> & ->). cbn [events grown].
      rewrite !in_app_iff. destruct ok; simpl; split;
        try discriminate; intuition discriminate.
    - destruct Hinv as (Hp & -> & _ & _ & w' & Hserve).
      destruct (serve_world _ _ _ _ _ Hserve) as (jobs & evs & -> & Hevs & _).
      cbn [events grown]. rewrite !in_app_iff.
      pose proof (chatter_not_fatal _ Hevs). split; [split|]; try discriminate; tauto.
    - destruct Hinv as (req & q & _ & -> & _ & _ & Hp & _). rewrite Hp.
      cbn [events set_writeQueue]. auto.
    - destruct Hinv as (req & _ & -> & _ & Hp & _). rewrite Hp.
      destruct (writeToFile_frame (data req) (path req) (world Σ))
        as (_ & _ & _ & -> & _).
      rewrite !in_app_iff.
      pose proof (write_trace_not_fatal (path req) (data req) (os (world Σ))).
      split; [split|]; tauto. }
  destruct Hinv as (Hfatal & Hlisten).
  split; [assumption|]. split; [assumption|].
  intros Hp. destruct (ready_inv_reachable _ _ Hreach) as (_ & Hstarted & Hpc).
  rewrite Hp in Hpc. destruct (Hstarted Hpc) as (Hmk & Hw). auto.
Qed.

End Fatal.

Lemma fatal_error_stops_the_process_witness :
  let L := Demo.lib in
  exists Σ, run [LMkdir false] (boot Demo.disk) = Some Σ /\
            In EvFatal (events (world Σ)) /\
            forall l Σ', ~ step Σ l Σ'.
Proof.
  intros L.
  destruct (run [LMkdir false] (boot Demo.disk)) as [Σ|] eqn:E;
    [|vm_compute in E; discriminate].
  destruct (fatal_error_stops_the_process Demo.disk Σ) as (Hf & Hstop & _).
  { eapply run_reachable; [apply reach_boot|exact E]. }
  assert (Hp : pc Σ = PcExited) by (vm_compute in E; injection E as <-; reflexivity).
  exists Σ. split; [reflexivity|]. split; [apply Hf; assumption|auto].
Defined.

(** ** The healthCheck tool *)

Section HealthCheckFacts.

Context `{GoLib}.

(** The tool exits with status 0 exactly when the GET was answered 200:
    a failed connection and every other status give 1. The check type
    selects the readiness path only when it is [readiness], letter for
    letter; any other value probes the health path. *)
Theorem healthCheck_exit_status f get :
  ((HealthCheck.main f get).1 = 0%Z <->
   get (HealthCheck.genURL f (HealthCheck.checkType f)) = Some StatusOK) /\
  ((HealthCheck.main f get).1 = 0%Z \/ (HealthCheck.main f get).1 = 1%Z) /\
  (forall ct, ct <> "readiness"%string ->
              HealthCheck.genURL f ct = HealthCheck.genURL f "health").
Proof.
  unfold HealthCheck.main, HealthCheck.check.
  destruct (get (HealthCheck.genURL f (HealthCheck.checkType f))) as [st|].
  - destruct (N.eqb_spec st StatusOK) as [->|Hne]; simpl.
    + split; [tauto|]. split; [auto|].
      intros ct Hct%String.eqb_neq. unfold HealthCheck.genURL. rewrite Hct. reflexivity.
    + split; [split; [discriminate|intros [= ?]; contradiction]|].
      split; [auto|].
      intros ct Hct%String.eqb_neq. unfold HealthCheck.genURL. rewrite Hct. reflexivity.
  - simpl. split; [split; discriminate|]. split; [auto|].
    intros ct Hct%String.eqb_neq. unfold HealthCheck.genURL. rewrite Hct. reflexivity.
Qed.

(** The readiness check of the tool asks for [/v1/readiness], and the
    server registers its readiness handler at [/v1/ready]: the server
    answers that GET with 404 whatever its state, the flag true included,
    so against this server a readiness check always exits with status 1.
    The health check asks for [/v1/health], which the server answers with
    200, and exits with status 0. *)
Theorem readiness_check_misses_the_route f get s r σ :
  Method r = MethodGet ->
  (HealthCheck.checkType f = "readiness"%string ->
   URLPath r = "/v1/readiness"%string ->
   HealthCheck.genURL f (HealthCheck.checkType f) =
     ((if HealthCheck.useSSL f then "https" else "http") +:+ "://" +:+
      HealthCheck.host f +:+ ":" +:+ HealthCheck.Itoa (HealthCheck.port f) +:+
      URLPath r)%string /\
   exists w' σ', serve s r σ = Some (w', σ') /\
     rw_status w' = Some StatusNotFound /\
     (get (HealthCheck.genURL f (HealthCheck.checkType f)) = rw_status w' ->
      (HealthCheck.main f get).1 = 1%Z)) /\
  (HealthCheck.checkType f = "health"%string ->
   URLPath r = "/v1/health"%string ->
   HealthCheck.genURL f (HealthCheck.checkType f) =
     ((if HealthCheck.useSSL f then "https" else "http") +:+ "://" +:+
      HealthCheck.host f +:+ ":" +:+ HealthCheck.Itoa (HealthCheck.port f) +:+
      URLPath r)%string /\
   exists w' σ', serve s r σ = Some (w', σ') /\
     rw_status w' = Some StatusOK /\
     (get (HealthCheck.genURL f (HealthCheck.checkType f)) = rw_status w' ->
      (HealthCheck.main f get).1 = 0%Z)).
Proof.
  intros Hm.
  assert (Hsome : forall rt, routed r rt -> rt <> RouteCollection ->
            exists w' σ', serve s r σ = Some (w', σ')).
  { intros rt Hrt Hne. destruct (serve s r σ) as [[w' σ']|] eqn:E; [eauto|].
    destruct (serve_none _ _ _ E) as (Hcol & _).
    destruct Hne. eapply routed_unique; eassumption. }
  split; intros Hct Hp.
  - assert (Hrt : routed r RouteNone)
      by (unfold routed; rewrite Hp; split; [right|]; reflexivity).
    split; [unfold HealthCheck.genURL; rewrite Hct, Hp; reflexivity|].
    destruct (Hsome _ Hrt ltac:(discriminate)) as (w' & σ' & E).
    exists w', σ'. split; [assumption|].
    destruct (serve_served _ _ _ _ _ E) as (jobs & evs & Hs & _).
    assert (Hst : rw_status w' = Some StatusNotFound).
    { destruct Hs;
        try (match goal with
             | Hx : routed r _ |- _ =>
                 pose proof (routed_unique _ _ _ Hrt Hx); discriminate
             end);
        try (rewrite Hm in *; discriminate); try reflexivity.
      destruct (routed_not_redirect _ _ Hrt); assumption. }
    split; [assumption|]. intros Hget.
    unfold HealthCheck.main, HealthCheck.check. rewrite Hget, Hst. reflexivity.
  - assert (Hrt : routed r RouteHealth)
      by (unfold routed; rewrite Hp; split; [right|]; reflexivity).
    split; [unfold HealthCheck.genURL; rewrite Hct, Hp; reflexivity|].
    destruct (Hsome _ Hrt ltac:(discriminate)) as (w' & σ' & E).
    exists w', σ'. split; [assumption|].
    destruct (serve_served _ _ _ _ _ E) as (jobs & evs & Hs & _).
    assert (Hst : rw_status w' = Some StatusOK).
    { destruct Hs;
        try (match goal with
             | Hx : routed r _ |- _ =>
                 pose proof (routed_unique _ _ _ Hrt Hx); discriminate
             end);
        try (rewrite Hm in *; discriminate); try reflexivity.
      destruct (routed_not_redirect _ _ Hrt); assumption. }
    split; [assumption|]. intros Hget.
    unfold HealthCheck.main, HealthCheck.check. rewrite Hget, Hst. reflexivity.
Qed.

End HealthCheckFacts.

Lemma healthCheck_exit_status_witness :
  HealthCheck.genURL HealthCheck.defaults "ready" =
  "http://localhost:8080/v1/health"%string.
Proof.
  destruct (healthCheck_exit_status HealthCheck.defaults (fun _ => None))
    as (_ & _ & Hother).
  rewrite (Hother "ready"%string); [reflexivity|discriminate].
Defined.

Lemma readiness_check_misses_the_route_witness :
  let L := Demo.lib in
  let f := {| HealthCheck.host := "api"; HealthCheck.port := 8989;
              HealthCheck.useSSL := false; HealthCheck.checkType := "readiness" |} in
  HealthCheck.genURL f "readiness" = "http://api:8989/v1/readiness"%string /\
  (HealthCheck.main f (fun _ => Some StatusNotFound)).1 = 1%Z.
Proof.
  intros L f.
  destruct (readiness_check_misses_the_route f (fun _ => Some StatusNotFound)
              (Demo.sched true) (bare "GET" "/v1/readiness") Demo.σ0 eq_refl)
    as [Hready _].
  destruct (Hready eq_refl eq_refl) as (Hurl & w' & σ' & _ & Hst & Hexit).
  split; [exact Hurl|]. apply Hexit. rewrite Hst. reflexivity.
Defined.

(** ** Earlier revisions of the server *)

Section EarlierRevisions.

Context `{GoLib} `{GoJSON}.

Lemma Format_seconds_stamp t : all_chars stamp_byte (Format_seconds t) = true.
Proof.
  unfold Format_seconds. rewrite !all_chars_app.
  rewrite !(digits_stamp _ (appendInt_digits _ _)). reflexivity.
Qed.

(** A name that starts with [../] is resolved against the directory
    above the upload directory. *)
Lemma Join_escape name :
  mem_char "/" name = false ->
  mem_char "-" name = true ->
  filepath.Join [uploadDir; ("../" +:+ name)%string] = name.
Proof.
  intros Hslash Hdash.
  assert (Hne : String.eqb name "" = false)
    by (eapply eqb_false_of_mem; [eassumption|reflexivity]).
  assert (Hdot : String.eqb name "." = false)
    by (eapply eqb_false_of_mem; [eassumption|reflexivity]).
  assert (Hdd : String.eqb name ".." = false)
    by (eapply eqb_false_of_mem; [eassumption|reflexivity]).
  unfold filepath.Join, uploadDir. simpl List.filter. cbv iota beta.
  unfold filepath.Clean.
  change (GoString.Join ["./uploads"%string; ("../" +:+ name)%string] "/")
    with ("." +:+ String "/" ("uploads" +:+ String "/" (".." +:+ String "/" name)))%string.
  rewrite !Split_prefix by reflexivity.
  rewrite (Split_absent _ _ Hslash).
  change (HasPrefix ("." +:+ String "/" ("uploads" +:+ String "/" (".." +:+ String "/" name))) "/")
    with false.
  assert (Hfold : fold_left (filepath.clean_step false)
                    ["."%string; "uploads"%string; ".."%string; name] []
                  = [name]).
  { simpl fold_left.
    change (filepath.clean_step false
              (filepath.clean_step false (filepath.clean_step false [] ".") "uploads") "..")
      with (@nil string).
    unfold filepath.clean_step. rewrite Hne, Hdot, Hdd. reflexivity. }
  rewrite Hfold. cbn [rev app GoString.Join].
  change ("" +:+ name)%string with name. rewrite Hne. reflexivity.
Qed.

Lemma no_slash_not_child dir p :
  mem_char "/" p = false -> ~ filepath.direct_child dir p.
Proof.
  intros Hp (name & -> & _). rewrite mem_char_app in Hp.
  apply orb_false_elim in Hp as [_ Hp]. discriminate.
Qed.

Lemma http_Error_status w m c : unsent w -> rw_status (http_Error w m c) = Some c.
Proof.
  intros Hw. unfold http_Error. apply rw_Write_status, WriteHeader_unsent.
  unfold unsent. rewrite !Header_Set_status. exact Hw.
Qed.

Lemma stored_status w b :
  unsent w -> rw_status (rw_Write b (WriteHeader StatusAccepted w)) = Some StatusAccepted.
Proof. intros Hw. apply rw_Write_status, WriteHeader_unsent, Hw. Qed.

(** The first revision stores a request only when it is a POST whose
    body was read, is a JSON object and whose sender has an address: it
    then answers 202 and starts one goroutine with the body and a path
    made of the address and the time to the second. Every other request
    is answered 405, 400 or 500, and no goroutine is started; a request
    whose address cannot be told is answered 500. *)
Theorem first_revision_wants_an_address now w r σ :
  unsent w ->
  let '(w', σ', job) := Part002.handleSubmit now w r σ in
  σ' = σ /\
  (rw_status w' = Some StatusAccepted <-> job <> None) /\
  (job <> None <->
   Method r = MethodPost /\ getClientIP r <> EmptyString /\
   exists body, io_ReadAll (Body r) = inr body /\ json_Unmarshal_map body = true) /\
  (forall j, job = Some j ->
     io_ReadAll (Body r) = inr (data j) /\
     path j = filepath.Join
                [uploadDir;
                 (getClientIP r +:+ "-" +:+ Format_seconds now +:+ ".json")%string]) /\
  (job = None ->
   rw_status w' = Some (if negb (String.eqb (Method r) MethodPost)
                        then StatusMethodNotAllowed
                        else match io_ReadAll (Body r) with
                             | inl _ => StatusBadRequest
                             | inr body =>
                                 if json_Unmarshal_map body
                                 then StatusInternalServerError
                                 else StatusBadRequest
                             end)).
Proof.
  intros Hw. unfold Part002.handleSubmit.
  destruct (String.eqb_spec (Method r) MethodPost) as [Hm|Hm]; cbn [negb];
    [destruct (io_ReadAll (Body r)) as [e|body] eqn:Hbody;
     [|destruct (json_Unmarshal_map body) eqn:Hjs; cbn [negb];
       [destruct (String.eqb_spec (getClientIP r) EmptyString) as [Hip|Hip]|]]|];
    cbv zeta;
    rewrite ?http_Error_status, ?stored_status by assumption;
    repeat split; try discriminate; try tauto;
    try (intros (Ha & Hb & b & Hc & Hd); first [contradiction | congruence]);
    try (match goal with Hj : Some _ = Some _ |- _ =>
           injection Hj as <-; reflexivity end);
    eauto.
Qed.

(** Whatever a revision stored, the next one stores too: the second
    revision starts the same goroutine as the first on every request the
    first accepted, and the third stores the same body, as a [.json] file
    named to the nanosecond, on every request the second accepted. The
    third revision stores every POST whose body it could read. *)
Theorem later_revisions_accept_more now w r σ :
  (forall j, (Part002.handleSubmit now w r σ).2 = Some j ->
             (Part001.handleSubmit now w r σ).2 = Some j) /\
  (forall j, (Part001.handleSubmit now w r σ).2 = Some j ->
     (Part000.handleSubmit now w r σ).2 =
       Some {| data := data j;
               path := filepath.Join
                         [uploadDir;
                          ((if String.eqb (getClientIP r) "" then "127.0.0.1"
                            else getClientIP r) +:+ "-" +:+ Format now +:+
                           ".json")%string] |}) /\
  ((Part000.handleSubmit now w r σ).2 <> None <->
   Method r = MethodPost /\ exists body, io_ReadAll (Body r) = inr body).
Proof.
  unfold Part002.handleSubmit, Part001.handleSubmit, Part000.handleSubmit,
    Part001.respondWithError, Part000.respondWithError.
  destruct (String.eqb_spec (Method r) MethodPost) as [Hm|Hm]; cbn [negb];
    [destruct (io_ReadAll (Body r)) as [e|body] eqn:Hbody;
     [|destruct (json_Unmarshal_map body) eqn:Hjs; cbn [negb];
       [destruct (String.eqb_spec (getClientIP r) EmptyString) as [Hip|Hip]|]]|];
    cbn [snd]; repeat split; try discriminate; try tauto;
    try (intros (Ha & b & Hb); first [contradiction | discriminate]);
    try (match goal with Hj : Some _ = Some _ |- _ =>
           injection Hj as <-; reflexivity end);
    try (intros j [= <-]; reflexivity);
    eauto.
Qed.

(** The earlier revisions put the client address into the file name as
    it came. When the address starts with [../], as the first entry of an
    [X-Forwarded-For] header can, the path handed to the goroutine is the
    rest of the name alone: a file beside the upload directory, not in
    it. *)
Theorem unsanitized_address_leaves_upload_dir now w r σ a body :
  Method r = MethodPost ->
  io_ReadAll (Body r) = inr body ->
  getClientIP r = ("../" +:+ a)%string ->
  mem_char "/" a = false ->
  let p0 := (a +:+ "-" +:+ Format now +:+
             (if json_Unmarshal_map body then ".json" else ".txt"))%string in
  let p1 := (a +:+ "-" +:+ Format_seconds now +:+ ".json")%string in
  (Part000.handleSubmit now w r σ).2 = Some {| data := body; path := p0 |} /\
  (json_Unmarshal_map body = true ->
   (Part001.handleSubmit now w r σ).2 = Some {| data := body; path := p1 |} /\
   (Part002.handleSubmit now w r σ).2 = Some {| data := body; path := p1 |}) /\
  ~ filepath.direct_child (filepath.Clean uploadDir) p0 /\
  ~ filepath.direct_child (filepath.Clean uploadDir) p1.
Proof.
  intros Hm Hbody Hip Ha p0 p1.
  assert (Hp0 : mem_char "/" p0 = false /\ mem_char "-" p0 = true).
  { subst p0. rewrite !mem_char_app, Ha.
    rewrite !(stamp_no_sep _ _ (Format_stamp now)) by reflexivity.
    destruct (json_Unmarshal_map body); split; try reflexivity;
      simpl; rewrite ?orb_true_r; reflexivity. }
  assert (Hp1 : mem_char "/" p1 = false /\ mem_char "-" p1 = true).
  { subst p1. rewrite !mem_char_app, Ha.
    rewrite !(stamp_no_sep _ _ (Format_seconds_stamp now)) by reflexivity.
    split; try reflexivity; simpl; rewrite ?orb_true_r; reflexivity. }
  destruct Hp0 as [Hs0 Hd0], Hp1 as [Hs1 Hd1].
  assert (Hne : String.eqb ("../" +:+ a) "" = false) by reflexivity.
  split; [|split; [|split; apply no_slash_not_child; assumption]].
  - unfold Part000.handleSubmit.
    destruct (String.eqb_spec (Method r) MethodPost) as [_|Hn]; [|contradiction].
    cbn [negb]. rewrite Hbody, Hip, Hne. cbv zeta. cbn [snd]. do 2 f_equal.
    rewrite <- (Join_escape p0 Hs0 Hd0). subst p0.
    destruct (json_Unmarshal_map body); reflexivity.
  - intros Hjs.
    unfold Part001.handleSubmit, Part002.handleSubmit.
    destruct (String.eqb_spec (Method r) MethodPost) as [_|Hn]; [|contradiction].
    cbn [negb]. rewrite Hbody, Hjs, Hip, Hne. cbv zeta. cbn [negb snd].
    rewrite <- (Join_escape p1 Hs1 Hd1). subst p1. split; reflexivity.
Qed.

End EarlierRevisions.

Section EarlierWrites.

(** The goroutine of the first two revisions when the file can be
    created: the file holds the bytes the device accepted; a line is
    printed only when [Write] itself failed, which takes a payload
    larger than the buffer. *)
Lemma store_created p name σ :
  name ∉ denied (os σ) ->
  exists b,
    Part002.store p name σ =
    {| isReady := isReady σ; writeQueue := writeQueue σ;
       bufferPool := b :: tail (bufferPool σ); lent := lent σ;
       os := stored name p (os σ);
       events := events σ ++
         [EvCreate name true; EvPoolGet] ++
         (if (bufio.size <? length p) && (accepts (os σ) p <? length p)
          then [EvLog "Failed to write file"] else []) ++
         [EvPoolPut; EvClose name] |}.
Proof.
  intros Hd. destruct σ as [rdy q pool ln o evs]. cbn [os] in Hd.
  unfold Part002.store, os_Create.
  cbn [os events isReady writeQueue bufferPool lent].
  destruct (decide (name ∈ denied o)); [contradiction|].
  unfold bufferPool_Get, bufferPool_Put, log_Print, emit, set_os, file_Close.
  cbn [os events isReady writeQueue bufferPool lent].
  set (o1 := {| files := <[name := []]> (files o); denied := denied o;
                quota := quota o; open_files := S (open_files o) |}).
  assert (Hacc : accepts o1 p = accepts o p) by reflexivity.
  destruct pool as [|b0 idle]; cbv zeta iota beta;
    rewrite Write_after_Reset;
    (destruct (bufio.size <? length p) eqn:Hbig;
     [ rewrite file_Write_eq; cbv zeta iota beta; cbn [os]; rewrite Hacc;
       destruct (accepts o p <? length p) eqn:Hshort;
       [ | rewrite Flush_buffered; cbn [length Nat.eqb] ]
     | rewrite Flush_buffered;
       destruct (length p =? 0) eqn:Hnil;
       [ | rewrite file_Write_eq; cbv zeta iota beta; cbn [os]; rewrite Hacc;
           destruct (accepts o p <? length p) eqn:Hshort ] ]);
    cbn [os events isReady writeQueue bufferPool lent tail andb];
    eexists;
    (f_equal;
     [ subst o1; cbn [files denied quota open_files file_name pred];
       first [ apply stored_created; assumption
             | apply Nat.eqb_eq, nil_length_inv in Hnil; subst p;
               apply stored_nil ]
     | rewrite <- ?app_assoc; try reflexivity ]).
Qed.

Lemma store_os p name σ :
  os (Part002.store p name σ) =
  if decide (name ∈ denied (os σ)) then os σ else stored name p (os σ).
Proof.
  destruct (decide (name ∈ denied (os σ))) as [Hd|Hd].
  - unfold Part002.store, os_Create.
    destruct (decide (name ∈ denied (os σ))); [|contradiction]. reflexivity.
  - destruct (store_created p _ _ Hd) as [b ->]. reflexivity.
Qed.

(** In the first two revisions the result of [buf.Flush()] is dropped.
    A payload that fits the buffer of 4096 bytes reaches the file only in
    that flush, so for such a payload the goroutine prints nothing
    whatever the device did: the file holds the bytes the device
    accepted, none at all if it accepted none, and the history shows the
    four events of a clean write. *)
Theorem failed_flush_is_silent p name σ :
  name ∉ denied (os σ) ->
  length p <= bufio.size ->
  files (os (Part002.store p name σ)) !! name = Some (take (accepts (os σ) p) p) /\
  events (Part002.store p name σ) =
    events σ ++ [EvCreate name true; EvPoolGet; EvPoolPut; EvClose name] /\
  Part001.store p name σ = Part002.store p name σ.
Proof.
  intros Hd Hfit. destruct (store_created p _ _ Hd) as [b E].
  split; [|split; [|reflexivity]]; rewrite E; cbn [os events stored files].
  - apply lookup_insert_eq.
  - apply Nat.ltb_ge in Hfit. rewrite Hfit. reflexivity.
Qed.

End EarlierWrites.

Section Collisions.

Context `{GoLib} `{GoJSON}.

(** The first two revisions name a file by the address and the time to
    the second. Two requests from one address that are stored within the
    same second get the same path, and the goroutine of the second, run
    after that of the first on a device with room, leaves the second body
    alone in the file. *)
Theorem same_second_same_file now1 now2 w1 w2 r1 r2 σ1 σ2 j1 j2 σ :
  getClientIP r1 = getClientIP r2 ->
  (year now1, month now1, day now1) = (year now2, month now2, day now2) ->
  (hour now1, minute now1, second now1) = (hour now2, minute now2, second now2) ->
  ((Part002.handleSubmit now1 w1 r1 σ1).2 = Some j1 /\
   (Part002.handleSubmit now2 w2 r2 σ2).2 = Some j2) \/
  ((Part001.handleSubmit now1 w1 r1 σ1).2 = Some j1 /\
   (Part001.handleSubmit now2 w2 r2 σ2).2 = Some j2) ->
  path j1 = path j2 /\
  (path j1 ∉ denied (os σ) -> quota (os σ) = None ->
   files (os (Part002.store (data j2) (path j2)
                (Part002.store (data j1) (path j1) σ))) !! path j1
     = Some (data j2)).
Proof.
  intros Hip [= Hy Hmo Hd] [= Hh Hmi Hs] Hjobs.
  assert (Hstamp : Format_seconds now1 = Format_seconds now2)
    by (unfold Format_seconds; congruence).
  assert (Hpath : path j1 = path j2).
  { destruct Hjobs as [[E1 E2]|[E1 E2]]; revert E1 E2;
      unfold Part002.handleSubmit, Part001.handleSubmit, Part001.respondWithError;
      destruct (negb (String.eqb (Method r1) MethodPost)); try discriminate;
      destruct (negb (String.eqb (Method r2) MethodPost)); try discriminate;
      destruct (io_ReadAll (Body r1)) as [e1|b1]; try discriminate;
      destruct (io_ReadAll (Body r2)) as [e2|b2]; try discriminate;
      destruct (json_Unmarshal_map b1); try discriminate;
      destruct (json_Unmarshal_map b2); try discriminate;
      cbn [negb]; rewrite Hip, Hstamp;
      destruct (String.eqb (getClientIP r2) ""); try discriminate;
      cbn [snd]; intros [= <-] [= <-]; reflexivity. }
  split; [assumption|]. intros Hden Hq. rewrite <- Hpath, !store_os.
  destruct (decide (path j1 ∈ denied (os σ))); [contradiction|].
  cbn [denied stored]. destruct (decide (path j1 ∈ denied (os σ))); [contradiction|].
  cbn [files stored]. rewrite lookup_insert_eq.
  assert (Hq1 : quota (stored (path j1) (data j1) (os σ)) = None)
    by (unfold stored; cbn [quota]; rewrite Hq; reflexivity).
  rewrite (accepts_unlimited _ _ Hq1), firstn_all. reflexivity.
Qed.

End Collisions.

Lemma first_revision_wants_an_address_witness :
  let L := Demo.lib in
  let r := {| Method := "POST"; URLPath := "/collection"; Header := [];
              RemoteAddr := "nowhere";
              Body := {| rd_bytes := Demo.a1; rd_err := None |};
              ctxDone := false |} in
  rw_status (Part002.handleSubmit Demo.t0 newResponseWriter r Demo.σ0).1.1
    = Some StatusInternalServerError.
Proof.
  intros L r.
  pose proof (first_revision_wants_an_address Demo.t0 newResponseWriter r Demo.σ0 eq_refl)
    as Hcrit.
  destruct (Part002.handleSubmit Demo.t0 newResponseWriter r Demo.σ0) as [[w' σ'] job] eqn:E.
  destruct Hcrit as (_ & _ & _ & _ & Hnone).
  assert (Hjob : job = None) by (vm_compute in E; congruence).
  cbn [fst]. rewrite (Hnone Hjob). reflexivity.
Defined.

Lemma later_revisions_accept_more_witness :
  let L := Demo.lib in
  let r := Demo.post [] Demo.a1 false in
  (Part001.handleSubmit Demo.t0 newResponseWriter r Demo.σ0).2 =
    Some {| data := Demo.a1; path := "uploads/10.0.0.1-2025-01-02-03_04_05.json" |} /\
  (Part000.handleSubmit Demo.t0 newResponseWriter r Demo.σ0).2 =
    Some {| data := Demo.a1;
            path := "uploads/10.0.0.1-2025-01-02-03_04_05.000000006.json" |}.
Proof.
  intros L r.
  destruct (later_revisions_accept_more Demo.t0 newResponseWriter r Demo.σ0)
    as (H21 & H10 & _).
  assert (E1 : (Part001.handleSubmit Demo.t0 newResponseWriter r Demo.σ0).2 =
               Some {| data := Demo.a1;
                       path := "uploads/10.0.0.1-2025-01-02-03_04_05.json" |})
    by (apply H21; vm_compute; reflexivity).
  split; [exact E1|]. rewrite (H10 _ E1). vm_compute. reflexivity.
Defined.

Lemma unsanitized_address_leaves_upload_dir_witness :
  let L := Demo.lib in
  let r := Demo.post [("X-Forwarded-For", "../x")%string] Demo.a1 false in
  (Part002.handleSubmit Demo.t0 newResponseWriter r Demo.σ0).2 =
    Some {| data := Demo.a1; path := "x-2025-01-02-03_04_05.json" |}.
Proof.
  intros L r.
  destruct (unsanitized_address_leaves_upload_dir Demo.t0 newResponseWriter r Demo.σ0
              "x" Demo.a1) as (_ & H12 & _).
  - reflexivity.
  - reflexivity.
  - vm_compute. reflexivity.
  - reflexivity.
  - destruct H12 as [_ H2]; [vm_compute; reflexivity|]. exact H2.
Defined.

Lemma failed_flush_is_silent_witness :
  let σ := set_os {| files := ∅; denied := ∅; quota := Some 3; open_files := 0 |}
             Demo.σ0 in
  files (os (Part002.store Demo.a1 "uploads/x" σ)) !! "uploads/x"%string
    = Some (take 3 Demo.a1) /\
  events (Part002.store Demo.a1 "uploads/x" σ) =
    events σ ++ [EvCreate "uploads/x" true; EvPoolGet; EvPoolPut; EvClose "uploads/x"].
Proof.
  intros σ.
  destruct (failed_flush_is_silent Demo.a1 "uploads/x" σ) as (Hfile & Hevs & _).
  - vm_compute. discriminate.
  - vm_compute. lia.
  - split; [exact Hfile|exact Hevs].
Defined.

Lemma same_second_same_file_witness :
  let L := Demo.lib in
  let later := {| year := 2025; month := 1; day := 2; hour := 3; minute := 4;
                  second := 5; nanosecond := 900000000 |} in
  files (os (Part002.store (Demo.bytes "{}") "uploads/10.0.0.1-2025-01-02-03_04_05.json"
               (Part002.store Demo.a1 "uploads/10.0.0.1-2025-01-02-03_04_05.json"
                  Demo.σ0)))
    !! "uploads/10.0.0.1-2025-01-02-03_04_05.json"%string = Some (Demo.bytes "{}").
Proof.
  intros L later.
  destruct (same_second_same_file Demo.t0 later newResponseWriter newResponseWriter
              (Demo.post [] Demo.a1 false) (Demo.post [] (Demo.bytes "{}") false)
              Demo.σ0 Demo.σ0
              {| data := Demo.a1; path := "uploads/10.0.0.1-2025-01-02-03_04_05.json" |}
              {| data := Demo.bytes "{}";
                 path := "uploads/10.0.0.1-2025-01-02-03_04_05.json" |}
              Demo.σ0 eq_refl eq_refl eq_refl) as [_ Hfile].
  - left. split; vm_compute; reflexivity.
  - apply Hfile; [vm_compute; discriminate|reflexivity].
Defined.

(** ** The file names of the current server *)

Section FileNames.

Context `{GoLib}.

(** The text after the last occurrence of a byte determines where it
    starts. *)
Lemma last_sep_unique c u1 v1 u2 v2 :
  mem_char c v1 = false -> mem_char c v2 = false ->
  (u1 +:+ String c v1 = u2 +:+ String c v2)%string -> u1 = u2 /\ v1 = v2.
Proof.
  intros H1 H2. revert u2. induction u1 as [|a u1 IH]; intros [|b u2] E.
  - injection E as ->. auto.
  - injection E as -> ->. rewrite mem_char_app in H1. simpl in H1.
    rewrite Ascii.eqb_refl, orb_true_r in H1. discriminate.
  - injection E as -> <-. rewrite mem_char_app in H2. simpl in H2.
    rewrite Ascii.eqb_refl, orb_true_r in H2. discriminate.
  - injection E as -> E. destruct (IH _ E) as [-> ->]. auto.
Qed.

Lemma append_assoc a b c : ((a +:+ b) +:+ c = a +:+ (b +:+ c))%string.
Proof.
  induction a as [|x a IH]; [reflexivity|].
  change (String x ((a +:+ b) +:+ c) = String x (a +:+ (b +:+ c)))%string.
  f_equal. exact IH.
Qed.

Lemma to_uint_nonnil n : N.to_uint n <> Decimal.Nil.
Proof.
  destruct n as [|p]; [discriminate|]. apply DecimalPos.Unsigned.to_uint_nonnil.
Qed.

Lemma Itoa_inj a b : Itoa a = Itoa b -> a = b.
Proof.
  unfold Itoa. intros E. apply DecimalN.Unsigned.to_uint_inj.
  apply (f_equal NilZero.uint_of_string) in E.
  rewrite !NilZero.usu in E by apply to_uint_nonnil. congruence.
Qed.

Lemma accepted_job s r σ w' σ' :
  serve s r σ = Some (w', σ') ->
  rw_status w' = Some StatusAccepted ->
  exists P, writeQueue σ' = writeQueue σ ++ [jobOf s r P] /\ payload r = Some P.
Proof.
  intros Hserve Hst.
  destruct (serve_served _ _ _ _ _ Hserve) as (jobs & evs & Hs & ->).
  destruct Hs as [Ho|Ho Hc Hp|Ho Hx|Ho Hx|Ho Hx|Hx Hg|Hx Ho Hg Hp
                 |m e Hx Hp Hr|P Hx Hp Hr Hd|P Hx Hp Hr Hf];
    try (vm_compute in Hst; discriminate).
  - destruct (isReady σ); vm_compute in Hst; discriminate.
  - exists P. destruct (readBody_ok _ _ Hr) as (_ & _ & Hpay). auto.
Qed.

(** The number drawn for the suffix can be read back from the path of a
    job: it is the digits between the last dash and the extension. So two
    admitted requests that drew different numbers are stored under
    different paths, whatever their addresses, their times and their
    payloads; and two jobs with one path drew the same number, have the
    same extension and the same address and time. *)
Theorem suffix_separates_files s1 s2 r1 r2 σ1 σ2 w1 w2 σ1' σ2' j1 j2 :
  serve s1 r1 σ1 = Some (w1, σ1') -> rw_status w1 = Some StatusAccepted ->
  serve s2 r2 σ2 = Some (w2, σ2') -> rw_status w2 = Some StatusAccepted ->
  last (writeQueue σ1') = Some j1 -> last (writeQueue σ2') = Some j2 ->
  (path j1 = path j2 ->
   rnd s1 = rnd s2 /\
   json_Valid (data j1) = json_Valid (data j2) /\
   (clientAddress r1 +:+ "-" +:+ Format (now s1) =
    clientAddress r2 +:+ "-" +:+ Format (now s2))%string) /\
  (rnd s1 <> rnd s2 -> String.eqb (path j1) (path j2) = false).
Proof.
  intros E1 Hst1 E2 Hst2 Hj1 Hj2.
  destruct (accepted_job _ _ _ _ _ E1 Hst1) as (P1 & Hq1 & _).
  destruct (accepted_job _ _ _ _ _ E2 Hst2) as (P2 & Hq2 & _).
  rewrite Hq1, last_snoc in Hj1. rewrite Hq2, last_snoc in Hj2.
  injection Hj1 as <-. injection Hj2 as <-.
  assert (Hmain : path (jobOf s1 r1 P1) = path (jobOf s2 r2 P2) ->
            rnd s1 = rnd s2 /\ json_Valid P1 = json_Valid P2 /\
            (clientAddress r1 +:+ "-" +:+ Format (now s1) =
             clientAddress r2 +:+ "-" +:+ Format (now s2))%string).
  { unfold jobOf, fileName. cbn [path data]. intros E.
    injection E as E.
    set (x1 := if json_Valid P1 then "json"%string else "txt"%string).
    set (x2 := if json_Valid P2 then "json"%string else "txt"%string).
    assert (Hx : forall P : list byte,
              (if json_Valid P then ".json" else ".txt")%string =
              String "." (if json_Valid P then "json" else "txt"))
      by (intros P; destruct (json_Valid P); reflexivity).
    assert (Hshape : forall a t n x,
              ("" +:+ a +:+ "-" +:+ t +:+ "-" +:+ n +:+ String "." x)%string =
              ((a +:+ "-" +:+ t) +:+ String "-" (n +:+ String "." x))%string).
    { intros a t n x. rewrite !append_assoc. reflexivity. }
    rewrite !Hx in E. fold x1 x2 in E. rewrite !Hshape in E.
    assert (Hx1 : mem_char "." x1 = false /\ mem_char "-" x1 = false)
      by (subst x1; destruct (json_Valid P1); split; reflexivity).
    assert (Hx2 : mem_char "." x2 = false /\ mem_char "-" x2 = false)
      by (subst x2; destruct (json_Valid P2); split; reflexivity).
    assert (Hn : forall n x, mem_char "-" x = false ->
                   mem_char "-" (Itoa n +:+ String "." x) = false).
    { intros n x Hxx. rewrite mem_char_app.
      rewrite (all_chars_mem _ _ _ (Itoa_digits n)) by reflexivity.
      simpl. exact Hxx. }
    apply last_sep_unique in E; [|apply Hn; tauto|apply Hn; tauto].
    destruct E as [Hu Hv].
    apply last_sep_unique in Hv; [|tauto|tauto].
    destruct Hv as [Hi Hx12]. split; [apply Itoa_inj; assumption|].
    split; [|assumption].
    subst x1 x2. destruct (json_Valid P1), (json_Valid P2);
      first [reflexivity|discriminate]. }
  split; [exact Hmain|].
  intros Hne. apply String.eqb_neq. intros E. apply Hne, Hmain, E.
Qed.

End FileNames.

Lemma suffix_separates_files_witness :
  let L := Demo.lib in
  let s2 := {| now := Demo.t0; rnd := 43; coin := true |} in
  String.eqb "uploads/10.0.0.1-2025-01-02-03_04_05.000000006-42.json"
             "uploads/10.0.0.1-2025-01-02-03_04_05.000000006-43.json" = false.
Proof.
  intros L s2.
  destruct (serve (Demo.sched true) (Demo.post [] Demo.a1 false) Demo.σ0)
    as [[w1 σ1]|] eqn:E1; [|vm_compute in E1; discriminate].
  destruct (serve s2 (Demo.post [] Demo.a1 false) Demo.σ0)
    as [[w2 σ2]|] eqn:E2; [|vm_compute in E2; discriminate].
  destruct (suffix_separates_files _ _ _ _ _ _ _ _ _ _
              {| data := Demo.a1;
                 path := "uploads/10.0.0.1-2025-01-02-03_04_05.000000006-42.json" |}
              {| data := Demo.a1;
                 path := "uploads/10.0.0.1-2025-01-02-03_04_05.000000006-43.json" |}
              E1 ltac:(vm_compute in E1; injection E1 as <- _; reflexivity)
              E2 ltac:(vm_compute in E2; injection E2 as <- _; reflexivity))
    as [_ Hdiff].
  - vm_compute in E1. injection E1 as _ <-. reflexivity.
  - vm_compute in E2. injection E2 as _ <-. reflexivity.
  - apply Hdiff. discriminate.
Defined.
